(** * hytek-parser: the JSON reshaping step of [hytek_parser/cli.py]

    A shallow embedding of [_drop_none], [_sorted_events] and
    [_post_process], and the properties of the reshaped document.

    Python values are embedded as the inductive type [value]; a [dict] is an
    association list in insertion order, which is the iteration order of a
    Python dictionary.  Mapping keys are strings, as the annotations
    [Dict[str, Any]] and [Mapping[str, Any]] of the source say.  A character
    is a code point below 256, so a string is a Python [str] over the Latin-1
    block; comparison of strings is comparison of code points, as in Python. *)

From Stdlib Require Import ZArith String Ascii List Bool Lia.
From Stdlib Require Import Sorting.Sorted Sorting.Permutation.
From Stdlib Require Import Floats.SpecFloat.
From stdpp Require Import base list.

Import ListNotations.
#[local] Set Warnings "-register-all".
Local Open Scope string_scope.
Local Open Scope Z_scope.

(** ** Strings: the built-ins [str.isdigit] and [int] *)

Module PyStr.

(** Whitespace that [int] strips on both sides of a literal: the ASCII
    white space and, beyond ASCII, NEL (133) and NBSP (160). *)
Definition is_space (c : ascii) : bool :=
  let n := N_of_ascii c in
  ((9 <=? n) && (n <=? 13) || (n =? 32) || (n =? 133) || (n =? 160))%N.

(** The value of a decimal digit.  Below code point 256 the decimal digits
    are ["0"] to ["9"]. *)
Definition digit_value (c : ascii) : option Z :=
  let n := N_of_ascii c in
  if ((48 <=? n) && (n <=? 57))%N then Some (Z.of_N n - 48) else None.

(** [str.isdigit] on one character: the decimal digits and the superscript
    digits two (178), three (179) and one (185), which [int] rejects. *)
Definition char_isdigit (c : ascii) : bool :=
  let n := N_of_ascii c in
  ((48 <=? n) && (n <=? 57) || (n =? 178) || (n =? 179) || (n =? 185))%N.

Fixpoint all_chars (p : ascii -> bool) (s : string) : bool :=
  match s with
  | EmptyString => true
  | String c s' => p c && all_chars p s'
  end.

(** [s.isdigit()]: every character is a digit and there is at least one. *)
Definition isdigit (s : string) : bool :=
  match s with
  | EmptyString => false
  | _ => all_chars char_isdigit s
  end.

Fixpoint lstrip (s : string) : string :=
  match s with
  | String c s' => if is_space c then lstrip s' else s
  | EmptyString => s
  end.

(** The digits after the first one: a single underscore may separate two
    digits, and only white space may follow the last digit. *)
Fixpoint int_digits (acc : Z) (s : string) : option Z :=
  match s with
  | EmptyString => Some acc
  | String c s' =>
      match digit_value c with
      | Some d => int_digits (acc * 10 + d) s'
      | None =>
          if Ascii.eqb c "_" then
            match s' with
            | String c' s'' =>
                match digit_value c' with
                | Some d => int_digits (acc * 10 + d) s''
                | None => None
                end
            | EmptyString => None
            end
          else if all_chars is_space s then Some acc else None
      end
  end.

Definition int_unsigned (s : string) : option Z :=
  match s with
  | String c s' =>
      match digit_value c with
      | Some d => int_digits d s'
      | None => None
      end
  | EmptyString => None
  end.

(** The integer that a literal writes in base ten, if it is one. *)
Definition int_literal (s : string) : option Z :=
  match lstrip s with
  | String c s' =>
      if Ascii.eqb c "-" then option_map Z.opp (int_unsigned s')
      else if Ascii.eqb c "+" then int_unsigned s'
      else int_unsigned (String c s')
  | EmptyString => None
  end.

(** The number of decimal digits of a string. *)
Fixpoint digit_count (s : string) : Z :=
  match s with
  | EmptyString => 0
  | String c s' =>
      match digit_value c with
      | Some _ => 1 + digit_count s'
      | None => digit_count s'
      end
  end.

(** [int(s)] in base ten; [None] stands for [ValueError].  A literal of
    more than 4300 digits, leading zeros included, is rejected ([int]'s
    limit on the length of a conversion). *)
Definition py_int (s : string) : option Z :=
  if 4300 <? digit_count s then None else int_literal s.

End PyStr.

(** ** Values, exceptions and dictionaries *)

(** The values of the tree that [attrs.asdict] delivers.  A float is kept as
    its IEEE 754 datum; the reshaping only ever tests it for truth. *)
Inductive value : Type :=
| VNone
| VBool (b : bool)
| VInt (n : Z)
| VFloat (f : spec_float)
| VStr (s : string)
| VList (l : list value)
| VDict (d : list (string * value)).

Abbreviation dict := (list (string * value)).

Inductive exn : Type := TypeError | AttributeError | ValueError.

Inductive result (A : Type) : Type :=
| Ok (a : A)
| Raise (e : exn).

Arguments Ok {A} a.
Arguments Raise {A} e.

Definition bind {A B : Type} (m : result A) (k : A -> result B) : result B :=
  match m with
  | Ok a => k a
  | Raise e => Raise e
  end.

Notation "x <- m ;; k" := (bind m (fun x => k))
  (at level 100, m at next level, right associativity).

(** A [for] loop whose body may raise, collecting one result per item. *)
Fixpoint map_result {A B : Type} (f : A -> result B) (l : list A)
  : result (list B) :=
  match l with
  | [] => Ok []
  | a :: l' => b <- f a ;; bs <- map_result f l' ;; Ok (b :: bs)
  end.

(** The truth value of an object, as [bool(v)], [if v] and [v or w] test it. *)
Definition truthy (v : value) : bool :=
  match v with
  | VNone => false
  | VBool b => b
  | VInt n => negb (n =? 0)
  | VFloat (S754_zero _) => false
  | VFloat _ => true
  | VStr EmptyString => false
  | VStr _ => true
  | VList [] => false
  | VList _ => true
  | VDict [] => false
  | VDict _ => true
  end.

(** [v or w] *)
Definition py_or (v w : value) : value := if truthy v then v else w.

(** The object [None] of a type of values: what [d.get(k)] answers for a
    missing key. *)
Class PyNone (V : Type) : Type := py_none : V.

#[global] Instance value_none : PyNone value := VNone.

Module PyDict.

Section Generic.
Context {V : Type} `{PyNone V}.

(** The binding of key [k], if any. *)
Fixpoint find (k : string) (d : list (string * V)) : option V :=
  match d with
  | [] => None
  | (k', v) :: d' => if String.eqb k' k then Some v else find k d'
  end.

(** [d.get(k)] and [d.get(k, dflt)] *)
Definition get (d : list (string * V)) (k : string) : V :=
  match find k d with Some v => v | None => py_none end.

Definition get_default (d : list (string * V)) (k : string) (dflt : V) : V :=
  match find k d with Some v => v | None => dflt end.

(** [d[k] = v]: an existing key keeps its place, a new key goes last. *)
Fixpoint setitem (k : string) (v : V) (d : list (string * V))
  : list (string * V) :=
  match d with
  | [] => [(k, v)]
  | (k', v') :: d' =>
      if String.eqb k' k then (k, v) :: d' else (k', v') :: setitem k v d'
  end.

(** [d.pop(k, None)], for its effect on [d]. *)
Fixpoint pop (k : string) (d : list (string * V)) : list (string * V) :=
  match d with
  | [] => []
  | (k', v') :: d' =>
      if String.eqb k' k then d' else (k', v') :: pop k d'
  end.
End Generic.

(** [dict(v)].  A mapping is copied; an empty sequence gives the empty
    dictionary; an object that is not iterable raises [TypeError] and a
    string of one-character items raises [ValueError].  A non-empty list
    would be read as a list of key/value pairs: no tree of the parser holds
    one where a record is expected, and it is rejected here. *)
Definition of_value (v : value) : result dict :=
  match v with
  | VDict d => Ok d
  | VList [] => Ok []
  | VStr EmptyString => Ok []
  | VStr _ => Raise ValueError
  | _ => Raise TypeError
  end.

(** [v.items()] and the receiver of [v.get(...)]: only a mapping has these
    attributes. *)
Definition items (v : value) : result dict :=
  match v with
  | VDict d => Ok d
  | _ => Raise AttributeError
  end.

End PyDict.

(** The one-character strings of a string. *)
Fixpoint chars (s : string) : list string :=
  match s with
  | EmptyString => []
  | String c s' => String c EmptyString :: chars s'
  end.

(** The items a [for] loop over [v] visits: the elements of a list, the keys
    of a mapping, the characters of a string. *)
Definition py_iter (v : value) : result (list value) :=
  match v with
  | VList l => Ok l
  | VDict d => Ok (List.map (fun kv => VStr (fst kv)) d)
  | VStr s => Ok (List.map VStr (chars s))
  | _ => Raise TypeError
  end.

(** ** [_drop_none] *)

(** The test of the loop body: [v is None], or [v] is a dictionary and is
    empty. *)
Definition dropped (v : value) : bool :=
  match v with
  | VNone => true
  | VDict [] => true
  | _ => false
  end.

Definition _drop_none (d : dict) : dict :=
  fold_left
    (fun result kv => if dropped (snd kv) then result
                      else PyDict.setitem (fst kv) (snd kv) result)
    d [].

(** ** [_sorted_events] *)

(** [a < b] on pairs of an integer and a string: the first components decide
    unless they are equal, then the second ones. *)
Definition tuple_lt (a b : Z * string) : bool :=
  if negb (fst a =? fst b) then fst a <? fst b
  else if negb (String.eqb (snd a) (snd b)) then String.ltb (snd a) (snd b)
  else false.

(** [sorted(l, key=key)]: a stable sort that compares keys with [<] only. *)
Section Sorted.
Context {A K : Type} (key : A -> K) (lt : K -> K -> bool).

Fixpoint insert_sorted (x : A) (l : list A) : list A :=
  match l with
  | [] => [x]
  | y :: l' =>
      if lt (key y) (key x) then y :: insert_sorted x l' else x :: y :: l'
  end.

Definition py_sorted (l : list A) : list A := fold_right insert_sorted [] l.
End Sorted.

Definition _event_key {V : Type} (kv : string * V) : Z * string :=
  match PyStr.py_int (fst kv) with
  | Some n => (n, fst kv)
  | None => (10 ^ 9, fst kv)
  end.

Definition _sorted_events (events : dict) : list (string * value) :=
  py_sorted _event_key tuple_lt events.

(** ** [_post_process] *)

Import PyDict.

(** The candidate of the [file] section (lines 86-91). *)
Definition file_section (parsed : dict) : dict :=
  [("description", get parsed "file_description");
   ("software", get parsed "software");
   ("date_created", get parsed "date_created");
   ("licensee", get parsed "licensee")].

(** The body of the loop over the teams (lines 98-102). *)
Definition team_out (code : string) (team : value) : result value :=
  team_map <- of_value team ;;
  Ok (VDict (pop "swimmers" (setitem "code" (VStr code) team_map))).

(** [int(meet_id) if isinstance(meet_id, str) and meet_id.isdigit() else
    meet_id], for a key that is a string. *)
Definition coerce_meet_id (meet_id : string) : result value :=
  if PyStr.isdigit meet_id then
    match PyStr.py_int meet_id with
    | Some n => Ok (VInt n)
    | None => Raise ValueError
    end
  else Ok (VStr meet_id).

(** The body of the loop over the swimmers (lines 107-110). *)
Definition swimmer_out (meet_id : string) (swimmer : value) : result value :=
  swimmer_map <- of_value swimmer ;;
  id <- coerce_meet_id meet_id ;;
  Ok (VDict (setitem "meet_id" id swimmer_map)).

(** The swimmer references of an entry (lines 122-127). *)
Definition swimmer_ids (entry : dict) : result (list value) :=
  swimmers_in_entry <-
    py_iter (py_or (get_default entry "swimmers" (VList [])) (VList [])) ;;
  map_result (fun s => s_map <- items s ;; Ok (get s_map "meet_id"))
             swimmers_in_entry.

(** The seed block (lines 129-136). *)
Definition seed_of (entry : dict) : dict :=
  _drop_none
    [("time", get entry "seed_time");
     ("course", get entry "seed_course");
     ("converted_time", get entry "converted_seed_time");
     ("converted_course", get entry "converted_seed_time_course")].

(** The disqualification detail of a leg (lines 139-149). *)
Definition dq_of (dq_info : value) : result value :=
  if truthy dq_info then
    info <- items dq_info ;;
    Ok (VDict (_drop_none [("code", get info "code");
                           ("info", get info "info_str")]))
  else Ok VNone.

(** The candidate of a leg, before pruning (lines 152-163). *)
Definition leg_candidate (entry : dict) (prefix : string) (dq : value) : dict :=
  let field name := get entry (String.append prefix name) in
  [("time", field "_time");
   ("course", field "_course");
   ("time_code", field "_time_code");
   ("dq", dq);
   ("heat", field "_heat");
   ("lane", field "_lane");
   ("heat_place", field "_heat_place");
   ("overall_place", field "_overall_place");
   ("date", field "_date");
   ("splits", field "_splits")].

(** The closure [build_leg], with the entry it captures as an argument. *)
Definition build_leg (entry : dict) (prefix : string) : result value :=
  dq <- dq_of (get entry (String.append prefix "_dq_info")) ;;
  let leg := _drop_none (leg_candidate entry prefix dq) in
  Ok (py_or (VDict leg) VNone).

(** The body of the loop over the entries of an event (lines 121-179). *)
Definition entry_out (entry_v : value) : result value :=
  entry <- items entry_v ;;
  swimmer_ids <- swimmer_ids entry ;;
  let seed := seed_of entry in
  prelim <- build_leg entry "prelim" ;;
  swimoff <- build_leg entry "swimoff" ;;
  finals <- build_leg entry "finals" ;;
  Ok (VDict (_drop_none
    [("swimmers", VList swimmer_ids);
     ("relay", VBool (truthy (get_default entry "relay" (VBool false))));
     ("seed", py_or (VDict seed) VNone);
     ("prelim", prelim);
     ("swimoff", swimoff);
     ("finals", finals);
     ("event_number", get entry "event_number")])).

(** The candidate of an event record (lines 182-198). *)
Definition event_candidate (e_map : dict) (reshaped_entries : list value)
  : dict :=
  [("number", get e_map "number");
   ("distance", get e_map "distance");
   ("stroke", get e_map "stroke");
   ("course", get e_map "course");
   ("date", get e_map "date_");
   ("fee", get e_map "fee");
   ("gender", get e_map "gender");
   ("gender_age", get e_map "gender_age");
   ("age_min", get e_map "age_min");
   ("age_max", get e_map "age_max");
   ("open", get e_map "open_");
   ("relay", VBool (truthy (get_default e_map "relay" (VBool false))));
   ("relay_team_id", get e_map "relay_team_id");
   ("relay_swim_team_code", get e_map "relay_swim_team_code");
   ("entries", VList reshaped_entries)].

(** The body of the loop over the sorted events (lines 115-200). *)
Definition event_out (event_number : string) (event : value) : result value :=
  e_map0 <- of_value event ;;
  let e_map := setitem "number" (VStr event_number) e_map0 in
  entries <-
    py_iter (py_or (get_default e_map "entries" (VList [])) (VList [])) ;;
  reshaped_entries <- map_result entry_out entries ;;
  Ok (VDict (_drop_none (event_candidate e_map reshaped_entries))).

(** The candidate of the [meet] section (lines 203-216). *)
Definition meet_candidate (meet : dict)
  (teams_list swimmers_list events_list : list value) : dict :=
  [("name", get meet "name");
   ("facility", get meet "facility");
   ("start_date", get meet "start_date");
   ("end_date", get meet "end_date");
   ("altitude", get meet "altitude");
   ("country", get meet "country");
   ("masters", get meet "masters");
   ("type", get meet "type_");
   ("course", get meet "course");
   ("teams", VList teams_list);
   ("swimmers", VList swimmers_list);
   ("events", VList events_list)].

(** A mapping of the meet: [meet.get(name, {}) or {}], then [.items()]. *)
Definition mapping_of (meet : dict) (name : string) : result dict :=
  items (py_or (get_default meet name (VDict [])) (VDict [])).

Definition _post_process (parsed : dict) : result dict :=
  let file_section := file_section parsed in
  meet <- of_value (get_default parsed "meet" (VDict [])) ;;
  teams <- mapping_of meet "teams" ;;
  teams_list <- map_result (fun kv => team_out (fst kv) (snd kv)) teams ;;
  swimmers <- mapping_of meet "swimmers" ;;
  swimmers_list <-
    map_result (fun kv => swimmer_out (fst kv) (snd kv)) swimmers ;;
  events <- mapping_of meet "events" ;;
  events_list <-
    map_result (fun kv => event_out (fst kv) (snd kv))
               (_sorted_events events) ;;
  let meet_out :=
    _drop_none (meet_candidate meet teams_list swimmers_list events_list) in
  Ok [("file", VDict (_drop_none file_section)); ("meet", VDict meet_out)].

(** The end-to-end scenario: one team, one swimmer, one event with one
    entry. *)
Definition scenario : dict :=
  [("meet", VDict
     [("teams", VDict [("ABC", VDict [("name", VStr "Acme Club")])]);
      ("swimmers", VDict [("7", VDict [("first_name", VStr "Jo")])]);
      ("events", VDict
         [("1", VDict
            [("distance", VInt 50);
             ("entries", VList
                [VDict [("swimmers", VList [VDict [("meet_id", VInt 7)]]);
                        ("finals_time", VStr "25.31");
                        ("finals_course", VStr "SCY")]])])])])].


(** ** The same code over a store of mutable objects

    In Python a dictionary and a list are objects: [dict(team)] allocates a
    new one, [team_map["code"] = code], [team_map.pop(...)] and
    [teams_list.append(...)] change an object in place, and a value of the
    tree may be shared between the input and the output.  The module below
    embeds the code once more with the store explicit: an address names an
    object, allocation takes the next free address.  It is the model in
    which "the input is not mutated" is a statement, and the embedding
    above is proved to compute the tree that this one builds. *)

Module Heap.

Inductive hvalue : Type :=
| HNone
| HBool (b : bool)
| HInt (n : Z)
| HFloat (f : spec_float)
| HStr (s : string)
| HRef (a : nat).

#[global] Instance hvalue_none : PyNone hvalue := HNone.

Abbreviation hdict := (list (string * hvalue)).

Inductive object : Type :=
| ODict (d : hdict)
| OList (l : list hvalue).

Abbreviation heap := (list object).

(** [Stuck] is a reference to an address that holds no object; it has no
    counterpart in Python and is never reached from a store that holds the
    objects its values refer to. *)
Inductive outcome (A : Type) : Type :=
| Done (a : A)
| Exc (e : exn)
| Stuck.

Arguments Done {A} a.
Arguments Exc {A} e.
Arguments Stuck {A}.

Definition M (A : Type) : Type := heap -> outcome A * heap.

Definition ret {A : Type} (a : A) : M A := fun h => (Done a, h).

Definition raise {A : Type} (e : exn) : M A := fun h => (Exc e, h).

Definition bind {A B : Type} (m : M A) (k : A -> M B) : M B :=
  fun h =>
    match m h with
    | (Done a, h') => k a h'
    | (Exc e, h') => (Exc e, h')
    | (Stuck, h') => (Stuck, h')
    end.

Notation "x <~ m ;; k" := (bind m (fun x => k))
  (at level 100, m at next level, right associativity).

Definition alloc (o : object) : M hvalue :=
  fun h => (Done (HRef (length h)), (h ++ [o])%list).

Definition deref (a : nat) : M object :=
  fun h =>
    match h !! a with
    | Some o => (Done o, h)
    | None => (Stuck, h)
    end.

Definition store (a : nat) (o : object) : M unit :=
  fun h => (Done tt, <[a:=o]> h).

Fixpoint for_each {A : Type} (body : A -> M unit) (l : list A) : M unit :=
  match l with
  | [] => ret tt
  | x :: l' => _ <~ body x ;; for_each body l'
  end.

(** *** Built-ins *)

(** The receiver of [v.get(...)] and of [v.items()]. *)
Definition mapping (v : hvalue) : M hdict :=
  match v with
  | HRef a =>
      o <~ deref a ;;
      match o with
      | ODict d => ret d
      | OList _ => raise AttributeError
      end
  | _ => raise AttributeError
  end.

(** [v.get(k)] *)
Definition get_ (v : hvalue) (k : string) : M hvalue :=
  d <~ mapping v ;; ret (PyDict.get d k).

(** [v.get(k, dflt)]: the receiver is looked up before the default is
    evaluated. *)
Definition get_default_ (v : hvalue) (k : string) (dflt : M hvalue)
  : M hvalue :=
  d <~ mapping v ;;
  x <~ dflt ;;
  ret (PyDict.get_default d k x).

Definition truthy (v : hvalue) : M bool :=
  match v with
  | HNone => ret false
  | HBool b => ret b
  | HInt n => ret (negb (n =? 0))
  | HFloat (S754_zero _) => ret false
  | HFloat _ => ret true
  | HStr EmptyString => ret false
  | HStr _ => ret true
  | HRef a =>
      o <~ deref a ;;
      ret (match o with
           | ODict [] | OList [] => false
           | _ => true
           end)
  end.

(** [v or w], where [w] is evaluated only when [v] is false. *)
Definition py_or (v : hvalue) (w : M hvalue) : M hvalue :=
  b <~ truthy v ;; if b then ret v else w.

(** [dict(v)] *)
Definition dict_of (v : hvalue) : M hvalue :=
  match v with
  | HRef a =>
      o <~ deref a ;;
      match o with
      | ODict d => alloc (ODict d)
      | OList [] => alloc (ODict [])
      | OList _ => raise TypeError
      end
  | HStr EmptyString => alloc (ODict [])
  | HStr _ => raise ValueError
  | _ => raise TypeError
  end.

(** [v[k] = x] *)
Definition setitem (v : hvalue) (k : string) (x : hvalue) : M unit :=
  match v with
  | HRef a =>
      o <~ deref a ;;
      match o with
      | ODict d => store a (ODict (PyDict.setitem k x d))
      | OList _ => raise TypeError
      end
  | _ => raise TypeError
  end.

(** [v.pop(k, None)] *)
Definition pop (v : hvalue) (k : string) : M unit :=
  match v with
  | HRef a =>
      o <~ deref a ;;
      match o with
      | ODict d => store a (ODict (PyDict.pop k d))
      | OList _ => raise TypeError
      end
  | _ => raise AttributeError
  end.

(** [v.append(x)] *)
Definition append (v : hvalue) (x : hvalue) : M unit :=
  match v with
  | HRef a =>
      o <~ deref a ;;
      match o with
      | OList l => store a (OList (l ++ [x])%list)
      | ODict _ => raise AttributeError
      end
  | _ => raise AttributeError
  end.

(** The items of [for x in v]. *)
Definition iter (v : hvalue) : M (list hvalue) :=
  match v with
  | HRef a =>
      o <~ deref a ;;
      match o with
      | OList l => ret l
      | ODict d => ret (List.map (fun kv => HStr (fst kv)) d)
      end
  | HStr s => ret (List.map HStr (chars s))
  | _ => raise TypeError
  end.

(** A dictionary display [{k1: e1, ..., kn: en}]: the values are evaluated
    from left to right, then the object is allocated. *)
Fixpoint eval_fields (fs : list (string * M hvalue)) : M hdict :=
  match fs with
  | [] => ret []
  | (k, e) :: fs' =>
      v <~ e ;; d <~ eval_fields fs' ;; ret ((k, v) :: d)
  end.

Definition display (fs : list (string * M hvalue)) : M hvalue :=
  d <~ eval_fields fs ;; alloc (ODict d).

(** [for x in xs: lst.append(body(x))] *)
Definition for_append {A : Type} (lst : hvalue) (body : A -> M hvalue)
  (xs : list A) : M unit :=
  for_each (fun x => y <~ body x ;; append lst y) xs.

(** [lst = []], then [for x in pre: lst.append(body(x))]: the list is
    allocated before the items of the loop are evaluated. *)
Definition collect {A : Type} (pre : M (list A)) (body : A -> M hvalue)
  : M hvalue :=
  lst <~ alloc (OList []) ;;
  xs <~ pre ;;
  _ <~ for_append lst body xs ;;
  ret lst.

(** *** [_drop_none] *)

(** [isinstance(v, dict) and not v] *)
Definition is_empty_dict (v : hvalue) : M bool :=
  match v with
  | HRef a =>
      o <~ deref a ;;
      ret (match o with ODict [] => true | _ => false end)
  | _ => ret false
  end.

(** The body of the loop of [_drop_none]. *)
Definition drop_item (result : hvalue) (kv : string * hvalue) : M unit :=
  match snd kv with
  | HNone => ret tt
  | v =>
      e <~ is_empty_dict v ;;
      if e then ret tt else setitem result (fst kv) v
  end.

Definition _drop_none (d : hvalue) : M hvalue :=
  result <~ alloc (ODict []) ;;
  its <~ mapping d ;;
  _ <~ for_each (drop_item result) its ;;
  ret result.

(** *** [_sorted_events]

    The pairs of [events.items()] and the list that [sorted] returns are
    temporaries that the caller only iterates over; they are kept as a list
    of pairs, not as objects of the store. *)
Definition _sorted_events (events : hvalue) : M (list (string * hvalue)) :=
  its <~ mapping events ;;
  ret (py_sorted _event_key tuple_lt its).

(** *** [_post_process] *)

Definition file_section (parsed : hvalue) : M hvalue :=
  display
    [("description", get_ parsed "file_description");
     ("software", get_ parsed "software");
     ("date_created", get_ parsed "date_created");
     ("licensee", get_ parsed "licensee")].

Definition team_out (code : string) (team : hvalue) : M hvalue :=
  team_map <~ dict_of team ;;
  _ <~ setitem team_map "code" (HStr code) ;;
  _ <~ pop team_map "swimmers" ;;
  ret team_map.

Definition coerce_meet_id (meet_id : string) : M hvalue :=
  if PyStr.isdigit meet_id then
    match PyStr.py_int meet_id with
    | Some n => ret (HInt n)
    | None => raise ValueError
    end
  else ret (HStr meet_id).

Definition swimmer_out (meet_id : string) (swimmer : hvalue) : M hvalue :=
  swimmer_map <~ dict_of swimmer ;;
  id <~ coerce_meet_id meet_id ;;
  _ <~ setitem swimmer_map "meet_id" id ;;
  ret swimmer_map.

Definition swimmer_ids (entry : hvalue) : M hvalue :=
  got <~ get_default_ entry "swimmers" (alloc (OList [])) ;;
  swimmers_in_entry <~ py_or got (alloc (OList [])) ;;
  collect (iter swimmers_in_entry) (fun s => get_ s "meet_id").

Definition seed_of (entry : hvalue) : M hvalue :=
  candidate <~
    display
      [("time", get_ entry "seed_time");
       ("course", get_ entry "seed_course");
       ("converted_time", get_ entry "converted_seed_time");
       ("converted_course", get_ entry "converted_seed_time_course")] ;;
  _drop_none candidate.

Definition dq_of (dq_info : hvalue) : M hvalue :=
  b <~ truthy dq_info ;;
  if b then
    candidate <~
      display [("code", get_ dq_info "code");
               ("info", get_ dq_info "info_str")] ;;
    _drop_none candidate
  else ret HNone.

Definition build_leg (entry : hvalue) (prefix : string) : M hvalue :=
  let field name := get_ entry (String.append prefix name) in
  dq_info <~ field "_dq_info" ;;
  dq <~ dq_of dq_info ;;
  candidate <~
    display
      [("time", field "_time");
       ("course", field "_course");
       ("time_code", field "_time_code");
       ("dq", ret dq);
       ("heat", field "_heat");
       ("lane", field "_lane");
       ("heat_place", field "_heat_place");
       ("overall_place", field "_overall_place");
       ("date", field "_date");
       ("splits", field "_splits")] ;;
  leg <~ _drop_none candidate ;;
  py_or leg (ret HNone).

(** [bool(v.get(k, False))] *)
Definition flag (v : hvalue) (k : string) : M hvalue :=
  x <~ get_default_ v k (ret (HBool false)) ;;
  b <~ truthy x ;;
  ret (HBool b).

Definition entry_out (entry : hvalue) : M hvalue :=
  swimmer_ids <~ swimmer_ids entry ;;
  seed <~ seed_of entry ;;
  candidate <~
    display
      [("swimmers", ret swimmer_ids);
       ("relay", flag entry "relay");
       ("seed", py_or seed (ret HNone));
       ("prelim", build_leg entry "prelim");
       ("swimoff", build_leg entry "swimoff");
       ("finals", build_leg entry "finals");
       ("event_number", get_ entry "event_number")] ;;
  _drop_none candidate.

(** The items of [for entry in e_map.get("entries", []) or []]. *)
Definition entries_of (e_map : hvalue) : M (list hvalue) :=
  got <~ get_default_ e_map "entries" (alloc (OList [])) ;;
  entries <~ py_or got (alloc (OList [])) ;;
  iter entries.

(** [e_map = dict(event)], then [e_map["number"] = event_number]. *)
Definition numbered (event_number : string) (event : hvalue) : M hvalue :=
  e_map <~ dict_of event ;;
  _ <~ setitem e_map "number" (HStr event_number) ;;
  ret e_map.

Definition event_out (event_number : string) (event : hvalue) : M hvalue :=
  e_map <~ numbered event_number event ;;
  reshaped_entries <~ collect (entries_of e_map) entry_out ;;
  candidate <~
    display
      [("number", get_ e_map "number");
       ("distance", get_ e_map "distance");
       ("stroke", get_ e_map "stroke");
       ("course", get_ e_map "course");
       ("date", get_ e_map "date_");
       ("fee", get_ e_map "fee");
       ("gender", get_ e_map "gender");
       ("gender_age", get_ e_map "gender_age");
       ("age_min", get_ e_map "age_min");
       ("age_max", get_ e_map "age_max");
       ("open", get_ e_map "open_");
       ("relay", flag e_map "relay");
       ("relay_team_id", get_ e_map "relay_team_id");
       ("relay_swim_team_code", get_ e_map "relay_swim_team_code");
       ("entries", ret reshaped_entries)] ;;
  _drop_none candidate.

(** [meet.get(name, {}) or {}] *)
Definition mapping_of (meet : hvalue) (name : string) : M hvalue :=
  got <~ get_default_ meet name (alloc (ODict [])) ;;
  py_or got (alloc (ODict [])).

Definition _post_process (parsed : hvalue) : M hvalue :=
  file_section <~ file_section parsed ;;
  got <~ get_default_ parsed "meet" (alloc (ODict [])) ;;
  meet <~ dict_of got ;;
  teams <~ mapping_of meet "teams" ;;
  teams_list <~
    collect (mapping teams) (fun kv => team_out (fst kv) (snd kv)) ;;
  swimmers <~ mapping_of meet "swimmers" ;;
  swimmers_list <~
    collect (mapping swimmers) (fun kv => swimmer_out (fst kv) (snd kv)) ;;
  events <~ mapping_of meet "events" ;;
  events_list <~
    collect (_sorted_events events)
            (fun kv => event_out (fst kv) (snd kv)) ;;
  candidate <~
    display
      [("name", get_ meet "name");
       ("facility", get_ meet "facility");
       ("start_date", get_ meet "start_date");
       ("end_date", get_ meet "end_date");
       ("altitude", get_ meet "altitude");
       ("country", get_ meet "country");
       ("masters", get_ meet "masters");
       ("type", get_ meet "type_");
       ("course", get_ meet "course");
       ("teams", ret teams_list);
       ("swimmers", ret swimmers_list);
       ("events", ret events_list)] ;;
  meet_out <~ _drop_none candidate ;;
  file_out <~ _drop_none file_section ;;
  display [("file", ret file_out); ("meet", ret meet_out)].

(** *** Trees in the store *)

(** Allocates the objects of a tree, children first, and answers the value
    that stands for it. *)
Fixpoint load (v : value) : M hvalue :=
  match v with
  | VNone => ret HNone
  | VBool b => ret (HBool b)
  | VInt n => ret (HInt n)
  | VFloat f => ret (HFloat f)
  | VStr s => ret (HStr s)
  | VList l =>
      hl <~ (fix load_list (l : list value) : M (list hvalue) :=
               match l with
               | [] => ret []
               | x :: l' =>
                   y <~ load x ;; ys <~ load_list l' ;; ret (y :: ys)
               end) l ;;
      alloc (OList hl)
  | VDict d =>
      hd <~ (fix load_dict (d : dict) : M hdict :=
               match d with
               | [] => ret []
               | (k, x) :: d' =>
                   y <~ load x ;; ys <~ load_dict d' ;; ret ((k, y) :: ys)
               end) d ;;
      alloc (ODict hd)
  end.

End Heap.

(** ** The notions the properties are stated with *)

(** The event numbers in the order of the emitted [events] list. *)
Definition event_numbers (events : dict) : list string :=
  List.map fst (_sorted_events events).

(** [x] is not after [y] in the order of [sorted]: the key of [y] is not
    below the key of [x]. *)
Definition key_le {A K : Type} (key : A -> K) (lt : K -> K -> bool)
  (x y : A) : Prop :=
  lt (key y) (key x) = false.

(** The bindings that [_drop_none] keeps. *)
Definition kept (d : dict) : dict :=
  List.filter (fun kv => negb (dropped (snd kv))) d.

(** The keys of a dictionary display are pairwise distinct. *)
Fixpoint distinct (ks : list string) : bool :=
  match ks with
  | [] => true
  | k :: ks' => negb (existsb (String.eqb k) ks') && distinct ks'
  end.

(** The body of the loop of [_drop_none]. *)
Definition drop_step (result : dict) (kv : string * value) : dict :=
  if dropped (snd kv) then result else setitem (fst kv) (snd kv) result.

(** A decimal digit ["0"] to ["9"], and the number that a string of decimal
    digits writes. *)
Definition is_decimal (c : ascii) : bool :=
  let n := N_of_ascii c in ((48 <=? n) && (n <=? 57))%N.

Fixpoint decimal_from (acc : Z) (s : string) : Z :=
  match s with
  | EmptyString => acc
  | String c s' => decimal_from (acc * 10 + (Z.of_N (N_of_ascii c) - 48)) s'
  end.

Definition decimal_value (s : string) : Z := decimal_from 0 s.

(** The superscript digit two, a string for which [str.isdigit] holds and
    that [int] rejects. *)
Definition superscript_two : string := String (ascii_of_nat 178) EmptyString.



(** The string of [n] characters [c]. *)
Fixpoint copies (n : nat) (c : ascii) : string :=
  match n with
  | O => EmptyString
  | S n' => String c (copies n' c)
  end.





(** ** Notions for the store *)

(** A reference to an object that is none of the first [n] objects. *)
Definition above (n : nat) (v : Heap.hvalue) : Prop :=
  match v with
  | Heap.HRef a => (n <= a)%nat
  | _ => False
  end.

(** [m], run on a store of at least [n] objects, leaves the first [n] as
    they are, removes no object and, when it returns, returns a value for
    which [Q] holds. *)
Definition safe {A : Type} (n : nat) (m : Heap.M A) (Q : A -> Prop) : Prop :=
  forall h : Heap.heap,
    (n <= length h)%nat ->
    take n (snd (m h)) = take n h /\
    (length h <= length (snd (m h)))%nat /\
    forall a, fst (m h) = Heap.Done a -> Q a.

(** The value [v] stands in the store [h] for the tree [pv]: a scalar for
    itself, a reference for the list or the mapping whose object it names,
    item by item.  [P] bounds the addresses of the objects that are read on
    the way. *)
Fixpoint repr_in (P : nat -> Prop) (h : Heap.heap) (v : Heap.hvalue)
  (pv : value) {struct pv} : Prop :=
  match pv with
  | VNone => v = Heap.HNone
  | VBool b => v = Heap.HBool b
  | VInt n => v = Heap.HInt n
  | VFloat f => v = Heap.HFloat f
  | VStr s => v = Heap.HStr s
  | VList l =>
      exists a hl,
        v = Heap.HRef a /\ P a /\ h !! a = Some (Heap.OList hl) /\
        (fix items (hl : list Heap.hvalue) (l : list value) {struct l} : Prop :=
           match hl, l with
           | [], [] => True
           | y :: hl', x :: l' => repr_in P h y x /\ items hl' l'
           | _, _ => False
           end) hl l
  | VDict d =>
      exists a hd,
        v = Heap.HRef a /\ P a /\ h !! a = Some (Heap.ODict hd) /\
        (fix items (hd : Heap.hdict) (d : dict) {struct d} : Prop :=
           match hd, d with
           | [], [] => True
           | (k', y) :: hd', (k, x) :: d' =>
               k' = k /\ repr_in P h y x /\ items hd' d'
           | _, _ => False
           end) hd d
  end.

(** The same with no bound on the addresses. *)
Definition repr (h : Heap.heap) (v : Heap.hvalue) (pv : value) : Prop :=
  repr_in (fun _ => True) h v pv.

(** The items of a list object, and the bindings of a mapping object, stand
    for those of a tree. *)
Definition reprs (P : nat -> Prop) (h : Heap.heap)
  (hl : list Heap.hvalue) (l : list value) : Prop :=
  Forall2 (repr_in P h) hl l.

Definition fields (P : nat -> Prop) (h : Heap.heap)
  (hd : Heap.hdict) (d : dict) : Prop :=
  Forall2 (fun x y => fst x = fst y /\ repr_in P h (snd x) (snd y)) hd d.

(** [P] holds of every address that is free in [h]. *)
Definition up (P : nat -> Prop) (h : Heap.heap) : Prop :=
  forall a, (length h <= a)%nat -> P a.

(** An outcome of the code over the store and a result of the code over
    trees agree: both return, and the values are related, or both raise the
    same exception. *)
Definition orel {A B : Type} (R : A -> B -> Prop)
  (o : Heap.outcome A) (r : result B) : Prop :=
  match o, r with
  | Heap.Done a, Ok b => R a b
  | Heap.Exc e, Raise e' => e = e'
  | _, _ => False
  end.

(** Run on [h], [m] extends the store and agrees with [r]. *)
Definition fsim {A B : Type} (R : Heap.heap -> A -> B -> Prop)
  (h : Heap.heap) (m : Heap.M A) (r : result B) : Prop :=
  h `prefix_of` snd (m h) /\ orel (R (snd (m h))) (fst (m h)) r.

(** The same on every store that extends [h]. *)
Definition ssim {A B : Type} (R : Heap.heap -> A -> B -> Prop)
  (h : Heap.heap) (m : Heap.M A) (r : result B) : Prop :=
  forall h1, h `prefix_of` h1 -> fsim R h1 m r.

(** The results of the fields of a display, from left to right. *)
Fixpoint field_results (fs : list (string * result value)) : result dict :=
  match fs with
  | [] => Ok []
  | (k, r) :: fs' =>
      v <- r ;; d <- field_results fs' ;; Ok ((k, v) :: d)
  end.

(** The pairs that a loop over the items of a mapping runs over. *)
Definition pair_repr (P : nat -> Prop) (g : Heap.heap)
  (x : string * Heap.hvalue) (px : string * value) : Prop :=
  fst x = fst px /\ repr_in P g (snd x) (snd px).

(** Two runs end alike: both return, and the values returned stand in
    their stores for one and the same tree, or both raise the same
    exception. *)
Definition same_outcome (r1 r2 : Heap.outcome Heap.hvalue * Heap.heap)
  : Prop :=
  match fst r1, fst r2 with
  | Heap.Done v1, Heap.Done v2 =>
      exists out, repr (snd r1) v1 out /\ repr (snd r2) v2 out
  | Heap.Exc e1, Heap.Exc e2 => e1 = e2
  | _, _ => False
  end.

(** The scenario loaded in an empty store, and in a store that holds two
    objects already. *)
Definition scenario_alone : Heap.outcome Heap.hvalue * Heap.heap :=
  Heap.load (VDict scenario) [].

Definition scenario_later : Heap.outcome Heap.hvalue * Heap.heap :=
  Heap.load (VDict scenario) [Heap.OList []; Heap.ODict []].

Definition root_of (r : Heap.outcome Heap.hvalue * Heap.heap)
  : Heap.hvalue :=
  match fst r with
  | Heap.Done v => v
  | _ => Heap.HNone
  end.

(** ** [_value_serializer] *)

(** The values of the attributes that [attrs.asdict] hands to the
    serializer: a date, a datetime (a date as well, for [isinstance]), a
    member of an enumeration, a string, or an object of another kind.  The
    texts that [isoformat] writes are those of the two classes. *)
Section ValueSerializer.
Context {date datetime other : Type}.
Variable date_isoformat : date -> string.
Variable datetime_isoformat : datetime -> string.

Inductive attribute : Type :=
| ADate (d : date)
| ADateTime (dt : datetime)
| AEnum (name : string) (member : other)
| AStr (s : string)
| AOther (o : other).

Definition _value_serializer {I F : Type} (inst : I) (field : F)
  (value : attribute) : attribute :=
  match value with
  | ADate d => AStr (date_isoformat d)
  | ADateTime dt => AStr (datetime_isoformat dt)
  | AEnum name _ => AStr name
  | _ => value
  end.

(** Neither a date nor a member of an enumeration. *)
Definition is_plain (value : attribute) : bool :=
  match value with
  | AStr _ | AOther _ => true
  | _ => false
  end.
End ValueSerializer.

Arguments attribute : clear implicits.

(** ** The path of the output file ([main], lines 252-257) *)

Module PyPath.

(** [s.rfind(c)]: the index of the last [c] of [s], or -1. *)
Fixpoint rfind_from (c : ascii) (s : string) (i last : Z) : Z :=
  match s with
  | EmptyString => last
  | String c' s' =>
      rfind_from c s' (i + 1) (if Ascii.eqb c' c then i else last)
  end.

Definition rfind (c : ascii) (s : string) : Z := rfind_from c s 0 (-1).

(** [p[:i]] and [p[i:]], for an index [i] from 0 to the length of [p]. *)
Definition upto (p : string) (i : Z) : string :=
  substring 0 (Z.to_nat i) p.

Definition from (p : string) (i : Z) : string :=
  substring (Z.to_nat i) (String.length p - Z.to_nat i) p.

(** The loop of [genericpath._splitext]: one of the [n] characters from
    index [i] on is not the dot. *)
Fixpoint names_a_file (p : string) (i n : nat) : bool :=
  match n with
  | O => false
  | S n' =>
      match String.get i p with
      | Some c =>
          if Ascii.eqb c "." then names_a_file p (S i) n' else true
      | None => true
      end
  end.

(** [os.path.splitext(p)] of [posixpath]: the extension starts at the last
    dot of the last component, the leading dots of the component apart. *)
Definition splitext (p : string) : string * string :=
  let sepIndex := rfind "/" p in
  let dotIndex := rfind "." p in
  if (sepIndex <? dotIndex)
     && names_a_file p (Z.to_nat (sepIndex + 1))
          (Z.to_nat (dotIndex - (sepIndex + 1)))
  then (upto p dotIndex, from p dotIndex)
  else (p, "").

End PyPath.

(** The arguments of the command line that decide the path: [input], and
    [--output], whose default is [None]. *)
Section OutputPath.
Variable abspath : string -> string.

Definition output_path (input : string) (output : option string) : string :=
  let input_path := abspath input in
  match output with
  | Some (String c o) => abspath (String c o)
  | _ => fst (PyPath.splitext input_path) ++ ".json"
  end.
End OutputPath.

(** [c] occurs in [s]. *)
Fixpoint occurs (c : ascii) (s : string) : bool :=
  match s with
  | EmptyString => false
  | String c' s' => Ascii.eqb c' c || occurs c s'
  end.

(** ** The shape of the trees of the parser *)

Definition is_mapping (v : value) : bool :=
  match v with
  | VDict _ => true
  | _ => false
  end.

(** The field [name] of [d] is absent, [None], or a mapping each of whose
    items passes [check]. *)
Definition mapping_field (check : string -> value -> bool) (d : dict)
  (name : string) : bool :=
  match find name d with
  | None | Some VNone => true
  | Some (VDict m) => forallb (fun kv => check (fst kv) (snd kv)) m
  | Some _ => false
  end.

(** The same for a list. *)
Definition list_field (check : value -> bool) (d : dict) (name : string)
  : bool :=
  match find name d with
  | None | Some VNone => true
  | Some (VList l) => forallb check l
  | Some _ => false
  end.

(** The disqualification detail of a phase is absent, [None] or a
    mapping. *)
Definition dq_field (entry : dict) (prefix : string) : bool :=
  match find (String.append prefix "_dq_info") entry with
  | None | Some VNone | Some (VDict _) => true
  | Some _ => false
  end.

Definition entry_shaped (e : value) : bool :=
  match e with
  | VDict entry =>
      list_field is_mapping entry "swimmers"
      && dq_field entry "prelim"
      && dq_field entry "swimoff"
      && dq_field entry "finals"
  | _ => false
  end.

Definition event_shaped (number : string) (event : value) : bool :=
  match event with
  | VDict e => list_field entry_shaped e "entries"
  | _ => false
  end.

(** A key of ASCII characters, short enough for [int]. *)
Definition plain_key (k : string) : bool :=
  PyStr.all_chars (fun c => (N_of_ascii c <? 128)%N) k
  && (String.length k <=? 4300)%nat.

Definition swimmer_shaped (meet_id : string) (swimmer : value) : bool :=
  is_mapping swimmer && plain_key meet_id.

Definition team_shaped (code : string) (team : value) : bool :=
  is_mapping team.

Definition well_shaped (parsed : dict) : bool :=
  match find "meet" parsed with
  | None => true
  | Some (VDict meet) =>
      mapping_field team_shaped meet "teams"
      && mapping_field swimmer_shaped meet "swimmers"
      && mapping_field event_shaped meet "events"
  | Some _ => false
  end.

(** The [number] of an emitted event record. *)
Definition number_of (e : value) : value :=
  match e with
  | VDict out => get out "number"
  | _ => VNone
  end.

(** The keys of the records of the document, in the order of the displays
    that build them. *)
Definition file_keys : list string :=
  ["description"; "software"; "date_created"; "licensee"].

Definition meet_keys : list string :=
  ["name"; "facility"; "start_date"; "end_date"; "altitude"; "country";
   "masters"; "type"; "course"; "teams"; "swimmers"; "events"].

Definition event_keys : list string :=
  ["number"; "distance"; "stroke"; "course"; "date"; "fee"; "gender";
   "gender_age"; "age_min"; "age_max"; "open"; "relay"; "relay_team_id";
   "relay_swim_team_code"; "entries"].

Definition entry_keys : list string :=
  ["swimmers"; "relay"; "seed"; "prelim"; "swimoff"; "finals";
   "event_number"].

Definition leg_keys : list string :=
  ["time"; "course"; "time_code"; "dq"; "heat"; "lane"; "heat_place";
   "overall_place"; "date"; "splits"].

Definition seed_keys : list string :=
  ["time"; "course"; "converted_time"; "converted_course"].

(** Two documents agree on the fields that the conversion reads. *)
Definition same_fields_read (p q : dict) : Prop :=
  forall k,
    In k ["file_description"; "software"; "date_created"; "licensee";
          "meet"] ->
    find k p = find k q.

(** A value that [dict] does not accept: [None], a Boolean, a number or a
    string that is not empty. *)
Definition not_a_record (v : value) : bool :=
  match v with
  | VNone | VBool _ | VInt _ | VFloat _ => true
  | VStr EmptyString => false
  | VStr _ => true
  | _ => false
  end.

(** The document that the conversion makes of the scenario. *)
Definition scenario_document : dict :=
  [("file", VDict []);
   ("meet", VDict
      [("teams", VList [VDict [("name", VStr "Acme Club");
                               ("code", VStr "ABC")]]);
       ("swimmers", VList [VDict [("first_name", VStr "Jo");
                                  ("meet_id", VInt 7)]]);
       ("events", VList
          [VDict [("number", VStr "1");
                  ("distance", VInt 50);
                  ("relay", VBool false);
                  ("entries", VList
                     [VDict [("swimmers", VList [VInt 7]);
                             ("relay", VBool false);
                             ("finals", VDict [("time", VStr "25.31");
                                               ("course", VStr "SCY")])]])]])])].

(** [dict(l)] for a list [l] of key/value pairs: the pairs are assigned in
    turn. *)
Definition dict_of_pairs (l : list (string * value)) : dict :=
  fold_left (fun d kv => setitem (fst kv) (snd kv) d) l [].

(** * The definitions on concrete inputs *)


Example int_plain : PyStr.py_int "42" = Some 42.
Proof. reflexivity. Qed.

Example int_leading_zero : PyStr.py_int "01" = Some 1.
Proof. reflexivity. Qed.

Example int_signed_spaced : PyStr.py_int " -1_000 " = Some (-1000).
Proof. reflexivity. Qed.

Example int_rejects_letters : PyStr.py_int "TT" = None.
Proof. reflexivity. Qed.

Example int_rejects_empty : PyStr.py_int "" = None.
Proof. reflexivity. Qed.

Example int_rejects_double_underscore : PyStr.py_int "1__0" = None.
Proof. reflexivity. Qed.

Example int_accepts_4300_digits :
  PyStr.py_int (copies 4300 "1") = Some (decimal_value (copies 4300 "1")).
Proof. vm_compute. reflexivity. Qed.

Example int_rejects_4301_digits : PyStr.py_int (copies 4301 "1") = None.
Proof. vm_compute. reflexivity. Qed.

Example int_rejects_4301_zeros : PyStr.py_int (copies 4301 "0") = None.
Proof. vm_compute. reflexivity. Qed.

Example sorted_numeric :
  List.map fst (_sorted_events [("2", VNone); ("10", VNone); ("1", VNone)])
  = ["1"; "2"; "10"].
Proof. reflexivity. Qed.

Example sorted_mixed :
  List.map fst (_sorted_events [("3", VNone); ("TT", VNone); ("1", VNone)])
  = ["1"; "3"; "TT"].
Proof. reflexivity. Qed.

Example sorted_forms :
  List.map fst
    (_sorted_events [("TT", VNone); ("2000000000", VNone); ("3", VNone);
                     ("1", VNone); ("01", VNone); ("", VNone);
                     ("1000000000", VNone)])
  = ["01"; "1"; "3"; ""; "1000000000"; "TT"; "2000000000"].
Proof. reflexivity. Qed.

Example sorted_long_digits :
  List.map fst (_sorted_events [("TT", VNone); (copies 4301 "1", VNone)])
  = [copies 4301 "1"; "TT"].
Proof. vm_compute. reflexivity. Qed.

Example scenario_output :
  _post_process scenario
  = Ok [("file", VDict []);
        ("meet", VDict
           [("teams", VList [VDict [("name", VStr "Acme Club");
                                    ("code", VStr "ABC")]]);
            ("swimmers", VList [VDict [("first_name", VStr "Jo");
                                       ("meet_id", VInt 7)]]);
            ("events", VList
               [VDict [("number", VStr "1");
                       ("distance", VInt 50);
                       ("relay", VBool false);
                       ("entries", VList
                          [VDict [("swimmers", VList [VInt 7]);
                                  ("relay", VBool false);
                                  ("finals", VDict [("time", VStr "25.31");
                                                    ("course", VStr "SCY")])]])]])])].
Proof. reflexivity. Qed.

Example splitext_forms :
  List.map PyPath.splitext
    ["a.hy3"; "/x/y/a.hy3"; "a"; "/x.y/a"; ".hy3"; "/x/.hy3"; "..hy3"; "...";
     "a.b.c"; "a."; "/x/a."; "x/.a.b"; ""; "/"; "."; ".."; "a/."; "a/..";
     "a..b"; "/a.b/"; "/a.b/.c.d"; "a.json"; "./a.json"; "a/b.c/d";
     "....a.b"; "a.b/c.d/"]
  = [("a", ".hy3"); ("/x/y/a", ".hy3"); ("a", ""); ("/x.y/a", "");
     (".hy3", ""); ("/x/.hy3", ""); ("..hy3", ""); ("...", "");
     ("a.b", ".c"); ("a", "."); ("/x/a", "."); ("x/.a", ".b"); ("", "");
     ("/", ""); (".", ""); ("..", ""); ("a/.", ""); ("a/..", "");
     ("a.", ".b"); ("/a.b/", ""); ("/a.b/.c", ".d"); ("a", ".json");
     ("./a", ".json"); ("a/b.c/d", ""); ("....a", ".b"); ("a.b/c.d/", "")].
Proof. reflexivity. Qed.

(** * Properties *)

(** ** The order of strings and of sort keys *)

Lemma ascii_compare_lt_trans (a b c : ascii) :
  Ascii.compare a b = Lt -> Ascii.compare b c = Lt -> Ascii.compare a c = Lt.
Proof.
  unfold Ascii.compare. rewrite !N.compare_lt_iff. lia.
Qed.

Lemma ascii_compare_refl (a : ascii) : Ascii.compare a a = Eq.
Proof. unfold Ascii.compare. apply N.compare_refl. Qed.

Lemma string_compare_refl (s : string) : String.compare s s = Eq.
Proof.
  induction s as [|c s IH]; simpl; [reflexivity|].
  now rewrite ascii_compare_refl.
Qed.

Lemma string_compare_lt_trans (s t u : string) :
  String.compare s t = Lt -> String.compare t u = Lt -> String.compare s u = Lt.
Proof.
  revert t u. induction s as [|a s IH]; intros [|b t] [|c u]; simpl;
    try discriminate; try reflexivity.
  destruct (Ascii.compare a b) eqn:Hab; try discriminate;
    destruct (Ascii.compare b c) eqn:Hbc; try discriminate; intros Hst Htu.
  - apply Ascii.compare_eq_iff in Hab, Hbc. subst.
    rewrite ascii_compare_refl. eauto.
  - apply Ascii.compare_eq_iff in Hab. subst. now rewrite Hbc.
  - apply Ascii.compare_eq_iff in Hbc. subst. now rewrite Hab.
  - now rewrite (ascii_compare_lt_trans a b c).
Qed.

Lemma string_ltb_irrefl (s : string) : String.ltb s s = false.
Proof. unfold String.ltb. now rewrite string_compare_refl. Qed.

Lemma string_ltb_trans (s t u : string) :
  String.ltb s t = true -> String.ltb t u = true -> String.ltb s u = true.
Proof.
  unfold String.ltb.
  destruct (String.compare s t) eqn:Hst; try discriminate.
  destruct (String.compare t u) eqn:Htu; try discriminate.
  now rewrite (string_compare_lt_trans s t u).
Qed.

Lemma string_ltb_total (s t : string) :
  String.ltb s t = false -> String.ltb t s = false -> s = t.
Proof.
  unfold String.ltb. rewrite (String.compare_antisym t s).
  destruct (String.compare s t) eqn:Hst; simpl; try discriminate.
  intros _ _. now apply String.compare_eq_iff.
Qed.

Lemma string_ltb_asym (s t : string) :
  String.ltb s t = true -> String.ltb t s = false.
Proof.
  unfold String.ltb. rewrite (String.compare_antisym t s).
  now destruct (String.compare s t).
Qed.

Lemma string_leb_ltb (s t : string) : String.leb s t = negb (String.ltb t s).
Proof.
  unfold String.leb, String.ltb. rewrite (String.compare_antisym t s).
  now destruct (String.compare s t).
Qed.

(** [tuple_lt] read as a proposition. *)
Lemma tuple_lt_spec (a b : Z * string) :
  tuple_lt a b = true <->
  fst a < fst b \/ (fst a = fst b /\ String.ltb (snd a) (snd b) = true).
Proof.
  unfold tuple_lt.
  destruct (Z.eqb_spec (fst a) (fst b)) as [E|E]; simpl.
  - destruct (String.eqb_spec (snd a) (snd b)) as [F|F]; simpl.
    + rewrite F, string_ltb_irrefl. split; [discriminate|]. intros [?|[_ ?]]; [lia|easy].
    + split; [now right|]. intros [?|[_ ?]]; [lia|easy].
  - rewrite Z.ltb_lt. split; [now left|]. intros [?|[? _]]; [easy|lia].
Qed.

Lemma tuple_lt_false (a b : Z * string) :
  tuple_lt b a = false <->
  fst a < fst b \/ (fst a = fst b /\ String.ltb (snd b) (snd a) = false).
Proof.
  rewrite <- Bool.not_true_iff_false, tuple_lt_spec.
  destruct (Z.lt_trichotomy (fst a) (fst b)) as [L|[E|G]];
    destruct (String.ltb (snd b) (snd a));
    intuition (try lia; try congruence).
Qed.

Lemma tuple_lt_asym (a b : Z * string) :
  tuple_lt a b = true -> tuple_lt b a = false.
Proof.
  rewrite tuple_lt_spec, tuple_lt_false.
  intros [?|[? ?]]; [now left|right]. split; [easy|now apply string_ltb_asym].
Qed.

Lemma tuple_le_trans (a b c : Z * string) :
  tuple_lt b a = false -> tuple_lt c b = false -> tuple_lt c a = false.
Proof.
  rewrite !tuple_lt_false.
  intros [?|[E1 H1]] [?|[E2 H2]]; try (left; lia).
  right. split; [lia|].
  destruct (String.ltb (snd c) (snd a)) eqn:Hca; [|reflexivity].
  destruct (String.ltb (snd b) (snd c)) eqn:Hbc.
  - now rewrite (string_ltb_trans _ _ _ Hbc Hca) in H1.
  - rewrite (string_ltb_total _ _ H2 Hbc) in Hca. now rewrite Hca in H1.
Qed.

(** ** [sorted]: the result is ordered and is a permutation of the input *)

Section SortedFacts.
Context {A K : Type} (key : A -> K) (lt : K -> K -> bool).
Hypothesis lt_asym : forall a b, lt a b = true -> lt b a = false.
Hypothesis le_trans :
  forall a b c, lt b a = false -> lt c b = false -> lt c a = false.

Lemma insert_sorted_perm (x : A) (l : list A) :
  Permutation (insert_sorted key lt x l) (x :: l).
Proof.
  induction l as [|y l IH]; simpl; [reflexivity|].
  destruct (lt (key y) (key x)); [|reflexivity].
  rewrite IH. apply perm_swap.
Qed.

Lemma py_sorted_perm (l : list A) : Permutation (py_sorted key lt l) l.
Proof.
  induction l as [|x l IH]; simpl; [reflexivity|].
  rewrite insert_sorted_perm. now constructor.
Qed.

Lemma insert_sorted_sorted (x : A) (l : list A) :
  StronglySorted (key_le key lt) l ->
  StronglySorted (key_le key lt) (insert_sorted key lt x l).
Proof.
  induction 1 as [|y l Hs IH Hy]; simpl.
  - repeat constructor.
  - destruct (lt (key y) (key x)) eqn:Hyx.
    + constructor; [exact IH|].
      rewrite List.Forall_forall. intros z Hz.
      apply (Permutation_in _ (insert_sorted_perm x l)) in Hz.
      destruct Hz as [<-|Hz]; [now apply lt_asym|].
      rewrite List.Forall_forall in Hy. now apply Hy.
    + constructor; [now constructor|].
      constructor; [exact Hyx|].
      rewrite List.Forall_forall in Hy |- *. intros z Hz.
      exact (le_trans _ _ _ Hyx (Hy z Hz)).
Qed.

Lemma py_sorted_sorted (l : list A) :
  StronglySorted (key_le key lt) (py_sorted key lt l).
Proof.
  induction l as [|x l IH]; simpl; [constructor|].
  now apply insert_sorted_sorted.
Qed.
End SortedFacts.

Lemma StronglySorted_lookup {A : Type} (R : A -> A -> Prop) (l : list A) :
  StronglySorted R l ->
  forall (i j : nat) (a b : A),
    (i < j)%nat -> l !! i = Some a -> l !! j = Some b -> R a b.
Proof.
  induction 1 as [|x l Hs IH Hx]; intros i j a b Hij Hi Hj.
  - destruct i; discriminate.
  - destruct j as [|j]; [lia|]. destruct i as [|i]; simpl in *.
    + injection Hi as <-. rewrite List.Forall_forall in Hx. apply Hx.
      apply list_elem_of_In. eapply list_elem_of_lookup_2. exact Hj.
    + apply (IH i j); [lia|assumption..].
Qed.

(** ** The order of the events *)

Lemma lookup_map {A B : Type} (f : A -> B) (l : list A) (i : nat) :
  List.map f l !! i = option_map f (l !! i).
Proof.
  revert i. induction l as [|x l IH]; intros [|i]; simpl; auto.
Qed.

Lemma event_key_le (a b : string * value) :
  key_le _event_key tuple_lt a b ->
  match PyStr.py_int (fst a), PyStr.py_int (fst b) with
  | Some x, Some y => x < y \/ (x = y /\ String.leb (fst a) (fst b) = true)
  | Some x, None =>
      x < 10 ^ 9 \/ (x = 10 ^ 9 /\ String.leb (fst a) (fst b) = true)
  | None, Some y =>
      10 ^ 9 < y \/ (y = 10 ^ 9 /\ String.leb (fst a) (fst b) = true)
  | None, None => String.leb (fst a) (fst b) = true
  end.
Proof.
  unfold key_le, _event_key. rewrite tuple_lt_false, string_leb_ltb.
  destruct (PyStr.py_int (fst a)), (PyStr.py_int (fst b)); simpl;
    intros [?|[? ->]]; auto; lia.
Qed.

(** C1, amended.  The event numbers of the emitted list are those of the
    mapping, and of two numbers the earlier one [a] and the later one [b]
    compare as follows.  Both parse as integers: the value of [a] is below
    that of [b], or the values are equal and [a <= b] as strings.  Neither
    parses: [a <= b] as strings.  One parses and the other does not: the one
    that does not parse counts as the integer 10^9, so a number whose value is
    below 10^9 is before every identifier that does not parse, one whose
    value is above 10^9 is after all of them, and a value of exactly 10^9 is
    placed by the comparison of the strings.  A number of more than 4300
    digits does not parse: [int] rejects it. *)
Theorem sorted_events_order (events : dict) :
  Permutation (event_numbers events) (List.map fst events) /\
  forall (i j : nat) (a b : string),
    (i < j)%nat ->
    event_numbers events !! i = Some a ->
    event_numbers events !! j = Some b ->
    match PyStr.py_int a, PyStr.py_int b with
    | Some x, Some y => x < y \/ (x = y /\ String.leb a b = true)
    | Some x, None => x < 10 ^ 9 \/ (x = 10 ^ 9 /\ String.leb a b = true)
    | None, Some y => 10 ^ 9 < y \/ (y = 10 ^ 9 /\ String.leb a b = true)
    | None, None => String.leb a b = true
    end.
Proof.
  unfold event_numbers, _sorted_events. split.
  - apply Permutation_map, py_sorted_perm.
  - intros i j a b Hij Hi Hj. rewrite lookup_map in Hi, Hj.
    destruct (py_sorted _event_key tuple_lt events !! i) as [kva|] eqn:Ea;
      [|discriminate].
    destruct (py_sorted _event_key tuple_lt events !! j) as [kvb|] eqn:Eb;
      [|discriminate].
    injection Hi as <-. injection Hj as <-.
    apply event_key_le.
    eapply (StronglySorted_lookup _ _
              (py_sorted_sorted _event_key tuple_lt tuple_lt_asym
                                tuple_le_trans events)); eauto.
Qed.

Lemma sorted_events_order_witness :
  match PyStr.py_int "3", PyStr.py_int "TT" with
  | Some x, Some y => x < y \/ (x = y /\ String.leb "3" "TT" = true)
  | Some x, None => x < 10 ^ 9 \/ (x = 10 ^ 9 /\ String.leb "3" "TT" = true)
  | None, Some y => 10 ^ 9 < y \/ (y = 10 ^ 9 /\ String.leb "3" "TT" = true)
  | None, None => String.leb "3" "TT" = true
  end.
Proof.
  apply (proj2 (sorted_events_order
                  [("3", VNone); ("TT", VNone); ("1", VNone)]) 1%nat 2%nat);
    [lia | reflexivity | reflexivity].
Defined.

(** C1 as stated fails: the event number 2000000000 parses as an integer and
    is emitted after TT, which does not. *)
Lemma numeric_after_symbolic :
  event_numbers [("2000000000", VNone); ("TT", VNone)]
  = ["TT"; "2000000000"]
  /\ PyStr.py_int "2000000000" = Some 2000000000
  /\ PyStr.py_int "TT" = None.
Proof. repeat split; reflexivity. Qed.

(** ** Dictionaries *)

Lemma NoDup_app_parts {A : Type} (l l' : list A) :
  List.NoDup (l ++ l')%list ->
  List.NoDup l /\ List.NoDup l' /\ forall a, In a l -> ~ In a l'.
Proof.
  induction l as [|x l IH]; simpl; intros Hnd.
  - repeat split; [constructor|assumption|tauto].
  - apply List.NoDup_cons_iff in Hnd as [Hx Hnd].
    destruct (IH Hnd) as (H1 & H2 & H3). repeat split; [|assumption|].
    + constructor; [|assumption]. intros Hin. apply Hx, in_or_app. now left.
    + intros a [<-|Ha]; [|now apply H3].
      intros Hin. apply Hx, in_or_app. now right.
Qed.

Section DictFacts.
Context {V : Type} `{PyNone V}.
Implicit Types (d : list (string * V)) (k : string) (v : V).

Lemma find_In d k v : find k d = Some v -> In (k, v) d.
Proof.
  induction d as [|[k' v'] d IH]; simpl; [discriminate|].
  destruct (String.eqb_spec k' k) as [->|_].
  - intros [= ->]. now left.
  - intros Hf. right. auto.
Qed.

Lemma find_None d k : find k d = None <-> ~ In k (List.map fst d).
Proof.
  induction d as [|[k' v'] d IH]; simpl; [tauto|].
  destruct (String.eqb_spec k' k) as [->|Hne]; [split; [discriminate|tauto]|].
  rewrite IH. tauto.
Qed.

Lemma In_find d k v :
  List.NoDup (List.map fst d) -> In (k, v) d -> find k d = Some v.
Proof.
  induction d as [|[k' v'] d IH]; simpl; [tauto|].
  intros Hnd [[= -> ->]|Hin].
  - now rewrite String.eqb_refl.
  - apply List.NoDup_cons_iff in Hnd as [Hk Hnd].
    destruct (String.eqb_spec k' k) as [->|_]; [|auto].
    exfalso. apply Hk. apply (in_map fst) in Hin. exact Hin.
Qed.

Lemma find_app d d' k :
  find k (d ++ d')%list
  = match find k d with Some v => Some v | None => find k d' end.
Proof.
  induction d as [|[k' v'] d IH]; simpl; [reflexivity|].
  now destruct (String.eqb k' k).
Qed.

Lemma find_setitem d k k' v :
  find k' (setitem k v d) = if String.eqb k k' then Some v else find k' d.
Proof.
  induction d as [|[k0 v0] d IH]; simpl; [reflexivity|].
  destruct (String.eqb_spec k0 k) as [->|Hne]; simpl.
  - now destruct (String.eqb k k').
  - rewrite IH. destruct (String.eqb_spec k0 k') as [->|_]; [|reflexivity].
    destruct (String.eqb_spec k k'); [congruence|reflexivity].
Qed.



Lemma setitem_new d k v :
  ~ In k (List.map fst d) -> setitem k v d = (d ++ [(k, v)])%list.
Proof.
  induction d as [|[k0 v0] d IH]; simpl; [reflexivity|].
  intros Hk. destruct (String.eqb_spec k0 k) as [->|_]; [tauto|].
  rewrite IH; tauto.
Qed.

Lemma keys_setitem_old d k v :
  In k (List.map fst d) -> List.map fst (setitem k v d) = List.map fst d.
Proof.
  induction d as [|[k0 v0] d IH]; simpl; [tauto|].
  destruct (String.eqb_spec k0 k) as [->|Hne]; simpl; [reflexivity|].
  intros [?|Hin]; [congruence|]. now rewrite IH.
Qed.

Lemma setitem_NoDup d k v :
  List.NoDup (List.map fst d) -> List.NoDup (List.map fst (setitem k v d)).
Proof.
  intros Hnd. destruct (in_dec String.string_dec k (List.map fst d)) as [Hin|Hnin].
  - now rewrite keys_setitem_old.
  - rewrite setitem_new, List.map_app by assumption. simpl.
    apply List.NoDup_app; [assumption|repeat constructor; simpl; tauto|].
    intros x Hx [<-|[]]. tauto.
Qed.

Lemma setitem_Forall (P : string * V -> Prop) d k v :
  P (k, v) -> List.Forall P d -> List.Forall P (setitem k v d).
Proof.
  intros Hkv. induction 1 as [|[k0 v0] d Hx Hd IH]; simpl.
  - now repeat constructor.
  - destruct (String.eqb k0 k); constructor; assumption.
Qed.

End DictFacts.

Lemma distinct_NoDup (ks : list string) : distinct ks = true -> List.NoDup ks.
Proof.
  induction ks as [|k ks IH]; simpl; [constructor|].
  rewrite andb_true_iff, negb_true_iff. intros [Hk Hd].
  apply List.NoDup_cons_iff. split; [|auto].
  intros Hin.
  assert (existsb (String.eqb k) ks = true); [|congruence].
  apply existsb_exists. exists k. split; [exact Hin|apply String.eqb_refl].
Qed.

(** ** [_drop_none] *)

Lemma dropped_spec (v : value) :
  dropped v = true <-> v = VNone \/ v = VDict [].
Proof.
  destruct v as [| | | | | |[|? ?]]; simpl; split;
    try discriminate; try tauto; intros [?|?]; discriminate.
Qed.

Lemma drop_loop_kept (d result : dict) :
  List.NoDup (List.map fst (result ++ d)%list) ->
  fold_left drop_step d result = (result ++ kept d)%list.
Proof.
  revert result. induction d as [|[k v] d IH]; intros result Hnd; simpl.
  - now rewrite List.app_nil_r.
  - unfold drop_step at 2. unfold kept. simpl.
    destruct (dropped v); simpl.
    + apply IH. rewrite List.map_app in Hnd |- *. simpl in Hnd.
      apply NoDup_app_parts in Hnd as (H1 & H2 & H3).
      apply List.NoDup_cons_iff in H2 as [_ H2].
      apply List.NoDup_app; [assumption..|].
      intros x Hx Hx'. apply (H3 x Hx). now right.
    + assert (Hk : ~ In k (List.map fst result)).
      { rewrite List.map_app in Hnd. apply NoDup_app_parts in Hnd as (_ & _ & H3).
        intros Hin. apply (H3 k Hin). now left. }
      rewrite setitem_new by assumption. rewrite IH.
      * now rewrite <- List.app_assoc.
      * now rewrite <- List.app_assoc.
Qed.

Lemma _drop_none_kept (d : dict) :
  List.NoDup (List.map fst d) -> _drop_none d = kept d.
Proof. intros Hnd. apply (drop_loop_kept d []). exact Hnd. Qed.

Lemma drop_loop_invariant (d result : dict) :
  List.NoDup (List.map fst result) ->
  List.Forall (fun kv => dropped (snd kv) = false) result ->
  List.NoDup (List.map fst (fold_left drop_step d result)) /\
  List.Forall (fun kv => dropped (snd kv) = false) (fold_left drop_step d result).
Proof.
  revert result. induction d as [|[k v] d IH]; intros result Hnd Hall; simpl.
  - now split.
  - apply IH; unfold drop_step; simpl; destruct (dropped v) eqn:Hv; auto.
    + now apply setitem_NoDup.
    + now apply setitem_Forall.
Qed.

Lemma _drop_none_NoDup (d : dict) : List.NoDup (List.map fst (_drop_none d)).
Proof. apply (drop_loop_invariant d []); constructor. Qed.

Lemma _drop_none_clean (d : dict) :
  List.Forall (fun kv => dropped (snd kv) = false) (_drop_none d).
Proof. apply (drop_loop_invariant d []); constructor. Qed.

Lemma kept_clean (d : dict) :
  List.Forall (fun kv => dropped (snd kv) = false) d -> kept d = d.
Proof.
  induction 1 as [|[k v] d Hv Hd IH]; simpl; [reflexivity|].
  simpl in Hv. rewrite Hv. simpl. now rewrite IH.
Qed.

Lemma find_kept (d : dict) (k : string) :
  List.NoDup (List.map fst d) ->
  find k (kept d)
  = match find k d with
    | Some v => if dropped v then None else Some v
    | None => None
    end.
Proof.
  induction d as [|[k' v'] d IH]; simpl; [reflexivity|].
  intros Hnd. apply List.NoDup_cons_iff in Hnd as [Hk Hnd].
  destruct (dropped v') eqn:Hv; simpl.
  - rewrite IH by assumption.
    destruct (String.eqb_spec k' k) as [->|_]; [|reflexivity].
    apply find_None in Hk. now rewrite Hk, Hv.
  - destruct (String.eqb k' k); [now rewrite Hv|auto].
Qed.

(** C5.  Pruning is idempotent: a second pruning of a pruned record changes
    nothing. *)
Theorem _drop_none_idempotent (r : dict) :
  _drop_none (_drop_none r) = _drop_none r.
Proof.
  rewrite (_drop_none_kept (_drop_none r)) by apply _drop_none_NoDup.
  apply kept_clean, _drop_none_clean.
Qed.

(** ** The records of the reshaped document *)

Lemma find_drop_none (d : dict) (k : string) :
  List.NoDup (List.map fst d) ->
  find k (_drop_none d)
  = match find k d with
    | Some v => if dropped v then None else Some v
    | None => None
    end.
Proof. intros Hnd. rewrite _drop_none_kept by assumption. now apply find_kept. Qed.

Lemma find_drop_none_clean (d : dict) (k : string) (v : value) :
  find k (_drop_none d) = Some v -> dropped v = false.
Proof.
  intros Hf. apply find_In in Hf.
  pose proof (_drop_none_clean d) as Hc. rewrite List.Forall_forall in Hc.
  exact (Hc _ Hf).
Qed.


(** The keys of the displays of [_post_process] are pairwise distinct. *)
Ltac display_keys := apply distinct_NoDup; reflexivity.


Lemma event_candidate_keys (e_map : dict) (es : list value) :
  List.NoDup (List.map fst (event_candidate e_map es)).
Proof. display_keys. Qed.

Lemma meet_candidate_keys (meet : dict) (ts ss es : list value) :
  List.NoDup (List.map fst (meet_candidate meet ts ss es)).
Proof. display_keys. Qed.

Lemma file_section_keys (parsed : dict) :
  List.NoDup (List.map fst (file_section parsed)).
Proof. display_keys. Qed.

(** Inversion of a successful sequence of calls. *)
Ltac ok_inv H :=
  repeat match type of H with
    | bind ?m _ = Ok _ =>
        let E := fresh "E" in
        destruct m eqn:E; simpl in H; [|discriminate H]
    end.

Lemma py_or_dict_none (d : dict) :
  py_or (VDict d) VNone = match d with [] => VNone | _ => VDict d end.
Proof. now destruct d. Qed.

Lemma dq_of_shape (dq_info dq : value) :
  dq_of dq_info = Ok dq ->
  dq = VNone \/ exists d, dq = VDict (_drop_none d).
Proof.
  unfold dq_of. destruct (truthy dq_info); [|intros [= <-]; now left].
  intros H. ok_inv H. injection H as <-. right. eauto.
Qed.

Lemma build_leg_inv (entry : dict) (prefix : string) (r : value) :
  build_leg entry prefix = Ok r ->
  exists dq,
    dq_of (get entry (String.append prefix "_dq_info")) = Ok dq /\
    r = py_or (VDict (_drop_none (leg_candidate entry prefix dq))) VNone.
Proof.
  unfold build_leg. intros H. ok_inv H. injection H as <-. eauto.
Qed.

Lemma build_leg_shape (entry : dict) (prefix : string) (r : value) :
  build_leg entry prefix = Ok r ->
  r = VNone \/
  exists leg, r = VDict leg /\ leg <> [] /\
    forall k v, find k leg = Some v -> dropped v = false.
Proof.
  intros H. apply build_leg_inv in H as (dq & _ & ->).
  rewrite py_or_dict_none.
  destruct (_drop_none (leg_candidate entry prefix dq)) as [|kv leg] eqn:E;
    [now left|right].
  exists (kv :: leg). repeat split; [discriminate|].
  rewrite <- E. intros k v. apply find_drop_none_clean.
Qed.

Lemma build_leg_dropped (entry : dict) (prefix : string) (r : value) :
  build_leg entry prefix = Ok r -> r = VNone \/ dropped r = false.
Proof.
  intros H. apply build_leg_shape in H as [->|(leg & -> & Hne & _)]; [now left|].
  right. now destruct leg.
Qed.

(** ** Legs, seed and disqualification detail *)



Lemma entry_out_inv (entry : dict) (r : value) :
  entry_out (VDict entry) = Ok r ->
  exists ids prelim swimoff finals,
    swimmer_ids entry = Ok ids /\
    build_leg entry "prelim" = Ok prelim /\
    build_leg entry "swimoff" = Ok swimoff /\
    build_leg entry "finals" = Ok finals /\
    r = VDict (_drop_none
      [("swimmers", VList ids);
       ("relay", VBool (truthy (get_default entry "relay" (VBool false))));
       ("seed", py_or (VDict (seed_of entry)) VNone);
       ("prelim", prelim);
       ("swimoff", swimoff);
       ("finals", finals);
       ("event_number", get entry "event_number")]).
Proof.
  unfold entry_out. simpl. intros H. ok_inv H. injection H as <-.
  now repeat eexists.
Qed.






(** ** Entries, teams, swimmers and the two sections *)

Lemma map_result_Forall2 {A B : Type} (f : A -> result B) (l : list A)
  (l' : list B) :
  map_result f l = Ok l' -> Forall2 (fun a b => f a = Ok b) l l'.
Proof.
  revert l'. induction l as [|a l IH]; simpl; intros l' H.
  - injection H as <-. constructor.
  - ok_inv H. injection H as <-. constructor; auto.
Qed.

Lemma map_result_map {A B : Type} (f : A -> result B) (g : A -> B)
  (l : list A) :
  (forall a, In a l -> f a = Ok (g a)) -> map_result f l = Ok (List.map g l).
Proof.
  induction l as [|a l IH]; simpl; intros Hf; [reflexivity|].
  rewrite Hf by now left. simpl. rewrite IH; [reflexivity|].
  intros b Hb. apply Hf. now right.
Qed.

Lemma swimmer_ids_of_records (entry : dict) (recs : list dict) :
  find "swimmers" entry = Some (VList (List.map VDict recs)) ->
  swimmer_ids entry
  = Ok (List.map (fun r => get r "meet_id") recs).
Proof.
  intros Hf. unfold swimmer_ids, get_default. rewrite Hf.
  assert (Hor : py_or (VList (List.map VDict recs)) (VList [])
                = VList (List.map VDict recs)) by now destruct recs.
  rewrite Hor. simpl.
  rewrite (map_result_map _ (fun s => match s with
                                      | VDict r => get r "meet_id"
                                      | _ => VNone
                                      end)).
  - now rewrite List.map_map.
  - intros s Hs. apply in_map_iff in Hs as (r & <- & _). reflexivity.
Qed.

(** C6.  The [swimmers] field of an emitted entry is the sequence of the
    [meet_id] values of the entry's swimmer records, in the order and with
    the multiplicity of the source; and the entry is emitted whenever the
    disqualification detail of its three phases is well formed. *)
Theorem entry_swimmers_are_meet_ids (entry : dict) (recs : list dict) :
  find "swimmers" entry = Some (VList (List.map VDict recs)) ->
  (forall out,
     entry_out (VDict entry) = Ok (VDict out) ->
     find "swimmers" out
     = Some (VList (List.map (fun r => get r "meet_id") recs)))
  /\ ((forall prefix, In prefix ["prelim"; "swimoff"; "finals"] ->
         exists dq,
           dq_of (get entry (String.append prefix "_dq_info")) = Ok dq) ->
      exists out, entry_out (VDict entry) = Ok (VDict out)).
Proof.
  intros Hs. split.
  - intros out Hout.
    apply entry_out_inv in Hout as (ids & p & s & f & Hids & _ & _ & _ & [= ->]).
    rewrite (swimmer_ids_of_records entry recs Hs) in Hids.
    injection Hids as <-.
    now rewrite find_drop_none by display_keys.
  - intros Hdq. unfold entry_out. simpl.
    rewrite (swimmer_ids_of_records entry recs Hs). simpl.
    destruct (Hdq "prelim") as (d1 & H1); [simpl; tauto|].
    destruct (Hdq "swimoff") as (d2 & H2); [simpl; tauto|].
    destruct (Hdq "finals") as (d3 & H3); [simpl; tauto|].
    unfold build_leg. rewrite H1, H2, H3. simpl. eauto.
Qed.

Lemma entry_swimmers_are_meet_ids_witness :
  entry_out (VDict [("swimmers", VList [VDict [("meet_id", VInt 5)];
                                        VDict [("meet_id", VInt 12)]])])
  = Ok (VDict [("swimmers", VList [VInt 5; VInt 12]); ("relay", VBool false)])
  /\ find "swimmers"
       [("swimmers", VList [VInt 5; VInt 12]); ("relay", VBool false)]
     = Some (VList [VInt 5; VInt 12]).
Proof.
  split; [reflexivity|].
  apply (proj1 (entry_swimmers_are_meet_ids
                  [("swimmers", VList [VDict [("meet_id", VInt 5)];
                                       VDict [("meet_id", VInt 12)]])]
                  [[("meet_id", VInt 5)]; [("meet_id", VInt 12)]]
                  eq_refl)).
  reflexivity.
Defined.

(** ** The coercion of a swimmer key *)

Lemma digit_value_decimal (c : ascii) :
  is_decimal c = true ->
  PyStr.digit_value c = Some (Z.of_N (N_of_ascii c) - 48).
Proof. unfold PyStr.digit_value, is_decimal. now intros ->. Qed.

Lemma decimal_not_space (c : ascii) :
  is_decimal c = true -> PyStr.is_space c = false.
Proof.
  unfold is_decimal, PyStr.is_space. cbv zeta.
  rewrite andb_true_iff, !N.leb_le. intros [H1 H2].
  repeat rewrite orb_false_iff. rewrite andb_false_iff, !N.leb_gt, !N.eqb_neq.
  lia.
Qed.

Lemma decimal_not_sign (c : ascii) :
  is_decimal c = true -> Ascii.eqb c "-" = false /\ Ascii.eqb c "+" = false.
Proof.
  unfold is_decimal. cbv zeta. rewrite andb_true_iff, !N.leb_le. intros [H1 H2].
  split; apply Ascii.eqb_neq; intros ->; simpl in *; lia.
Qed.

Lemma int_digits_decimal (s : string) (acc : Z) :
  PyStr.all_chars is_decimal s = true ->
  PyStr.int_digits acc s = Some (decimal_from acc s).
Proof.
  revert acc. induction s as [|c s IH]; simpl; intros acc; [reflexivity|].
  rewrite andb_true_iff. intros [Hc Hs].
  rewrite (digit_value_decimal c Hc). now apply IH.
Qed.

Lemma digit_count_decimal (s : string) :
  PyStr.all_chars is_decimal s = true ->
  PyStr.digit_count s = Z.of_nat (String.length s).
Proof.
  induction s as [|c s IH]; [reflexivity|].
  cbn [PyStr.all_chars PyStr.digit_count String.length].
  rewrite andb_true_iff. intros [Hc Hs].
  rewrite (digit_value_decimal c Hc), (IH Hs). lia.
Qed.

Lemma py_int_decimal (s : string) :
  s <> EmptyString -> PyStr.all_chars is_decimal s = true ->
  (String.length s <= 4300)%nat ->
  PyStr.py_int s = Some (decimal_value s).
Proof.
  intros Hne Hd Hlen. unfold PyStr.py_int.
  rewrite (digit_count_decimal s Hd).
  destruct (Z.ltb_spec 4300 (Z.of_nat (String.length s))) as [Hgt|_]; [lia|].
  clear Hlen. revert Hne Hd.
  destruct s as [|c s]; [congruence|]. intros _. simpl.
  rewrite andb_true_iff. intros [Hc Hs].
  unfold PyStr.int_literal. simpl. rewrite (decimal_not_space c Hc).
  destruct (decimal_not_sign c Hc) as [-> ->].
  unfold PyStr.int_unsigned. rewrite (digit_value_decimal c Hc).
  rewrite (int_digits_decimal s _ Hs). unfold decimal_value. simpl.
  reflexivity.
Qed.

Lemma decimal_isdigit (s : string) :
  s <> EmptyString -> PyStr.all_chars is_decimal s = true ->
  PyStr.isdigit s = true.
Proof.
  intros Hne Hs. unfold PyStr.isdigit. destruct s as [|c s]; [congruence|].
  clear Hne. revert Hs. generalize (String c s). intros t.
  induction t as [|a t IH]; simpl; [reflexivity|].
  rewrite !andb_true_iff. intros [Ha Ht]. split; [|auto].
  unfold is_decimal in Ha. unfold PyStr.char_isdigit. cbv zeta in *.
  now rewrite Ha.
Qed.

(** The part of the coercion that holds: a key of decimal digits becomes the
    integer it writes, and a key for which [str.isdigit] fails stays as it
    is. *)
Lemma swimmer_out_meet_id (meet_id : string) (swimmer : dict) :
  (meet_id <> EmptyString ->
   PyStr.all_chars is_decimal meet_id = true ->
   (String.length meet_id <= 4300)%nat ->
   swimmer_out meet_id (VDict swimmer)
   = Ok (VDict (setitem "meet_id" (VInt (decimal_value meet_id)) swimmer)))
  /\ (PyStr.isdigit meet_id = false ->
      swimmer_out meet_id (VDict swimmer)
      = Ok (VDict (setitem "meet_id" (VStr meet_id) swimmer))).
Proof.
  unfold swimmer_out, coerce_meet_id. simpl. split.
  - intros Hne Hd Hlen. rewrite (decimal_isdigit _ Hne Hd).
    now rewrite (py_int_decimal _ Hne Hd Hlen).
  - now intros ->.
Qed.

Example swimmer_key_42 :
  swimmer_out "42" (VDict [("first_name", VStr "Jo")])
  = Ok (VDict [("first_name", VStr "Jo"); ("meet_id", VInt 42)]).
Proof. reflexivity. Qed.

Example swimmer_key_A7 :
  swimmer_out "A7" (VDict [("first_name", VStr "Jo")])
  = Ok (VDict [("first_name", VStr "Jo"); ("meet_id", VStr "A7")]).
Proof. reflexivity. Qed.

(** C7, where the code departs from it.  The key made of the superscript
    digit two is not a string of decimal digits, so the claim asks for the
    raw key; [str.isdigit] accepts it, [int] rejects it, and the conversion
    raises [ValueError] instead of emitting a swimmer. *)
Theorem superscript_key_raises :
  PyStr.isdigit superscript_two = true
  /\ PyStr.all_chars is_decimal superscript_two = false
  /\ PyStr.py_int superscript_two = None
  /\ swimmer_out superscript_two (VDict []) = Raise ValueError
  /\ _post_process
       [("meet", VDict [("swimmers", VDict [(superscript_two, VDict [])])])]
     = Raise ValueError.
Proof. repeat split; reflexivity. Qed.

(** ** The whole document *)

Lemma _post_process_inv (parsed out : dict) :
  _post_process parsed = Ok out ->
  exists meet teams teams_list swimmers swimmers_list events events_list,
    of_value (get_default parsed "meet" (VDict [])) = Ok meet /\
    mapping_of meet "teams" = Ok teams /\
    map_result (fun kv => team_out (fst kv) (snd kv)) teams = Ok teams_list /\
    mapping_of meet "swimmers" = Ok swimmers /\
    map_result (fun kv => swimmer_out (fst kv) (snd kv)) swimmers
    = Ok swimmers_list /\
    mapping_of meet "events" = Ok events /\
    map_result (fun kv => event_out (fst kv) (snd kv)) (_sorted_events events)
    = Ok events_list /\
    out = [("file", VDict (_drop_none (file_section parsed)));
           ("meet", VDict (_drop_none
              (meet_candidate meet teams_list swimmers_list events_list)))].
Proof.
  unfold _post_process. cbv zeta. intros H. ok_inv H. injection H as <-.
  do 7 eexists. repeat split; eassumption || reflexivity.
Qed.

Lemma find_meet_lists (meet : dict) (ts ss es : list value) :
  find "teams" (_drop_none (meet_candidate meet ts ss es)) = Some (VList ts)
  /\ find "swimmers" (_drop_none (meet_candidate meet ts ss es))
     = Some (VList ss)
  /\ find "events" (_drop_none (meet_candidate meet ts ss es))
     = Some (VList es).
Proof.
  rewrite !find_drop_none by apply meet_candidate_keys. now repeat split.
Qed.

Lemma team_out_inv (code : string) (team r : value) :
  team_out code team = Ok r ->
  exists team_map,
    of_value team = Ok team_map /\
    r = VDict (pop "swimmers" (setitem "code" (VStr code) team_map)).
Proof. unfold team_out. intros H. ok_inv H. injection H as <-. eauto. Qed.

Lemma swimmer_out_inv (meet_id : string) (swimmer r : value) :
  swimmer_out meet_id swimmer = Ok r ->
  exists swimmer_map id,
    of_value swimmer = Ok swimmer_map /\
    coerce_meet_id meet_id = Ok id /\
    r = VDict (setitem "meet_id" id swimmer_map).
Proof. unfold swimmer_out. intros H. ok_inv H. injection H as <-. eauto. Qed.




(** ** Records that prune to nothing, and empty lists *)

Lemma entry_out_shape (entry r : value) :
  entry_out entry = Ok r ->
  exists out, r = VDict out /\ out <> [] /\
    forall k v, find k out = Some v -> dropped v = false.
Proof.
  destruct entry as [| | | | | |entry]; try discriminate.
  intros H. apply entry_out_inv in H as (ids & p & s & f & _ & _ & _ & _ & ->).
  eexists. split; [reflexivity|]. split.
  - intros Hnil.
    assert (Hf : find "swimmers"
                   (_drop_none
                      [("swimmers", VList ids);
                       ("relay",
                        VBool (truthy (get_default entry "relay" (VBool false))));
                       ("seed", py_or (VDict (seed_of entry)) VNone);
                       ("prelim", p); ("swimoff", s); ("finals", f);
                       ("event_number", get entry "event_number")])
                 = Some (VList ids))
      by now rewrite find_drop_none by display_keys.
    rewrite Hnil in Hf. discriminate.
  - intros k v. apply find_drop_none_clean.
Qed.

Lemma file_section_absent (parsed : dict) :
  get parsed "file_description" = VNone ->
  get parsed "software" = VNone ->
  get parsed "date_created" = VNone ->
  get parsed "licensee" = VNone ->
  _drop_none (file_section parsed) = [].
Proof. unfold file_section. now intros -> -> -> ->. Qed.

(** C3, amended.  A seed, a leg and a disqualification detail all of whose
    fields prune away are absent: no field of an emitted entry or leg is
    [None] or an empty record, and a leg is [None] or a record with a field.
    An entry record and the [meet] section are never empty.  The [file]
    section is emitted in every document, as the pruned four file fields:
    when all four are absent the document has ["file": {}]. *)
Theorem collapse_of_empty_records :
  (forall entry r,
     entry_out entry = Ok r ->
     exists out, r = VDict out /\ out <> [] /\
       forall k v, find k out = Some v -> dropped v = false)
  /\ (forall entry prefix r,
        build_leg entry prefix = Ok r ->
        r = VNone \/
        exists leg, r = VDict leg /\ leg <> [] /\
          forall k v, find k leg = Some v -> dropped v = false)
  /\ (forall parsed out,
        _post_process parsed = Ok out ->
        exists meet_out,
          out = [("file", VDict (_drop_none (file_section parsed)));
                 ("meet", VDict meet_out)]
          /\ meet_out <> [])
  /\ (forall parsed,
        get parsed "file_description" = VNone ->
        get parsed "software" = VNone ->
        get parsed "date_created" = VNone ->
        get parsed "licensee" = VNone ->
        _drop_none (file_section parsed) = []).
Proof.
  split; [exact entry_out_shape|]. split; [exact build_leg_shape|].
  split; [|exact file_section_absent].
  intros parsed out H.
  apply _post_process_inv in H
    as (meet & teams & tl & swimmers & sl & events & el
        & _ & _ & _ & _ & _ & _ & _ & ->).
  eexists. split; [reflexivity|]. intros Hnil.
  destruct (find_meet_lists meet tl sl el) as (Ft & _).
  rewrite Hnil in Ft. discriminate.
Qed.

Lemma collapse_of_empty_records_witness :
  exists meet_out,
    [("file", VDict []);
     ("meet", VDict [("teams", VList []); ("swimmers", VList []);
                     ("events", VList [])])]
    = [("file", VDict (_drop_none (file_section [])));
       ("meet", VDict meet_out)]
    /\ meet_out <> [].
Proof.
  apply (proj1 (proj2 (proj2 collapse_of_empty_records)) []).
  reflexivity.
Defined.

(** C3 as stated fails: an input whose four file-level fields are absent
    yields a document with the key [file], bound to the empty record. *)
Lemma empty_file_section_emitted :
  get ([] : dict) "file_description" = VNone
  /\ get ([] : dict) "software" = VNone
  /\ get ([] : dict) "date_created" = VNone
  /\ get ([] : dict) "licensee" = VNone
  /\ _post_process []
     = Ok [("file", VDict []);
           ("meet", VDict [("teams", VList []); ("swimmers", VList []);
                           ("events", VList [])])]
  /\ find "file"
       [("file", VDict []);
        ("meet", VDict [("teams", VList []); ("swimmers", VList []);
                        ("events", VList [])])]
     = Some (VDict []).
Proof. repeat split; reflexivity. Qed.

Lemma find_drop_none_iff (r : dict) (k : string) (v : value) :
  List.NoDup (List.map fst r) ->
  find k (_drop_none r) = Some v <->
  find k r = Some v /\ v <> VNone /\ v <> VDict [].
Proof.
  intros Hnd. rewrite find_drop_none by assumption.
  destruct (find k r) as [w|]; [|split; [discriminate|now intros [? _]]].
  destruct (dropped w) eqn:Hw.
  - apply dropped_spec in Hw. split; [discriminate|].
    intros ([= ->] & H1 & H2). tauto.
  - split.
    + intros [= ->]. repeat split; intros ->; discriminate.
    + now intros [-> _].
Qed.

(** C10.  Pruning removes the fields whose value is [None] or an empty
    mapping and no other: a field of a record with distinct keys is in the
    pruned record exactly when its value is neither.  So an empty list
    stays: an event without entries is emitted with ["entries": []], and a
    meet whose teams, swimmers and events mappings are empty is emitted with
    ["teams": []], ["swimmers": []] and ["events": []]. *)
Theorem empty_lists_are_kept :
  (forall (r : dict) (k : string) (v : value),
     List.NoDup (List.map fst r) ->
     find k (_drop_none r) = Some v <->
     find k r = Some v /\ v <> VNone /\ v <> VDict [])
  /\ (forall (number : string) (event : dict),
        truthy (get_default event "entries" (VList [])) = false ->
        exists out,
          event_out number (VDict event) = Ok (VDict out) /\
          find "entries" out = Some (VList []))
  /\ (forall (parsed meet : dict),
        of_value (get_default parsed "meet" (VDict [])) = Ok meet ->
        mapping_of meet "teams" = Ok [] ->
        mapping_of meet "swimmers" = Ok [] ->
        mapping_of meet "events" = Ok [] ->
        exists out meet_out,
          _post_process parsed = Ok out /\
          find "meet" out = Some (VDict meet_out) /\
          find "teams" meet_out = Some (VList []) /\
          find "swimmers" meet_out = Some (VList []) /\
          find "events" meet_out = Some (VList [])).
Proof.
  split; [exact find_drop_none_iff|]. split.
  - intros number event Hfalsy. unfold event_out. simpl.
    assert (Hg : get_default (setitem "number" (VStr number) event) "entries"
                             (VList [])
                 = get_default event "entries" (VList [])).
    { unfold get_default. now rewrite find_setitem. }
    rewrite Hg. unfold py_or. rewrite Hfalsy. simpl.
    eexists. split; [reflexivity|].
    now rewrite find_drop_none by apply event_candidate_keys.
  - intros parsed meet Hm Ht Hs He. unfold _post_process. cbv zeta.
    rewrite Hm. simpl. rewrite Ht. simpl. rewrite Hs. simpl. rewrite He. simpl.
    do 2 eexists. split; [reflexivity|]. split; [reflexivity|].
    apply find_meet_lists.
Qed.

Lemma empty_lists_are_kept_witness :
  exists out,
    event_out "1" (VDict [("distance", VInt 50); ("entries", VList [])])
    = Ok (VDict out)
    /\ find "entries" out = Some (VList []).
Proof.
  apply (proj1 (proj2 empty_lists_are_kept)
           "1" [("distance", VInt 50); ("entries", VList [])]).
  reflexivity.
Defined.

(** * The store is only extended *)

Section Frame.
Import Heap.
Local Open Scope nat_scope.

Lemma safe_ret {A : Type} (n : nat) (a : A) (Q : A -> Prop) :
  Q a -> safe n (ret a) Q.
Proof. intros Ha h Hn. simpl. repeat split; [lia|]. now intros ? [= <-]. Qed.

Lemma safe_raise {A : Type} (n : nat) (e : exn) (Q : A -> Prop) :
  safe n (raise e) Q.
Proof. intros h Hn. simpl. repeat split; [lia|discriminate]. Qed.

Lemma safe_bind {A B : Type} (n : nat) (m : M A) (k : A -> M B)
  (Q : A -> Prop) (R : B -> Prop) :
  safe n m Q -> (forall a, Q a -> safe n (k a) R) -> safe n (bind m k) R.
Proof.
  intros Hm Hk h Hn. unfold bind.
  destruct (Hm h Hn) as (Ht & Hl & HQ).
  destruct (m h) as [[a| |] h1]; simpl in *;
    [|repeat split; [assumption..|discriminate]
     |repeat split; [assumption..|discriminate]].
  destruct (Hk a (HQ a eq_refl) h1 ltac:(lia)) as (Ht' & Hl' & HR).
  repeat split; [congruence|lia|assumption].
Qed.

Lemma safe_weaken {A : Type} (n : nat) (m : M A) (Q Q' : A -> Prop) :
  safe n m Q -> (forall a, Q a -> Q' a) -> safe n m Q'.
Proof.
  intros Hm HQ h Hn. destruct (Hm h Hn) as (Ht & Hl & Ha).
  repeat split; auto.
Qed.

Lemma safe_alloc (n : nat) (o : object) : safe n (alloc o) (above n).
Proof.
  intros h Hn. simpl. rewrite take_app_le, length_app by assumption.
  repeat split; [simpl; lia|]. now intros ? [= <-].
Qed.

Lemma safe_deref (n a : nat) : safe n (deref a) (fun _ => True).
Proof.
  intros h Hn. unfold deref. destruct (h !! a); simpl; repeat split; lia.
Qed.

Lemma safe_store (n a : nat) (o : object) :
  n <= a -> safe n (store a o) (fun _ => True).
Proof.
  intros Ha h Hn. simpl. rewrite take_insert_ge, length_insert by assumption.
  repeat split; lia.
Qed.

(** One step of a sequence: the first command by a lemma, then the rest. *)
Ltac safe_seq lem := eapply safe_bind; [apply lem|cbv beta; intros ? ?].

Ltac safe_leaf :=
  first [ apply safe_ret; solve [trivial | assumption]
        | apply safe_raise
        | apply safe_alloc
        | apply safe_deref
        | apply safe_store; assumption ].

Lemma safe_mapping (n : nat) (v : hvalue) :
  safe n (mapping v) (fun _ => True).
Proof.
  destruct v; try apply safe_raise. unfold mapping.
  safe_seq safe_deref. destruct a0; safe_leaf.
Qed.

Lemma safe_get_ (n : nat) (v : hvalue) (k : string) :
  safe n (get_ v k) (fun _ => True).
Proof. unfold get_. safe_seq safe_mapping. safe_leaf. Qed.

Lemma safe_get_default_ (n : nat) (v : hvalue) (k : string) (dflt : M hvalue) :
  safe n dflt (fun _ => True) -> safe n (get_default_ v k dflt) (fun _ => True).
Proof.
  intros Hd. unfold get_default_. safe_seq safe_mapping.
  eapply safe_bind; [exact Hd|]. intros; safe_leaf.
Qed.

Lemma safe_truthy (n : nat) (v : hvalue) : safe n (truthy v) (fun _ => True).
Proof.
  destruct v as [| | |[]|[]|]; simpl; try safe_leaf.
  safe_seq safe_deref. safe_leaf.
Qed.

Lemma safe_py_or (n : nat) (v : hvalue) (w : M hvalue) (Q : hvalue -> Prop) :
  Q v -> safe n w Q -> safe n (py_or v w) Q.
Proof.
  intros Hv Hw. unfold py_or. safe_seq safe_truthy.
  destruct a; [now apply safe_ret|exact Hw].
Qed.

Lemma safe_dict_of (n : nat) (v : hvalue) : safe n (dict_of v) (above n).
Proof.
  destruct v as [| | | |[]|]; simpl; try safe_leaf.
  safe_seq safe_deref. destruct a0 as [|[]]; safe_leaf.
Qed.

Lemma safe_setitem (n : nat) (v : hvalue) (k : string) (x : hvalue) :
  above n v -> safe n (setitem v k x) (fun _ => True).
Proof.
  destruct v; simpl; intros Hv; try safe_leaf.
  safe_seq safe_deref. destruct a0; safe_leaf.
Qed.

Lemma safe_pop (n : nat) (v : hvalue) (k : string) :
  above n v -> safe n (pop v k) (fun _ => True).
Proof.
  destruct v; simpl; intros Hv; try safe_leaf.
  safe_seq safe_deref. destruct a0; safe_leaf.
Qed.

Lemma safe_append (n : nat) (v x : hvalue) :
  above n v -> safe n (append v x) (fun _ => True).
Proof.
  destruct v; simpl; intros Hv; try safe_leaf.
  safe_seq safe_deref. destruct a0; safe_leaf.
Qed.

Lemma safe_iter (n : nat) (v : hvalue) : safe n (iter v) (fun _ => True).
Proof.
  destruct v; simpl; try safe_leaf.
  safe_seq safe_deref. destruct a0; safe_leaf.
Qed.

Lemma safe_is_empty_dict (n : nat) (v : hvalue) :
  safe n (is_empty_dict v) (fun _ => True).
Proof.
  destruct v; simpl; try safe_leaf. safe_seq safe_deref. safe_leaf.
Qed.

Lemma safe_for_each {A : Type} (n : nat) (body : A -> M unit) (l : list A) :
  (forall x, safe n (body x) (fun _ => True)) ->
  safe n (for_each body l) (fun _ => True).
Proof.
  intros Hb. induction l as [|x l IH]; simpl; [safe_leaf|].
  eapply safe_bind; [apply Hb|]. intros _ _. exact IH.
Qed.

Lemma safe_for_append {A : Type} (n : nat) (lst : hvalue)
  (body : A -> M hvalue) (l : list A) :
  above n lst ->
  (forall x, safe n (body x) (fun _ => True)) ->
  safe n (for_append lst body l) (fun _ => True).
Proof.
  intros Hl Hb. apply safe_for_each. intros x.
  eapply safe_bind; [apply Hb|]. intros y _. now apply safe_append.
Qed.

Lemma safe_collect {A : Type} (n : nat) (pre : M (list A))
  (body : A -> M hvalue) :
  safe n pre (fun _ => True) ->
  (forall x, safe n (body x) (fun _ => True)) ->
  safe n (collect pre body) (above n).
Proof.
  intros Hp Hb. unfold collect. safe_seq safe_alloc.
  eapply safe_bind; [exact Hp|]. intros xs _.
  eapply safe_bind; [now apply safe_for_append|]. intros _ _.
  now apply safe_ret.
Qed.

Lemma safe_eval_fields (n : nat) (fs : list (string * M hvalue)) :
  List.Forall (fun ke => safe n (snd ke) (fun _ => True)) fs ->
  safe n (eval_fields fs) (fun _ => True).
Proof.
  induction 1 as [|[k e] fs He Hfs IH]; simpl; [safe_leaf|].
  eapply safe_bind; [exact He|]. intros v _.
  eapply safe_bind; [exact IH|]. intros; safe_leaf.
Qed.

Lemma safe_display (n : nat) (fs : list (string * M hvalue)) :
  List.Forall (fun ke => safe n (snd ke) (fun _ => True)) fs ->
  safe n (display fs) (above n).
Proof.
  intros Hfs. unfold display.
  eapply safe_bind; [now apply safe_eval_fields|]. intros; safe_leaf.
Qed.

Lemma safe_any {A : Type} (n : nat) (m : M A) (Q : A -> Prop) :
  safe n m Q -> safe n m (fun _ => True).
Proof. intros Hm. now apply (safe_weaken n m Q). Qed.

Lemma safe__drop_none (n : nat) (d : hvalue) : safe n (_drop_none d) (above n).
Proof.
  unfold _drop_none. safe_seq safe_alloc. safe_seq safe_mapping.
  eapply safe_bind; [|intros; now apply safe_ret].
  apply safe_for_each. intros [k v]. unfold drop_item. cbn [fst snd].
  destruct v; cbn [fst snd]; try safe_leaf;
    (safe_seq safe_is_empty_dict;
     match goal with b : bool |- _ => destruct b end;
     [safe_leaf|now apply safe_setitem]).
Qed.

End Frame.

Section FrameOfPostProcess.
Import Heap.
Local Open Scope nat_scope.

Ltac safe_seq lem := eapply safe_bind; [apply lem|cbv beta; intros ? ?].

(** The fields of a display: reads, values at hand, and calls whose frame
    is proved. *)
Ltac safe_fields tac :=
  repeat (apply List.Forall_cons;
          [cbn [snd];
           first [ apply safe_get_
                 | apply safe_ret; exact I
                 | tac ]|]);
  apply List.Forall_nil.

Lemma safe_file_section (n : nat) (parsed : hvalue) :
  safe n (file_section parsed) (above n).
Proof. apply safe_display. safe_fields fail. Qed.

Lemma safe_team_out (n : nat) (code : string) (team : hvalue) :
  safe n (team_out code team) (above n).
Proof.
  unfold team_out. safe_seq safe_dict_of.
  eapply safe_bind; [now apply safe_setitem|]. intros _ _.
  eapply safe_bind; [now apply safe_pop|]. intros _ _.
  now apply safe_ret.
Qed.

Lemma safe_coerce_meet_id (n : nat) (meet_id : string) :
  safe n (coerce_meet_id meet_id) (fun _ => True).
Proof.
  unfold coerce_meet_id. destruct (PyStr.isdigit meet_id);
    [destruct (PyStr.py_int meet_id)|]; first [now apply safe_ret|apply safe_raise].
Qed.

Lemma safe_swimmer_out (n : nat) (meet_id : string) (swimmer : hvalue) :
  safe n (swimmer_out meet_id swimmer) (above n).
Proof.
  unfold swimmer_out. safe_seq safe_dict_of. safe_seq safe_coerce_meet_id.
  eapply safe_bind; [now apply safe_setitem|]. intros _ _.
  now apply safe_ret.
Qed.

Lemma safe_alloc_any (n : nat) (o : object) :
  safe n (alloc o) (fun _ => True).
Proof. apply (safe_any n _ _ (safe_alloc n o)). Qed.

Lemma safe_swimmer_ids (n : nat) (entry : hvalue) :
  safe n (swimmer_ids entry) (above n).
Proof.
  unfold swimmer_ids.
  eapply safe_bind; [apply safe_get_default_, safe_alloc_any|]. intros got _.
  eapply safe_bind; [apply safe_py_or; [exact I|apply safe_alloc_any]|].
  intros swimmers_in_entry _.
  apply safe_collect; [apply safe_iter|]. intros s. apply safe_get_.
Qed.

Lemma safe_seed_of (n : nat) (entry : hvalue) :
  safe n (seed_of entry) (above n).
Proof.
  unfold seed_of.
  eapply safe_bind; [apply safe_display; safe_fields fail|].
  intros; apply safe__drop_none.
Qed.

Lemma safe_dq_of (n : nat) (dq_info : hvalue) :
  safe n (dq_of dq_info) (fun _ => True).
Proof.
  unfold dq_of. safe_seq safe_truthy.
  match goal with b : bool |- _ => destruct b end; [|now apply safe_ret].
  eapply safe_bind; [apply safe_display; safe_fields fail|].
  intros; eapply safe_any, safe__drop_none.
Qed.

Lemma safe_build_leg (n : nat) (entry : hvalue) (prefix : string) :
  safe n (build_leg entry prefix) (fun _ => True).
Proof.
  unfold build_leg. cbv zeta. safe_seq safe_get_. safe_seq safe_dq_of.
  eapply safe_bind; [apply safe_display; safe_fields fail|]. intros c _.
  safe_seq safe__drop_none.
  apply safe_py_or; [exact I|now apply safe_ret].
Qed.

Lemma safe_flag (n : nat) (v : hvalue) (k : string) :
  safe n (flag v k) (fun _ => True).
Proof.
  unfold flag.
  eapply safe_bind; [apply safe_get_default_; now apply safe_ret|].
  intros x _. safe_seq safe_truthy. now apply safe_ret.
Qed.

Lemma safe_entry_out (n : nat) (entry : hvalue) :
  safe n (entry_out entry) (above n).
Proof.
  unfold entry_out. safe_seq safe_swimmer_ids. safe_seq safe_seed_of.
  eapply safe_bind; [|intros; apply safe__drop_none].
  apply safe_display.
  safe_fields ltac:(first [ apply safe_flag
                          | apply safe_build_leg
                          | apply safe_py_or; [exact I|now apply safe_ret] ]).
Qed.

Lemma safe_entries_of (n : nat) (e_map : hvalue) :
  safe n (entries_of e_map) (fun _ => True).
Proof.
  unfold entries_of.
  eapply safe_bind; [apply safe_get_default_, safe_alloc_any|]. intros got _.
  eapply safe_bind; [apply safe_py_or; [exact I|apply safe_alloc_any]|].
  intros entries _. apply safe_iter.
Qed.

Lemma safe_numbered (n : nat) (event_number : string) (event : hvalue) :
  safe n (numbered event_number event) (above n).
Proof.
  unfold numbered. safe_seq safe_dict_of.
  eapply safe_bind; [now apply safe_setitem|]. intros _ _.
  now apply safe_ret.
Qed.

Lemma safe_event_out (n : nat) (event_number : string) (event : hvalue) :
  safe n (event_out event_number event) (above n).
Proof.
  unfold event_out. safe_seq safe_numbered.
  eapply safe_bind.
  { apply safe_collect; [apply safe_entries_of|].
    intros x. eapply safe_any, safe_entry_out. }
  intros reshaped_entries _.
  eapply safe_bind; [|intros; apply safe__drop_none].
  apply safe_display. safe_fields ltac:(apply safe_flag).
Qed.

Lemma safe_mapping_of (n : nat) (meet : hvalue) (name : string) :
  safe n (mapping_of meet name) (fun _ => True).
Proof.
  unfold mapping_of.
  eapply safe_bind; [apply safe_get_default_, safe_alloc_any|]. intros got _.
  apply safe_py_or; [exact I|apply safe_alloc_any].
Qed.

Lemma safe__sorted_events (n : nat) (events : hvalue) :
  safe n (_sorted_events events) (fun _ => True).
Proof. unfold _sorted_events. safe_seq safe_mapping. now apply safe_ret. Qed.

Lemma safe__post_process (n : nat) (parsed : hvalue) :
  safe n (_post_process parsed) (above n).
Proof.
  unfold _post_process. safe_seq safe_file_section.
  eapply safe_bind; [apply safe_get_default_, safe_alloc_any|]. intros got _.
  safe_seq safe_dict_of. safe_seq safe_mapping_of.
  eapply safe_bind.
  { apply safe_collect; [apply safe_mapping|].
    intros x. eapply safe_any, safe_team_out. }
  intros teams_list _. safe_seq safe_mapping_of.
  eapply safe_bind.
  { apply safe_collect; [apply safe_mapping|].
    intros x. eapply safe_any, safe_swimmer_out. }
  intros swimmers_list _. safe_seq safe_mapping_of.
  eapply safe_bind.
  { apply safe_collect; [apply safe__sorted_events|].
    intros x. eapply safe_any, safe_event_out. }
  intros events_list _.
  eapply safe_bind; [apply safe_display; safe_fields fail|]. intros c _.
  safe_seq safe__drop_none. safe_seq safe__drop_none.
  apply safe_display. safe_fields fail.
Qed.

Lemma safe_extends {A : Type} (m : M A) (Q : A -> Prop) (h : heap) :
  safe (length h) m Q ->
  h `prefix_of` snd (m h) /\ forall a, fst (m h) = Done a -> Q a.
Proof.
  intros Hm. destruct (Hm h (le_n _)) as (Ht & Hl & HQ). split; [|exact HQ].
  exists (drop (length h) (snd (m h))).
  rewrite <- (take_drop (length h) (snd (m h))) at 1.
  now rewrite Ht, take_ge.
Qed.

(** C8.  Run on any store, pruning and the whole conversion leave every
    object of the store as it was: the store they end with is the one they
    started with, followed by the objects they allocated.  What they return
    is a reference to one of these new objects: pruning returns a new
    mapping. *)
Theorem input_is_not_mutated (h : heap) (v : hvalue) :
  (h `prefix_of` snd (_drop_none v h)
   /\ forall r, fst (_drop_none v h) = Done r ->
                exists a, r = HRef a /\ length h <= a)
  /\ (h `prefix_of` snd (_post_process v h)
      /\ forall r, fst (_post_process v h) = Done r ->
                   exists a, r = HRef a /\ length h <= a).
Proof.
  assert (Hab : forall (m : M hvalue),
             safe (length h) m (above (length h)) ->
             h `prefix_of` snd (m h)
             /\ forall r, fst (m h) = Done r ->
                          exists a, r = HRef a /\ length h <= a).
  { intros m Hm. split; [now apply (safe_extends m _ h Hm)|].
    intros r Hr. destruct (Hm h (le_n _)) as (_ & Hl & HQ).
    specialize (HQ r Hr). destruct r; try contradiction. eauto. }
  split; apply Hab; [apply safe__drop_none|apply safe__post_process].
Qed.

End FrameOfPostProcess.

(** * The code over the store computes the tree of the code over trees *)

Section ValueInduction.
Variable P : value -> Prop.
Hypothesis HNone : P VNone.
Hypothesis HBool : forall b, P (VBool b).
Hypothesis HInt : forall n, P (VInt n).
Hypothesis HFloat : forall f, P (VFloat f).
Hypothesis HStr : forall s, P (VStr s).
Hypothesis HList : forall l, List.Forall P l -> P (VList l).
Hypothesis HDict :
  forall d, List.Forall (fun kv => P (snd kv)) d -> P (VDict d).

Fixpoint value_induction (v : value) : P v :=
  match v with
  | VNone => HNone
  | VBool b => HBool b
  | VInt n => HInt n
  | VFloat f => HFloat f
  | VStr s => HStr s
  | VList l =>
      HList l
        ((fix all (l : list value) : List.Forall P l :=
            match l with
            | [] => @List.Forall_nil _ _
            | x :: l' =>
                @List.Forall_cons _ _ x l' (value_induction x) (all l')
            end) l)
  | VDict d =>
      HDict d
        ((fix all (d : dict) : List.Forall (fun kv => P (snd kv)) d :=
            match d with
            | [] => @List.Forall_nil _ _
            | kv :: d' =>
                @List.Forall_cons _ _ kv d' (value_induction (snd kv))
                                  (all d')
            end) d)
  end.
End ValueInduction.

Section Representation.
Import Heap.
Local Open Scope nat_scope.
Implicit Types (P Q : nat -> Prop) (h : heap) (v : hvalue) (pv : value).

Lemma repr_in_list P h v (l : list value) :
  repr_in P h v (VList l) <->
  exists a hl, v = HRef a /\ P a /\ h !! a = Some (OList hl) /\ reprs P h hl l.
Proof.
  simpl. unfold reprs.
  assert (Hi : forall hl,
             (fix items (hl : list hvalue) (l : list value) {struct l} : Prop :=
                match hl, l with
                | [], [] => True
                | y :: hl', x :: l' => repr_in P h y x /\ items hl' l'
                | _, _ => False
                end) hl l <-> Forall2 (repr_in P h) hl l).
  { induction l as [|x l IH]; intros [|y hl].
    - split; [constructor|trivial].
    - split; [tauto|intros H; inversion H].
    - split; [tauto|intros H; inversion H].
    - rewrite IH. split.
      + intros [H1 H2]. now constructor.
      + intros H. inversion H; subst. now split. }
  split; intros (a & hl & H1 & H2 & H3 & H4); exists a, hl;
    repeat split; try assumption; now apply Hi.
Qed.

Lemma repr_in_dict P h v (d : dict) :
  repr_in P h v (VDict d) <->
  exists a hd, v = HRef a /\ P a /\ h !! a = Some (ODict hd) /\ fields P h hd d.
Proof.
  simpl. unfold fields.
  assert (Hi : forall hd,
             (fix items (hd : hdict) (d : dict) {struct d} : Prop :=
                match hd, d with
                | [], [] => True
                | (k', y) :: hd', (k, x) :: d' =>
                    k' = k /\ repr_in P h y x /\ items hd' d'
                | _, _ => False
                end) hd d
             <-> Forall2 (fun x y => fst x = fst y /\
                                     repr_in P h (snd x) (snd y)) hd d).
  { induction d as [|[k x] d IH]; intros [|[k' y] hd].
    - split; [constructor|trivial].
    - split; [tauto|intros H; inversion H].
    - split; [tauto|intros H; inversion H].
    - rewrite IH. split.
      + intros (H1 & H2 & H3). constructor; [now split|assumption].
      + intros H. inversion H as [|? ? ? ? [H1 H2] H3]; subst.
        now repeat split. }
  split; intros (a & hd & H1 & H2 & H3 & H4); exists a, hd;
    repeat split; try assumption; now apply Hi.
Qed.

(** A representation only depends on the objects it reads. *)
Lemma repr_in_agree P Q h h' v pv :
  (forall a, P a -> a < length h -> Q a /\ h' !! a = h !! a) ->
  repr_in P h v pv -> repr_in Q h' v pv.
Proof.
  intros Hag. revert v.
  induction pv as [| | | | |l IH|d IH] using value_induction; intros v;
    try (simpl; tauto).
  - rewrite !repr_in_list. intros (a & hl & -> & Pa & Hl & Hs).
    destruct (Hag a Pa (lookup_lt_Some _ _ _ Hl)) as [Qa Ha].
    exists a, hl. repeat split; [assumption|congruence|].
    unfold reprs in *. clear Hl. revert hl Hs.
    induction IH as [|x l Hx _ IHl]; intros hl Hs; inversion Hs; subst;
      constructor; auto.
  - rewrite !repr_in_dict. intros (a & hd & -> & Pa & Hl & Hs).
    destruct (Hag a Pa (lookup_lt_Some _ _ _ Hl)) as [Qa Ha].
    exists a, hd. repeat split; [assumption|congruence|].
    unfold fields in *. clear Hl. revert hd Hs.
    induction IH as [|x d Hx _ IHd]; intros hd Hs;
      inversion Hs as [|? ? ? ? [Hk Hr] Hrest]; subst;
      constructor; [|auto].
    split; auto.
Qed.

Lemma prefix_lookup h h' a :
  h `prefix_of` h' -> a < length h -> h' !! a = h !! a.
Proof. intros [t ->] Ha. now apply lookup_app_l. Qed.

Lemma repr_in_prefix P h h' v pv :
  h `prefix_of` h' -> repr_in P h v pv -> repr_in P h' v pv.
Proof.
  intros Hp. apply repr_in_agree. intros a Pa Ha.
  split; [assumption|now apply prefix_lookup].
Qed.

Lemma repr_in_mono P Q h v pv :
  (forall a, P a -> Q a) -> repr_in P h v pv -> repr_in Q h v pv.
Proof. intros HPQ. apply repr_in_agree. intros a Pa _. auto. Qed.

(** The objects a representation reads are objects of the store. *)
Lemma repr_in_bounded P h v pv :
  repr_in P h v pv -> repr_in (fun a => P a /\ a < length h) h v pv.
Proof. apply repr_in_agree. intros a Pa Ha. auto. Qed.

Lemma fields_agree P Q h h' (hd : hdict) (d : dict) :
  (forall a, P a -> a < length h -> Q a /\ h' !! a = h !! a) ->
  fields P h hd d -> fields Q h' hd d.
Proof.
  intros Hag Hf. eapply Forall2_impl; [exact Hf|].
  intros x y [Hk Hr]. split; [assumption|].
  now apply (repr_in_agree P Q h h').
Qed.

Lemma reprs_agree P Q h h' (hl : list hvalue) (l : list value) :
  (forall a, P a -> a < length h -> Q a /\ h' !! a = h !! a) ->
  reprs P h hl l -> reprs Q h' hl l.
Proof.
  intros Hag Hf. eapply Forall2_impl; [exact Hf|].
  intros x y. now apply (repr_in_agree P Q h h').
Qed.

Lemma up_prefix P h h' : h `prefix_of` h' -> up P h -> up P h'.
Proof.
  intros Hp Hu a Ha. apply Hu. apply prefix_length in Hp. lia.
Qed.

End Representation.

Section SimulationRules.
Local Open Scope nat_scope.
Implicit Types (Q : nat -> Prop) (h : Heap.heap) (v : Heap.hvalue) (pv : value).

Lemma fsim_intro {A B : Type} (R : Heap.heap -> A -> B -> Prop) h (m : Heap.M A)
  (r : result B) (out : Heap.outcome A) (h' : Heap.heap) :
  m h = (out, h') -> h `prefix_of` h' -> orel (R h') out r -> fsim R h m r.
Proof. intros E Hp Ho. unfold fsim. rewrite E. now split. Qed.

Lemma fsim_elim {A B : Type} (R : Heap.heap -> A -> B -> Prop) h (m : Heap.M A)
  (r : result B) :
  fsim R h m r ->
  exists out h', m h = (out, h') /\ h `prefix_of` h' /\ orel (R h') out r.
Proof.
  unfold fsim. destruct (m h) as [out h']. simpl. intros [Hp Ho].
  exists out, h'. auto.
Qed.

Lemma ssim_here {A B : Type} (R : Heap.heap -> A -> B -> Prop) h (m : Heap.M A)
  (r : result B) :
  ssim R h m r -> fsim R h m r.
Proof. intros Hs. now apply Hs. Qed.

Lemma ssim_later {A B : Type} (R : Heap.heap -> A -> B -> Prop) h h1 (m : Heap.M A)
  (r : result B) :
  h `prefix_of` h1 -> ssim R h m r -> ssim R h1 m r.
Proof. intros Hp Hs h2 Hp2. apply Hs. now transitivity h1. Qed.

Lemma ssim_weaken {A B : Type} (R R' : Heap.heap -> A -> B -> Prop) h (m : Heap.M A)
  (r : result B) :
  (forall h1 a b, R h1 a b -> R' h1 a b) -> ssim R h m r -> ssim R' h m r.
Proof.
  intros HR Hs h1 Hp. destruct (Hs h1 Hp) as [Hp1 Ho]. split; [assumption|].
  destruct (fst (m h1)), r; simpl in *; auto.
Qed.

Lemma ssim_ret {A B : Type} (R : Heap.heap -> A -> B -> Prop) h (a : A) (b : B) :
  (forall h1, h `prefix_of` h1 -> R h1 a b) -> ssim R h (Heap.ret a) (Ok b).
Proof. intros HR h1 Hp. split; simpl; [reflexivity|auto]. Qed.

Lemma ssim_raise {A B : Type} (R : Heap.heap -> A -> B -> Prop) h (e : exn) :
  ssim R h (Heap.raise e : Heap.M A) (Raise e : result B).
Proof. intros h1 Hp. split; simpl; reflexivity. Qed.

Lemma bind_done {A B : Type} (m : Heap.M A) (k : A -> Heap.M B) h h'
  (a : A) :
  m h = (Heap.Done a, h') -> Heap.bind m k h = k a h'.
Proof. intros E. unfold Heap.bind. now rewrite E. Qed.

Lemma bind_exc {A B : Type} (m : Heap.M A) (k : A -> Heap.M B) h h'
  (e : exn) :
  m h = (Heap.Exc e, h') -> Heap.bind m k h = (Heap.Exc e, h').
Proof. intros E. unfold Heap.bind. now rewrite E. Qed.

Lemma ssim_bind_eq {A A' B B' : Type} (R : Heap.heap -> A -> A' -> Prop)
  (S : Heap.heap -> B -> B' -> Prop) h (m : Heap.M A) (k : A -> Heap.M B)
  (r : result A') (kp : A' -> result B') :
  ssim R h m r ->
  (forall h1 a b, h `prefix_of` h1 -> r = Ok b -> R h1 a b ->
                  ssim S h1 (k a) (kp b)) ->
  ssim S h (Heap.bind m k) (bind r kp).
Proof.
  intros Hm Hk h1 Hp1.
  destruct (fsim_elim _ _ _ _ (Hm h1 Hp1)) as (out & h2 & E & Hp2 & Ho).
  destruct out as [a|e'|], r as [b|e]; simpl in Ho; try contradiction.
  - assert (Hp : h `prefix_of` h2) by now transitivity h1.
    destruct (fsim_elim _ _ _ _ (Hk h2 a b Hp eq_refl Ho h2 (reflexivity _)))
      as (out' & h3 & E' & Hp3 & Ho').
    eapply fsim_intro; [| |exact Ho'].
    + rewrite (bind_done _ _ _ _ _ E). exact E'.
    + now transitivity h2.
  - subst. eapply fsim_intro; [exact (bind_exc _ _ _ _ _ E)|assumption|].
    reflexivity.
Qed.

Lemma ssim_bind {A A' B B' : Type} (R : Heap.heap -> A -> A' -> Prop)
  (S : Heap.heap -> B -> B' -> Prop) h (m : Heap.M A) (k : A -> Heap.M B)
  (r : result A') (kp : A' -> result B') :
  ssim R h m r ->
  (forall h1 a b, h `prefix_of` h1 -> R h1 a b -> ssim S h1 (k a) (kp b)) ->
  ssim S h (Heap.bind m k) (bind r kp).
Proof. intros Hm Hk. apply (ssim_bind_eq R); auto. Qed.

(** A step of the code over the store whose counterpart is a value. *)
Lemma ssim_step {A A' B B' : Type} (R : Heap.heap -> A -> A' -> Prop)
  (S : Heap.heap -> B -> B' -> Prop) h (m : Heap.M A) (k : A -> Heap.M B)
  (b : A') (r : result B') :
  ssim R h m (Ok b) ->
  (forall h1 a, h `prefix_of` h1 -> R h1 a b -> ssim S h1 (k a) r) ->
  ssim S h (Heap.bind m k) r.
Proof.
  intros Hm Hk.
  apply (ssim_bind_eq R S h m k (Ok b) (fun _ => r)); [assumption|].
  intros h1 a b' Hp [= <-] Hr. now apply Hk.
Qed.

End SimulationRules.

Section Leaves.
Local Open Scope nat_scope.
Implicit Types (Q : nat -> Prop) (h : Heap.heap) (v : Heap.hvalue) (pv : value).
Implicit Types (hd : Heap.hdict) (d : dict) (k : string).

Lemma fields_find Q h hd d k :
  fields Q h hd d ->
  match find k hd, find k d with
  | Some x, Some px => repr_in Q h x px
  | None, None => True
  | _, _ => False
  end.
Proof.
  induction 1 as [|[k1 x] [k2 px] hd d [Hk Hr] _ IH]; simpl; [trivial|].
  simpl in Hk. subst k2. now destruct (String.eqb k1 k).
Qed.

Lemma fields_get Q h hd d k :
  fields Q h hd d -> repr_in Q h (get hd k) (get d k).
Proof.
  intros Hf. apply (fields_find Q h hd d k) in Hf. unfold get.
  destruct (find k hd), (find k d); try contradiction; [assumption|].
  reflexivity.
Qed.

Lemma fields_get_default Q h hd d k (x : Heap.hvalue) (px : value) :
  fields Q h hd d -> repr_in Q h x px ->
  repr_in Q h (get_default hd k x) (get_default d k px).
Proof.
  intros Hf Hx. apply (fields_find Q h hd d k) in Hf. unfold get_default.
  now destruct (find k hd), (find k d).
Qed.

Lemma fields_setitem Q h hd d k (x : Heap.hvalue) (px : value) :
  fields Q h hd d -> repr_in Q h x px ->
  fields Q h (setitem k x hd) (setitem k px d).
Proof.
  intros Hf Hx.
  induction Hf as [|[k1 y] [k2 py] hd d [Hk Hr] Hf IH]; simpl.
  - now repeat constructor.
  - simpl in Hk. subst k2. destruct (String.eqb k1 k).
    + constructor; [now split|assumption].
    + constructor; [now split|assumption].
Qed.

Lemma fields_pop Q h hd d k :
  fields Q h hd d -> fields Q h (pop k hd) (pop k d).
Proof.
  induction 1 as [|[k1 y] [k2 py] hd d [Hk Hr] Hf IH]; simpl.
  - constructor.
  - simpl in Hk. subst k2. destruct (String.eqb k1 k); [assumption|].
    constructor; [now split|assumption].
Qed.

Lemma fields_keys Q h hd d :
  fields Q h hd d ->
  reprs Q h (List.map (fun kv => Heap.HStr (fst kv)) hd)
            (List.map (fun kv => VStr (fst kv)) d).
Proof.
  intros Hf.
  induction Hf as [|[k1 y] [k2 py] hd d [Hk Hr] Hf IH]; simpl;
    constructor; [|assumption].
  simpl in *. now subst.
Qed.

Lemma fields_insert_sorted Q h hd d (x : string * Heap.hvalue)
  (px : string * value) :
  fst x = fst px -> repr_in Q h (snd x) (snd px) ->
  fields Q h hd d ->
  fields Q h (insert_sorted _event_key tuple_lt x hd)
             (insert_sorted _event_key tuple_lt px d).
Proof.
  intros Hk Hr Hf.
  induction Hf as [|[k1 y] [k2 py] hd d [Hk' Hr'] Hf IH]; simpl.
  - now repeat constructor.
  - simpl in Hk'. subst k2. unfold _event_key at 1 2 4 5. simpl. rewrite Hk.
    destruct (tuple_lt _ _).
    + constructor; [now split|assumption].
    + constructor; [now split|]. constructor; [now split|assumption].
Qed.

Lemma fields_sorted Q h hd d :
  fields Q h hd d ->
  fields Q h (py_sorted _event_key tuple_lt hd)
             (py_sorted _event_key tuple_lt d).
Proof.
  induction 1 as [|x px hd d [Hk Hr] Hf IH]; simpl; [constructor|].
  now apply fields_insert_sorted.
Qed.

Lemma reprs_chars Q h (s : string) :
  reprs Q h (List.map Heap.HStr (chars s)) (List.map VStr (chars s)).
Proof. induction (chars s); simpl; constructor; auto. reflexivity. Qed.

(** *** Reads *)

Lemma run_mapping Q h v pv :
  repr_in Q h v pv ->
  match items pv with
  | Ok d => exists hd, Heap.mapping v h = (Heap.Done hd, h) /\ fields Q h hd d
  | Raise e => Heap.mapping v h = (Heap.Exc e, h)
  end.
Proof.
  destruct pv; try (simpl; intros ->; reflexivity).
  - rewrite repr_in_list. intros (a & hl & -> & _ & Hl & _). simpl.
    unfold Heap.mapping, Heap.bind, Heap.deref. now rewrite Hl.
  - rewrite repr_in_dict. intros (a & hd & -> & _ & Hl & Hf). simpl.
    exists hd. split; [|assumption].
    unfold Heap.mapping, Heap.bind, Heap.deref. now rewrite Hl.
Qed.

Lemma ssim_mapping Q h v pv :
  repr_in Q h v pv -> ssim (fields Q) h (Heap.mapping v) (items pv).
Proof.
  intros Hr h1 Hp. apply (repr_in_prefix _ _ _ _ _ Hp) in Hr.
  apply run_mapping in Hr. destruct (items pv) as [d|e].
  - destruct Hr as (hd & E & Hf). now apply (fsim_intro _ _ _ _ _ _ E).
  - now apply (fsim_intro _ _ _ _ _ _ Hr).
Qed.

Lemma ssim_get_ Q h v pv k :
  repr_in Q h v pv ->
  ssim (repr_in Q) h (Heap.get_ v k) (d <- items pv ;; Ok (get d k)).
Proof.
  intros Hr. unfold Heap.get_.
  eapply ssim_bind; [apply (ssim_mapping Q); exact Hr|].
  intros h1 hd d Hp Hf. apply ssim_ret. intros h2 Hp2.
  apply fields_get. eapply fields_agree; [|exact Hf].
  intros a Qa Ha. split; [assumption|now apply prefix_lookup].
Qed.

Lemma run_truthy Q h v pv :
  repr_in Q h v pv -> Heap.truthy v h = (Heap.Done (truthy pv), h).
Proof.
  destruct pv as [| | |f|s|l|d]; try (simpl; intros ->; reflexivity).
  - simpl. intros ->. now destruct f.
  - simpl. intros ->. now destruct s.
  - rewrite repr_in_list. intros (a & hl & -> & _ & Hl & Hs).
    unfold Heap.truthy, Heap.bind, Heap.deref. rewrite Hl.
    now destruct Hs.
  - rewrite repr_in_dict. intros (a & hd & -> & _ & Hl & Hs).
    unfold Heap.truthy, Heap.bind, Heap.deref. rewrite Hl.
    now destruct Hs.
Qed.

Lemma ssim_truthy Q h v pv :
  repr_in Q h v pv ->
  ssim (fun _ a b => a = b) h (Heap.truthy v) (Ok (truthy pv)).
Proof.
  intros Hr h1 Hp. apply (repr_in_prefix _ _ _ _ _ Hp) in Hr.
  apply (fsim_intro _ _ _ _ _ _ (run_truthy _ _ _ _ Hr)); reflexivity.
Qed.

Lemma ssim_py_or Q h v pv (w : Heap.M Heap.hvalue) (pw : value) :
  repr_in Q h v pv ->
  ssim (repr_in Q) h w (Ok pw) ->
  ssim (repr_in Q) h (Heap.py_or v w) (Ok (py_or pv pw)).
Proof.
  intros Hr Hw. unfold Heap.py_or.
  eapply ssim_step; [apply (ssim_truthy Q); exact Hr|].
  intros h1 b Hp ->. unfold py_or. destruct (truthy pv).
  - apply ssim_ret. intros h2 Hp2. eapply repr_in_prefix; [|exact Hr].
    now transitivity h1.
  - now apply (ssim_later _ h).
Qed.

Lemma ssim_iter Q h v pv :
  repr_in Q h v pv -> ssim (reprs Q) h (Heap.iter v) (py_iter pv).
Proof.
  intros Hr h1 Hp. apply (repr_in_prefix _ _ _ _ _ Hp) in Hr.
  destruct pv; try (simpl in Hr; subst v; now apply (fsim_intro _ _ _ _ _ _ eq_refl)).
  - simpl in Hr. subst v.
    apply (fsim_intro _ _ _ _ _ _ eq_refl); [reflexivity|]. apply reprs_chars.
  - apply repr_in_list in Hr as (a & hl & -> & _ & Hl & Hs).
    assert (E : Heap.iter (Heap.HRef a) h1 = (Heap.Done hl, h1)).
    { unfold Heap.iter, Heap.bind, Heap.deref. now rewrite Hl. }
    now apply (fsim_intro _ _ _ _ _ _ E).
  - apply repr_in_dict in Hr as (a & hd & -> & _ & Hl & Hs).
    assert (E : Heap.iter (Heap.HRef a) h1
                = (Heap.Done (List.map (fun kv => Heap.HStr (fst kv)) hd),
                   h1)).
    { unfold Heap.iter, Heap.bind, Heap.deref. now rewrite Hl. }
    apply (fsim_intro _ _ _ _ _ _ E); [reflexivity|].
    exact (fields_keys _ _ _ _ Hs).
Qed.

End Leaves.

Section Allocation.
Local Open Scope nat_scope.
Implicit Types (Q : nat -> Prop) (h : Heap.heap) (v : Heap.hvalue) (pv : value).
Implicit Types (hd : Heap.hdict) (d : dict) (k : string) (o : Heap.object).

Lemma lookup_last h o : (h ++ [o])%list !! length h = Some o.
Proof. now apply list_lookup_middle. Qed.

Lemma insert_last h o o' : <[length h := o']> (h ++ [o])%list = (h ++ [o'])%list.
Proof.
  rewrite insert_app_r_alt by lia. now replace (length h - length h) with 0 by lia.
Qed.

Lemma run_deref_last h o :
  Heap.deref (length h) (h ++ [o])%list = (Heap.Done o, (h ++ [o])%list).
Proof. unfold Heap.deref. now rewrite lookup_last. Qed.

Lemma run_setitem_last h hd k (x : Heap.hvalue) :
  Heap.setitem (Heap.HRef (length h)) k x (h ++ [Heap.ODict hd])%list
  = (Heap.Done tt, (h ++ [Heap.ODict (setitem k x hd)])%list).
Proof.
  unfold Heap.setitem, Heap.bind. rewrite run_deref_last.
  unfold Heap.store. now rewrite insert_last.
Qed.

Lemma run_pop_last h hd k :
  Heap.pop (Heap.HRef (length h)) k (h ++ [Heap.ODict hd])%list
  = (Heap.Done tt, (h ++ [Heap.ODict (pop k hd)])%list).
Proof.
  unfold Heap.pop, Heap.bind. rewrite run_deref_last.
  unfold Heap.store. now rewrite insert_last.
Qed.

Lemma run_alloc h o :
  Heap.alloc o h = (Heap.Done (Heap.HRef (length h)), (h ++ [o])%list).
Proof. reflexivity. Qed.

Lemma prefix_snoc h o : h `prefix_of` (h ++ [o])%list.
Proof. now exists [o]. Qed.

Lemma fields_prefix Q h h' hd d :
  h `prefix_of` h' -> fields Q h hd d -> fields Q h' hd d.
Proof.
  intros Hp. apply fields_agree. intros a Qa Ha.
  split; [assumption|now apply prefix_lookup].
Qed.

Lemma reprs_prefix Q h h' (hl : list Heap.hvalue) (l : list value) :
  h `prefix_of` h' -> reprs Q h hl l -> reprs Q h' hl l.
Proof.
  intros Hp. apply reprs_agree. intros a Qa Ha.
  split; [assumption|now apply prefix_lookup].
Qed.

(** A new object of known content stands for the tree of that content. *)
Lemma repr_new_dict Q h hd d :
  up Q h -> fields Q h hd d ->
  repr_in Q (h ++ [Heap.ODict hd])%list (Heap.HRef (length h)) (VDict d).
Proof.
  intros Hu Hf. apply repr_in_dict. exists (length h), hd.
  repeat split; [now apply Hu|apply lookup_last|].
  eapply fields_prefix; [apply prefix_snoc|exact Hf].
Qed.

Lemma repr_new_list Q h (hl : list Heap.hvalue) (l : list value) :
  up Q h -> reprs Q h hl l ->
  repr_in Q (h ++ [Heap.OList hl])%list (Heap.HRef (length h)) (VList l).
Proof.
  intros Hu Hf. apply repr_in_list. exists (length h), hl.
  repeat split; [now apply Hu|apply lookup_last|].
  eapply reprs_prefix; [apply prefix_snoc|exact Hf].
Qed.

Lemma ssim_alloc_dict Q h hd d :
  up Q h -> fields Q h hd d ->
  ssim (repr_in Q) h (Heap.alloc (Heap.ODict hd)) (Ok (VDict d)).
Proof.
  intros Hu Hf h1 Hp.
  apply (fsim_intro _ _ _ _ _ _ (run_alloc h1 _)); [apply prefix_snoc|].
  apply repr_new_dict; [now apply (up_prefix _ h)|now apply (fields_prefix _ h)].
Qed.

Lemma ssim_alloc_list Q h (hl : list Heap.hvalue) (l : list value) :
  up Q h -> reprs Q h hl l ->
  ssim (repr_in Q) h (Heap.alloc (Heap.OList hl)) (Ok (VList l)).
Proof.
  intros Hu Hf h1 Hp.
  apply (fsim_intro _ _ _ _ _ _ (run_alloc h1 _)); [apply prefix_snoc|].
  apply repr_new_list; [now apply (up_prefix _ h)|now apply (reprs_prefix _ h)].
Qed.

Lemma ssim_get_default_ Q h v pv k (dflt : Heap.M Heap.hvalue)
  (pdflt : value) :
  repr_in Q h v pv ->
  ssim (repr_in Q) h dflt (Ok pdflt) ->
  ssim (repr_in Q) h (Heap.get_default_ v k dflt)
       (d <- items pv ;; Ok (get_default d k pdflt)).
Proof.
  intros Hr Hd. unfold Heap.get_default_.
  eapply ssim_bind; [apply (ssim_mapping Q); exact Hr|].
  intros h1 hd d Hp Hf.
  eapply ssim_step; [apply (ssim_later _ h); eassumption|].
  intros h2 x Hp2 Hx. apply ssim_ret. intros h3 Hp3.
  apply fields_get_default.
  - eapply fields_prefix; [|exact Hf]. now transitivity h2.
  - now apply (repr_in_prefix _ h2).
Qed.

Lemma run_dict_of Q h v pv :
  up Q h -> repr_in Q h v pv ->
  match of_value pv with
  | Ok d =>
      exists hd,
        Heap.dict_of v h
        = (Heap.Done (Heap.HRef (length h)), (h ++ [Heap.ODict hd])%list)
        /\ fields Q h hd d
  | Raise e => Heap.dict_of v h = (Heap.Exc e, h)
  end.
Proof.
  intros Hu.
  destruct pv as [| | | |s|l|d]; try (simpl; intros ->; reflexivity).
  - simpl. intros ->. destruct s; [|reflexivity].
    exists []. split; [reflexivity|constructor].
  - rewrite repr_in_list. intros (a & hl & -> & _ & Hl & Hs).
    unfold Heap.dict_of, Heap.bind, Heap.deref. rewrite Hl.
    destruct Hs; simpl; [|reflexivity].
    exists []. split; [reflexivity|constructor].
  - rewrite repr_in_dict. intros (a & hd & -> & _ & Hl & Hs). simpl.
    exists hd. split; [|assumption].
    unfold Heap.dict_of, Heap.bind, Heap.deref. now rewrite Hl.
Qed.

Lemma ssim_dict_of Q h v pv :
  up Q h -> repr_in Q h v pv ->
  ssim (repr_in Q) h (Heap.dict_of v) (d <- of_value pv ;; Ok (VDict d)).
Proof.
  intros Hu Hr h1 Hp. apply (repr_in_prefix _ _ _ _ _ Hp) in Hr.
  apply (up_prefix _ _ _ Hp) in Hu.
  pose proof (run_dict_of Q h1 v pv Hu Hr) as Hrun.
  destruct (of_value pv) as [d|e]; simpl.
  - destruct Hrun as (hd & E & Hf).
    apply (fsim_intro _ _ _ _ _ _ E); [apply prefix_snoc|].
    now apply repr_new_dict.
  - now apply (fsim_intro _ _ _ _ _ _ Hrun).
Qed.

(** *** Displays *)

Lemma ssim_eval_fields Q h (fs : list (string * Heap.M Heap.hvalue))
  (prs : list (string * result value)) :
  Forall2 (fun ke kr => fst ke = fst kr /\
                        ssim (repr_in Q) h (snd ke) (snd kr)) fs prs ->
  ssim (fields Q) h (Heap.eval_fields fs) (field_results prs).
Proof.
  induction 1 as [|[k e] [k' r] fs prs [Hk He] _ IH]; simpl.
  - apply ssim_ret. constructor.
  - simpl in Hk, He. subst k'.
    eapply ssim_bind; [exact He|]. intros h1 x px Hp Hx.
    eapply ssim_bind; [apply (ssim_later _ h); eassumption|].
    intros h2 hd d Hp2 Hf. apply ssim_ret. intros h3 Hp3.
    constructor.
    + split; [reflexivity|]. simpl. eapply repr_in_prefix; [|exact Hx].
      now transitivity h2.
    + now apply (fields_prefix _ h2).
Qed.

Lemma ssim_display Q h (fs : list (string * Heap.M Heap.hvalue))
  (prs : list (string * result value)) :
  up Q h ->
  Forall2 (fun ke kr => fst ke = fst kr /\
                        ssim (repr_in Q) h (snd ke) (snd kr)) fs prs ->
  ssim (repr_in Q) h (Heap.display fs)
       (d <- field_results prs ;; Ok (VDict d)).
Proof.
  intros Hu Hfs. unfold Heap.display.
  eapply ssim_bind; [apply (ssim_eval_fields Q); exact Hfs|].
  intros h1 hd d Hp Hf. apply ssim_alloc_dict; [|assumption].
  now apply (up_prefix _ h).
Qed.

End Allocation.

Section Units.
Local Open Scope nat_scope.
Implicit Types (Q : nat -> Prop) (h : Heap.heap) (v : Heap.hvalue) (pv : value).
Implicit Types (hd : Heap.hdict) (d : dict) (k : string) (o : Heap.object).

(** *** [_drop_none] *)

Lemma run_is_empty_dict Q h v pv (t : Heap.heap) :
  repr_in Q h v pv ->
  Heap.is_empty_dict v (h ++ t)%list
  = (Heap.Done (match pv with VDict [] => true | _ => false end),
     (h ++ t)%list).
Proof.
  destruct pv as [| | | | |l|d]; try (simpl; intros ->; reflexivity).
  - rewrite repr_in_list. intros (a & hl & -> & _ & Hl & _).
    unfold Heap.is_empty_dict, Heap.bind, Heap.deref.
    now rewrite (lookup_app_l_Some _ _ _ _ Hl).
  - rewrite repr_in_dict. intros (a & hd & -> & _ & Hl & Hs).
    unfold Heap.is_empty_dict, Heap.bind, Heap.deref.
    rewrite (lookup_app_l_Some _ _ _ _ Hl). now destruct Hs.
Qed.

Lemma run_drop_item Q h k v pv (acc : Heap.hdict) :
  repr_in Q h v pv ->
  Heap.drop_item (Heap.HRef (length h)) (k, v) (h ++ [Heap.ODict acc])%list
  = (Heap.Done tt,
     (h ++ [Heap.ODict (if dropped pv then acc else setitem k v acc)])%list).
Proof.
  intros Hr.
  assert (Hnone : pv = VNone -> v = Heap.HNone) by now intros ->.
  assert (Hsome : pv <> VNone -> v <> Heap.HNone).
  { intros Hne ->.
    destruct pv; simpl in Hr; try congruence;
      destruct Hr as (a & ? & Hx & _); discriminate. }
  destruct pv as [| | | | |l|d]; try (rewrite Hnone by reflexivity; reflexivity).
  all: pose proof (run_is_empty_dict Q h v _ [Heap.ODict acc] Hr) as Hrun.
  all: assert (Hv : v <> Heap.HNone) by (apply Hsome; discriminate).
  all: unfold Heap.drop_item; cbn [fst snd].
  all: destruct v; try congruence.
  all: rewrite (bind_done _ _ _ _ _ Hrun).
  all: try apply run_setitem_last.
  all: destruct d; [reflexivity|apply run_setitem_last].
Qed.

Lemma dropped_repr Q h v pv :
  repr_in Q h v pv -> dropped pv = true -> v = Heap.HNone \/ pv = VDict [].
Proof.
  destruct pv as [| | | | | |[|]]; simpl; try discriminate; auto.
Qed.

Lemma run_drop_loop Q h hd d :
  fields Q h hd d ->
  forall (acc : Heap.hdict) (pacc : dict),
    fields Q h acc pacc ->
    exists acc',
      Heap.for_each (Heap.drop_item (Heap.HRef (length h))) hd
                    (h ++ [Heap.ODict acc])%list
      = (Heap.Done tt, (h ++ [Heap.ODict acc'])%list)
      /\ fields Q h acc' (fold_left drop_step d pacc).
Proof.
  induction 1 as [|[k v] [k' pv] hd d [Hk Hr] Hf IH]; intros acc pacc Hacc.
  - exists acc. now split.
  - simpl in Hk, Hr. subst k'. simpl.
    rewrite (bind_done _ _ _ _ _ (run_drop_item Q h k v pv acc Hr)).
    unfold drop_step at 2. simpl.
    apply IH. destruct (dropped pv); [assumption|].
    now apply fields_setitem.
Qed.

Lemma run__drop_none Q h v d :
  repr_in Q h v (VDict d) ->
  exists hd',
    Heap._drop_none v h
    = (Heap.Done (Heap.HRef (length h)), (h ++ [Heap.ODict hd'])%list)
    /\ fields Q h hd' (_drop_none d).
Proof.
  rewrite repr_in_dict. intros (a & hd & -> & _ & Hl & Hf).
  destruct (run_drop_loop Q h hd d Hf [] []) as (acc' & Hloop & Hacc);
    [constructor|].
  exists acc'. split; [|exact Hacc].
  unfold Heap._drop_none.
  rewrite (bind_done _ _ _ _ _ (run_alloc h _)).
  assert (Hm : Heap.mapping (Heap.HRef a) (h ++ [Heap.ODict []])%list
               = (Heap.Done hd, (h ++ [Heap.ODict []])%list)).
  { unfold Heap.mapping, Heap.bind, Heap.deref.
    now rewrite (lookup_app_l_Some _ _ _ _ Hl). }
  rewrite (bind_done _ _ _ _ _ Hm).
  now rewrite (bind_done _ _ _ _ _ Hloop).
Qed.

Lemma ssim__drop_none Q h v d :
  up Q h -> repr_in Q h v (VDict d) ->
  ssim (repr_in Q) h (Heap._drop_none v) (Ok (VDict (_drop_none d))).
Proof.
  intros Hu Hr h1 Hp. apply (repr_in_prefix _ _ _ _ _ Hp) in Hr.
  apply (up_prefix _ _ _ Hp) in Hu.
  destruct (run__drop_none Q h1 v d Hr) as (hd' & E & Hf).
  apply (fsim_intro _ _ _ _ _ _ E); [apply prefix_snoc|].
  now apply repr_new_dict.
Qed.

(** *** Copies that are changed in place *)

Lemma run_ret {A : Type} (a : A) h : Heap.ret a h = (Heap.Done a, h).
Proof. reflexivity. Qed.

Lemma ssim_team_out Q h (code : string) v pv :
  up Q h -> repr_in Q h v pv ->
  ssim (repr_in Q) h (Heap.team_out code v) (team_out code pv).
Proof.
  intros Hu Hr h1 Hp. apply (repr_in_prefix _ _ _ _ _ Hp) in Hr.
  apply (up_prefix _ _ _ Hp) in Hu.
  pose proof (run_dict_of Q h1 v pv Hu Hr) as Hrun.
  unfold team_out, Heap.team_out. destruct (of_value pv) as [d|e]; simpl.
  - destruct Hrun as (hd & E & Hf).
    eapply fsim_intro.
    + rewrite (bind_done _ _ _ _ _ E).
      rewrite (bind_done _ _ _ _ _ (run_setitem_last _ _ _ _)).
      rewrite (bind_done _ _ _ _ _ (run_pop_last _ _ _)). reflexivity.
    + apply prefix_snoc.
    + apply repr_new_dict; [assumption|].
      apply fields_pop, fields_setitem; [assumption|reflexivity].
  - apply (fsim_intro _ _ _ _ _ _ (bind_exc _ _ _ _ _ Hrun)); reflexivity.
Qed.

Lemma ssim_swimmer_out Q h (meet_id : string) v pv :
  up Q h -> repr_in Q h v pv ->
  ssim (repr_in Q) h (Heap.swimmer_out meet_id v) (swimmer_out meet_id pv).
Proof.
  intros Hu Hr h1 Hp. apply (repr_in_prefix _ _ _ _ _ Hp) in Hr.
  apply (up_prefix _ _ _ Hp) in Hu.
  pose proof (run_dict_of Q h1 v pv Hu Hr) as Hrun.
  unfold swimmer_out, Heap.swimmer_out.
  destruct (of_value pv) as [d|e]; simpl.
  - destruct Hrun as (hd & E & Hf).
    unfold coerce_meet_id, Heap.coerce_meet_id.
    destruct (PyStr.isdigit meet_id); [destruct (PyStr.py_int meet_id)|];
      simpl.
    + eapply fsim_intro.
      * rewrite (bind_done _ _ _ _ _ E).
        rewrite (bind_done _ _ _ _ _ (run_ret _ _)).
        rewrite (bind_done _ _ _ _ _ (run_setitem_last _ _ _ _)). reflexivity.
      * apply prefix_snoc.
      * apply repr_new_dict; [assumption|].
        apply fields_setitem; [assumption|reflexivity].
    + eapply fsim_intro.
      * rewrite (bind_done _ _ _ _ _ E). reflexivity.
      * apply prefix_snoc.
      * reflexivity.
    + eapply fsim_intro.
      * rewrite (bind_done _ _ _ _ _ E).
        rewrite (bind_done _ _ _ _ _ (run_ret _ _)).
        rewrite (bind_done _ _ _ _ _ (run_setitem_last _ _ _ _)). reflexivity.
      * apply prefix_snoc.
      * apply repr_new_dict; [assumption|].
        apply fields_setitem; [assumption|reflexivity].
  - apply (fsim_intro _ _ _ _ _ _ (bind_exc _ _ _ _ _ Hrun)); reflexivity.
Qed.

Lemma ssim_numbered Q h (event_number : string) v pv :
  up Q h -> repr_in Q h v pv ->
  ssim (repr_in Q) h (Heap.numbered event_number v)
       (d <- of_value pv ;;
        Ok (VDict (setitem "number" (VStr event_number) d))).
Proof.
  intros Hu Hr h1 Hp. apply (repr_in_prefix _ _ _ _ _ Hp) in Hr.
  apply (up_prefix _ _ _ Hp) in Hu.
  pose proof (run_dict_of Q h1 v pv Hu Hr) as Hrun.
  unfold Heap.numbered. destruct (of_value pv) as [d|e]; simpl.
  - destruct Hrun as (hd & E & Hf).
    eapply fsim_intro.
    + rewrite (bind_done _ _ _ _ _ E).
      rewrite (bind_done _ _ _ _ _ (run_setitem_last _ _ _ _)). reflexivity.
    + apply prefix_snoc.
    + apply repr_new_dict; [assumption|].
      apply fields_setitem; [assumption|reflexivity].
  - apply (fsim_intro _ _ _ _ _ _ (bind_exc _ _ _ _ _ Hrun)); reflexivity.
Qed.

End Units.

Section Loops.
Local Open Scope nat_scope.
Implicit Types (Q : nat -> Prop) (h g : Heap.heap) (v : Heap.hvalue) (pv : value).

Lemma prefix_of_agree h g :
  (forall a, a < length h -> g !! a = h !! a) -> length h <= length g ->
  h `prefix_of` g.
Proof.
  intros Hag Hl. exists (drop (length h) g).
  rewrite <- (take_drop (length h) g) at 1. f_equal.
  apply list_eq. intros i. destruct (decide (i < length h)) as [Hi|Hi].
  - rewrite lookup_take_lt by assumption. now apply Hag.
  - rewrite lookup_take_ge by lia. symmetry. apply lookup_ge_None. lia.
Qed.

Lemma run_append g (al : nat) (l : list Heap.hvalue) (x : Heap.hvalue) :
  g !! al = Some (Heap.OList l) ->
  Heap.append (Heap.HRef al) x g
  = (Heap.Done tt, <[al := Heap.OList (l ++ [x])%list]> g).
Proof.
  intros Hl. unfold Heap.append, Heap.bind, Heap.deref. now rewrite Hl.
Qed.

Lemma for_append_cons {A : Type} (lst : Heap.hvalue)
  (body : A -> Heap.M Heap.hvalue) (x : A) (xs : list A) :
  Heap.for_append lst body (x :: xs)
  = Heap.bind (Heap.bind (body x) (fun y => Heap.append lst y))
              (fun _ => Heap.for_append lst body xs).
Proof. reflexivity. Qed.

Section ForAppend.
Context {A B : Type} (Q' : nat -> Prop) (al : nat).
Context (body : A -> Heap.M Heap.hvalue) (pbody : B -> result value).
Context (Xr : Heap.heap -> A -> B -> Prop).
Hypothesis avoid : ~ Q' al.
Hypothesis transfer :
  forall g g' x px,
    (forall a, a < al -> g' !! a = g !! a) -> Xr g x px -> Xr g' x px.
Hypothesis body_sim :
  forall g x px,
    Xr g x px -> al < length g -> fsim (repr_in Q') g (body x) (pbody px).

Lemma run_for_append (xs : list A) :
  forall (pxs : list B) g (elems : list Heap.hvalue) (pelems : list value),
    Forall2 (Xr g) xs pxs ->
    g !! al = Some (Heap.OList elems) ->
    reprs Q' g elems pelems ->
    exists out g',
      Heap.for_append (Heap.HRef al) body xs g = (out, g') /\
      length g <= length g' /\
      (forall a, a < length g -> a <> al -> g' !! a = g !! a) /\
      match map_result pbody pxs with
      | Ok pys =>
          out = Heap.Done tt /\
          exists elems',
            g' !! al = Some (Heap.OList elems') /\
            reprs Q' g' elems' (pelems ++ pys)%list
      | Raise e => out = Heap.Exc e
      end.
Proof.
  induction xs as [|x xs IH]; intros pxs g elems pelems Hxs Hl He.
  - inversion Hxs; subst. exists (Heap.Done tt), g. simpl.
    repeat split; [lia|]. exists elems. now rewrite List.app_nil_r.
  - inversion Hxs as [|? px ? pxs' Hx Hxs']; subst.
    pose proof (lookup_lt_Some _ _ _ Hl) as Hal.
    destruct (fsim_elim _ _ _ _ (body_sim g x px Hx Hal))
      as (out1 & g1 & E1 & Hp1 & Ho1).
    rewrite for_append_cons. simpl map_result.
    destruct out1 as [y|e1|], (pbody px) as [py|e] eqn:Epx;
      simpl in Ho1; try contradiction.
    + assert (Hl1 : g1 !! al = Some (Heap.OList elems)).
      { rewrite (prefix_lookup g g1) by assumption. exact Hl. }
      set (g2 := <[al := Heap.OList (elems ++ [y])%list]> g1).
      assert (Hag : forall a, a <> al -> g2 !! a = g1 !! a).
      { intros a Ha. unfold g2. now rewrite list_lookup_insert_ne. }
      assert (Hlen1 : length g <= length g1) by now apply prefix_length.
      assert (Hlen2 : length g2 = length g1) by apply length_insert.
      destruct (IH pxs' g2 (elems ++ [y])%list (pelems ++ [py])%list)
        as (out & g' & E & Hlen & Hag' & Hres).
      * eapply Forall2_impl; [exact Hxs'|]. intros x' px' Hx'.
        apply (transfer g g2); [|assumption]. intros a Ha.
        rewrite Hag by lia. apply prefix_lookup; [assumption|lia].
      * unfold g2. apply list_lookup_insert_eq. lia.
      * assert (Hfr : forall a, Q' a -> a < length g1 ->
                                Q' a /\ g2 !! a = g1 !! a).
        { intros a Qa _. split; [assumption|]. apply Hag. congruence. }
        apply Forall2_app.
        -- apply (reprs_agree Q' Q' g1 g2 _ _ Hfr).
           now apply (reprs_prefix _ g).
        -- repeat constructor. now apply (repr_in_agree Q' Q' g1 g2).
      * exists out, g'. split; [|split; [lia|split]].
        -- assert (Ein : Heap.bind (body x)
                                   (fun y => Heap.append (Heap.HRef al) y) g
                         = (Heap.Done tt, g2)).
           { rewrite (bind_done _ _ _ _ _ E1).
             apply (run_append g1 al elems y Hl1). }
           now rewrite (bind_done _ _ _ _ _ Ein).
        -- intros a Ha Hne. rewrite Hag' by (assumption || lia).
           rewrite Hag by assumption. now apply prefix_lookup.
        -- unfold bind at 1.
           destruct (map_result pbody pxs') as [pys|e]; simpl;
             [|assumption].
           destruct Hres as (-> & elems' & Hl' & He').
           split; [reflexivity|]. exists elems'. split; [assumption|].
           now rewrite <- List.app_assoc in He'.
    + subst e1. exists (Heap.Exc e), g1. repeat split.
      * exact (bind_exc _ _ _ _ _ (bind_exc _ _ _ _ _ E1)).
      * now apply prefix_length.
      * intros a Ha _. now apply prefix_lookup.
Qed.

End ForAppend.

End Loops.

Section Collect.
Local Open Scope nat_scope.
Implicit Types (Q P : nat -> Prop) (h g : Heap.heap).

(** A list built by a loop.  [X P g] relates an item of the loop over the
    store with an item over trees, reading objects in [P] only. *)
Lemma ssim_collect {A B : Type} Q h
  (pre : Heap.M (list A)) (ppre : result (list B))
  (body : A -> Heap.M Heap.hvalue) (pbody : B -> result value)
  (X : (nat -> Prop) -> Heap.heap -> A -> B -> Prop) :
  up Q h ->
  (forall P P' g g' x px,
     (forall a, P a -> a < length g -> P' a /\ g' !! a = g !! a) ->
     X P g x px -> X P' g' x px) ->
  (forall h1 g,
     h `prefix_of` h1 -> h1 `prefix_of` g ->
     fsim (fun g' xs pxs =>
             Forall2 (X (fun a => Q a /\ a < length h1) g') xs pxs)
          g pre ppre) ->
  (forall P g x px,
     up P g -> X P g x px -> fsim (repr_in P) g (body x) (pbody px)) ->
  ssim (fun g v pys => repr_in Q g v (VList pys)) h (Heap.collect pre body)
       (pxs <- ppre ;; map_result pbody pxs).
Proof.
  intros Hu HX Hpre Hbody h1 Hp1.
  apply (up_prefix _ _ _ Hp1) in Hu.
  set (al := length h1).
  set (Qb := fun a => Q a /\ a < al).
  set (Q' := fun a => (Q a /\ a < al) \/ al < a).
  destruct (fsim_elim _ _ _ _
              (Hpre h1 (h1 ++ [Heap.OList []])%list Hp1 (prefix_snoc _ _)))
    as (outp & gp & Ep & Hpp & Hop).
  assert (Hh1gp : h1 `prefix_of` gp).
  { transitivity (h1 ++ [Heap.OList []])%list; [apply prefix_snoc|assumption]. }
  destruct outp as [xs|ep|], ppre as [pxs|e]; simpl in Hop; try contradiction.
  2:{ subst ep.
      assert (Erun : Heap.collect pre body h1 = (Heap.Exc e, gp)).
      { unfold Heap.collect. rewrite (bind_done _ _ _ _ _ (run_alloc h1 _)).
        exact (bind_exc _ _ _ _ _ Ep). }
      apply (fsim_intro _ _ _ _ _ _ Erun); [assumption|reflexivity]. }
  simpl.
  assert (Hl : gp !! al = Some (Heap.OList [])).
  { rewrite (prefix_lookup _ _ _ Hpp).
    - apply lookup_last.
    - rewrite length_app. simpl. unfold al. lia. }
  destruct (run_for_append Q' al body pbody (X Qb)) with
    (xs := xs) (pxs := pxs) (g := gp) (elems := @nil Heap.hvalue)
    (pelems := @nil value)
    as (out & g' & E & Hlen & Hag & Hres).
  - unfold Q'. lia.
  - intros g1 g2 x px Hag. apply HX. intros a [Qa Ha] _.
    split; [now split|now apply Hag].
  - intros g1 x px Hx Hal. apply Hbody.
    + intros a Ha. right. lia.
    + revert Hx. apply HX. intros a [Qa Ha] _. split; [now left|reflexivity].
  - exact Hop.
  - exact Hl.
  - constructor.
  - assert (Hpg : h1 `prefix_of` g').
    { apply prefix_of_agree.
      - intros a Ha. rewrite Hag.
        + now apply prefix_lookup.
        + apply prefix_length in Hh1gp. lia.
        + unfold al. lia.
      - apply prefix_length in Hh1gp. lia. }
    destruct (map_result pbody pxs) as [pys|e]; simpl.
    + destruct Hres as (-> & elems' & Hl' & He').
      assert (Erun : Heap.collect pre body h1
                     = (Heap.Done (Heap.HRef al), g')).
      { unfold Heap.collect. rewrite (bind_done _ _ _ _ _ (run_alloc h1 _)).
        rewrite (bind_done _ _ _ _ _ Ep).
        now rewrite (bind_done _ _ _ _ _ E). }
      apply (fsim_intro _ _ _ _ _ _ Erun); [exact Hpg|].
      apply repr_in_list. exists al, elems'.
      repeat split; [apply Hu; unfold al; lia|assumption|].
      eapply reprs_agree; [|exact He']. intros a Qa _.
      split; [|reflexivity]. destruct Qa as [[Qa _]|Ha]; [assumption|].
      apply Hu. unfold al in Ha. lia.
    + subst out.
      assert (Erun : Heap.collect pre body h1 = (Heap.Exc e, g')).
      { unfold Heap.collect. rewrite (bind_done _ _ _ _ _ (run_alloc h1 _)).
        rewrite (bind_done _ _ _ _ _ Ep).
        exact (bind_exc _ _ _ _ _ E). }
      apply (fsim_intro _ _ _ _ _ _ Erun); [assumption|reflexivity].
Qed.

End Collect.

Section Steps.
Local Open Scope nat_scope.
Implicit Types (Q P : nat -> Prop) (h g : Heap.heap) (v : Heap.hvalue) (pv : value).
Implicit Types (d : dict) (k : string).

Lemma bind_assoc {A B C : Type} (m : result A) (f : A -> result B)
  (g : B -> result C) :
  bind (bind m f) g = bind m (fun x => bind (f x) g).
Proof. now destruct m. Qed.

Lemma ssim_pure_eq {A B : Type} (R : Heap.heap -> A -> B -> Prop) h
  (m : Heap.M A) (r r' : result B) :
  r = r' -> ssim R h m r -> ssim R h m r'.
Proof. now intros ->. Qed.

Lemma ssim_get_at Q h0 h v d k :
  h0 `prefix_of` h -> repr_in Q h0 v (VDict d) ->
  ssim (repr_in Q) h (Heap.get_ v k) (Ok (get d k)).
Proof.
  intros Hp Hr. apply (ssim_later _ h0); [assumption|].
  exact (ssim_get_ Q h0 v (VDict d) k Hr).
Qed.

Lemma ssim_ret_at Q h0 h v pv :
  h0 `prefix_of` h -> repr_in Q h0 v pv ->
  ssim (repr_in Q) h (Heap.ret v) (Ok pv).
Proof.
  intros Hp Hr. apply ssim_ret. intros h1 Hp1.
  eapply repr_in_prefix; [|exact Hr]. now transitivity h.
Qed.

Lemma ssim_ret_none Q h : ssim (repr_in Q) h (Heap.ret Heap.HNone) (Ok VNone).
Proof. apply ssim_ret. reflexivity. Qed.

Lemma ssim_ret_str Q h (s : string) :
  ssim (repr_in Q) h (Heap.ret (Heap.HStr s)) (Ok (VStr s)).
Proof. apply ssim_ret. reflexivity. Qed.

Lemma field_results_values (d : dict) :
  field_results (List.map (fun kv => (fst kv, Ok (snd kv))) d) = Ok d.
Proof.
  induction d as [|[k x] d IH]; simpl; [reflexivity|]. now rewrite IH.
Qed.

(** A display whose fields are values. *)
Lemma ssim_display_values Q h (fs : list (string * Heap.M Heap.hvalue)) d :
  up Q h ->
  Forall2 (fun ke kv => fst ke = fst kv /\
                        ssim (repr_in Q) h (snd ke) (Ok (snd kv))) fs d ->
  ssim (repr_in Q) h (Heap.display fs) (Ok (VDict d)).
Proof.
  intros Hu Hfs.
  apply (ssim_pure_eq _ _ _
           (c <- field_results (List.map (fun kv => (fst kv, Ok (snd kv))) d) ;;
            Ok (VDict c))).
  { now rewrite field_results_values. }
  apply ssim_display; [assumption|].
  induction Hfs as [|ke kv fs d [Hk He] _ IH]; simpl; constructor; auto.
Qed.

(** A display that is pruned at once. *)
Lemma ssim_pruned Q h (fs : list (string * Heap.M Heap.hvalue))
  (prs : list (string * result value)) :
  up Q h ->
  Forall2 (fun ke kr => fst ke = fst kr /\
                        ssim (repr_in Q) h (snd ke) (snd kr)) fs prs ->
  ssim (repr_in Q) h (Heap.bind (Heap.display fs) Heap._drop_none)
       (d <- field_results prs ;; Ok (VDict (_drop_none d))).
Proof.
  intros Hu Hfs.
  apply (ssim_pure_eq _ _ _
           (c <- (d <- field_results prs ;; Ok (VDict d)) ;;
            match c with
            | VDict d => Ok (VDict (_drop_none d))
            | _ => Raise TypeError
            end)).
  { now destruct (field_results prs). }
  eapply ssim_bind_eq; [exact (ssim_display Q h fs prs Hu Hfs)|].
  intros h1 c pc Hp Hc Hr.
  destruct (field_results prs) as [d|e]; [|discriminate].
  injection Hc as <-. apply ssim__drop_none; [|assumption].
  now apply (up_prefix _ h).
Qed.

Lemma ssim_pruned_values Q h (fs : list (string * Heap.M Heap.hvalue)) d :
  up Q h ->
  Forall2 (fun ke kv => fst ke = fst kv /\
                        ssim (repr_in Q) h (snd ke) (Ok (snd kv))) fs d ->
  ssim (repr_in Q) h (Heap.bind (Heap.display fs) Heap._drop_none)
       (Ok (VDict (_drop_none d))).
Proof.
  intros Hu Hfs.
  apply (ssim_pure_eq _ _ _
           (c <- field_results (List.map (fun kv => (fst kv, Ok (snd kv))) d) ;;
            Ok (VDict (_drop_none c)))).
  { now rewrite field_results_values. }
  apply ssim_pruned; [assumption|].
  induction Hfs as [|ke kv fs d [Hk He] _ IH]; simpl; constructor; auto.
Qed.

(** A fact about an object of [h] still holds, and reads below [h1] only,
    in every store that extends [h1]. *)
Lemma repr_in_restrict Q h h1 g v pv :
  h `prefix_of` h1 -> h1 `prefix_of` g -> repr_in Q h v pv ->
  repr_in (fun a => Q a /\ a < length h1) g v pv.
Proof.
  intros Hp1 Hp2 Hr. apply (repr_in_prefix _ h1); [assumption|].
  apply (repr_in_prefix _ h); [assumption|].
  apply repr_in_bounded in Hr. revert Hr. apply repr_in_mono.
  intros a [Qa Ha]. split; [assumption|]. apply prefix_length in Hp1. lia.
Qed.

Lemma ssim_as_dict Q h (m : Heap.M Heap.hvalue) (r : result dict) :
  ssim (repr_in Q) h m (d <- r ;; Ok (VDict d)) ->
  ssim (fun g v d => repr_in Q g v (VDict d)) h m r.
Proof.
  intros Hs h1 Hp. destruct (Hs h1 Hp) as [Hp1 Ho]. split; [assumption|].
  destruct (fst (m h1)), r; simpl in *; auto.
Qed.

Lemma ssim_as_list Q h (m : Heap.M Heap.hvalue) (r : result (list value)) :
  ssim (repr_in Q) h m (l <- r ;; Ok (VList l)) ->
  ssim (fun g v l => repr_in Q g v (VList l)) h m r.
Proof.
  intros Hs h1 Hp. destruct (Hs h1 Hp) as [Hp1 Ho]. split; [assumption|].
  destruct (fst (m h1)), r; simpl in *; auto.
Qed.

End Steps.

(** The chain of stores of a sequence of steps. *)
Ltac solve_prefix :=
  solve [ reflexivity
        | assumption
        | etransitivity; [|eassumption]; solve_prefix ].

Ltac solve_up :=
  match goal with
  | Hu : up ?Q ?h |- up _ ?h' =>
      exact (up_prefix Q h h' ltac:(solve_prefix) Hu)
  end.

(** The fields of a display whose values are at hand. *)
Ltac field_leaf :=
  first [ eapply ssim_get_at; [|eassumption]; solve_prefix
        | apply ssim_ret_none
        | apply ssim_ret_str
        | eapply ssim_ret_at; [|eassumption]; solve_prefix ].

Ltac value_fields tac :=
  repeat (apply List.Forall2_cons; [split; [reflexivity|cbn [snd]; first [tac|field_leaf]]|]);
  apply List.Forall2_nil.

Section Functions.
Local Open Scope nat_scope.
Implicit Types (Q P : nat -> Prop) (h g : Heap.heap) (v : Heap.hvalue) (pv : value).
Implicit Types (d : dict) (k : string).

Lemma ssim_empty_dict Q h :
  up Q h -> ssim (repr_in Q) h (Heap.alloc (Heap.ODict [])) (Ok (VDict [])).
Proof. intros Hu. apply ssim_alloc_dict; [assumption|constructor]. Qed.

Lemma ssim_empty_list Q h :
  up Q h -> ssim (repr_in Q) h (Heap.alloc (Heap.OList [])) (Ok (VList [])).
Proof. intros Hu. apply ssim_alloc_list; [assumption|constructor]. Qed.

Lemma ssim_mapping_of Q h v d (name : string) :
  up Q h -> repr_in Q h v (VDict d) ->
  ssim (repr_in Q) h (Heap.mapping_of v name)
       (Ok (py_or (get_default d name (VDict [])) (VDict []))).
Proof.
  intros Hu Hr. unfold Heap.mapping_of.
  eapply ssim_step.
  - apply (ssim_get_default_ Q h v (VDict d) name _ (VDict []) Hr).
    now apply ssim_empty_dict.
  - intros h1 got Hp Hgot. apply ssim_py_or; [assumption|].
    apply ssim_empty_dict. now apply (up_prefix _ h).
Qed.

Lemma ssim_flag Q h0 h v d k :
  h0 `prefix_of` h -> repr_in Q h0 v (VDict d) ->
  ssim (repr_in Q) h (Heap.flag v k)
       (Ok (VBool (truthy (get_default d k (VBool false))))).
Proof.
  intros Hp Hr. apply (repr_in_prefix _ _ _ _ _ Hp) in Hr. unfold Heap.flag.
  eapply ssim_step.
  - apply (ssim_get_default_ Q h v (VDict d) k _ (VBool false) Hr).
    apply ssim_ret. reflexivity.
  - intros h1 x Hp1 Hx.
    eapply ssim_step; [apply (ssim_truthy Q); exact Hx|].
    intros h2 b Hp2 ->. apply ssim_ret. reflexivity.
Qed.

Lemma ssim_file_section Q h v d :
  up Q h -> repr_in Q h v (VDict d) ->
  ssim (repr_in Q) h (Heap.file_section v) (Ok (VDict (file_section d))).
Proof.
  intros Hu Hr. unfold Heap.file_section, file_section.
  apply ssim_display_values; [assumption|]. value_fields fail.
Qed.

Lemma ssim_seed_of Q h v d :
  up Q h -> repr_in Q h v (VDict d) ->
  ssim (repr_in Q) h (Heap.seed_of v) (Ok (VDict (seed_of d))).
Proof.
  intros Hu Hr. unfold Heap.seed_of, seed_of.
  apply ssim_pruned_values; [assumption|]. value_fields fail.
Qed.

Lemma ssim_dq_of Q h v pv :
  up Q h -> repr_in Q h v pv ->
  ssim (repr_in Q) h (Heap.dq_of v) (dq_of pv).
Proof.
  intros Hu Hr. unfold Heap.dq_of, dq_of.
  eapply ssim_step; [apply (ssim_truthy Q); exact Hr|].
  intros h1 b Hp ->. destruct (truthy pv); [|apply ssim_ret_none].
  apply (up_prefix _ _ _ Hp) in Hu.
  apply (ssim_pure_eq _ _ _
           (c <- field_results
                   [("code", pd <- items pv ;; Ok (get pd "code"));
                    ("info", pd <- items pv ;; Ok (get pd "info_str"))] ;;
            Ok (VDict (_drop_none c)))).
  { now destruct (items pv). }
  apply ssim_pruned; [assumption|].
  repeat (apply List.Forall2_cons;
          [split; [reflexivity|cbn [snd]; apply (ssim_later _ h);
                                [assumption|now apply ssim_get_]]|]).
  apply List.Forall2_nil.
Qed.

Lemma ssim_build_leg Q h0 h v d (prefix : string) :
  up Q h -> h0 `prefix_of` h -> repr_in Q h0 v (VDict d) ->
  ssim (repr_in Q) h (Heap.build_leg v prefix) (build_leg d prefix).
Proof.
  intros Hu Hp0 Hr. unfold Heap.build_leg, build_leg. cbv zeta.
  eapply ssim_step; [eapply ssim_get_at; [|eassumption]; solve_prefix|].
  intros h1 dq_info Hp1 Hinfo.
  eapply ssim_bind.
  { apply ssim_dq_of; [|exact Hinfo]. now apply (up_prefix _ h). }
  intros h2 dq pdq Hp2 Hdq.
  eapply (ssim_step _ _ _ _ _ (VDict (leg_candidate d prefix pdq))).
  { apply ssim_display_values.
    - solve_up.
    - unfold leg_candidate. value_fields fail. }
  intros h3 c Hp3 Hc.
  eapply ssim_step.
  { apply ssim__drop_none; [solve_up|exact Hc]. }
  intros h4 leg Hp4 Hleg.
  apply ssim_py_or; [assumption|apply ssim_ret_none].
Qed.

End Functions.

Section Entries.
Local Open Scope nat_scope.
Implicit Types (Q P : nat -> Prop) (h g : Heap.heap) (v : Heap.hvalue) (pv : value).
Implicit Types (d : dict) (k : string).

Lemma ssim_swimmer_ids Q h v pv :
  up Q h -> repr_in Q h v pv ->
  ssim (fun g x ids => repr_in Q g x (VList ids)) h (Heap.swimmer_ids v)
       (entry <- items pv ;; swimmer_ids entry).
Proof.
  intros Hu Hr. unfold Heap.swimmer_ids.
  apply (ssim_pure_eq _ _ _
           (got <- (d <- items pv ;;
                    Ok (get_default d "swimmers" (VList []))) ;;
            sw <- py_iter (py_or got (VList [])) ;;
            map_result (fun s => s_map <- items s ;; Ok (get s_map "meet_id"))
                       sw)).
  { now destruct (items pv). }
  eapply ssim_bind.
  { apply (ssim_get_default_ Q h v pv "swimmers" _ (VList []) Hr).
    now apply ssim_empty_list. }
  intros h1 got pgot Hp1 Hgot.
  eapply ssim_step.
  { apply (ssim_py_or Q h1 got pgot _ (VList []) Hgot).
    apply ssim_empty_list. solve_up. }
  intros h2 s Hp2 Hs.
  apply (ssim_collect Q h2 _ _ _ _ (fun P g x px => repr_in P g x px)).
  - solve_up.
  - intros P P' g g' x px Hag. now apply repr_in_agree.
  - intros h3 g Hp3 Hpg.
    apply (ssim_iter _ g s (py_or pgot (VList []))); [|reflexivity].
    now apply (repr_in_restrict Q h2 h3 g).
  - intros P g x px HuP Hx. apply ssim_here. now apply ssim_get_.
Qed.

Lemma entry_out_fields (entry : dict) :
  entry_out (VDict entry)
  = (ids <- swimmer_ids entry ;;
     c <- field_results
           [("swimmers", Ok (VList ids));
            ("relay",
             Ok (VBool (truthy (get_default entry "relay" (VBool false)))));
            ("seed", Ok (py_or (VDict (seed_of entry)) VNone));
            ("prelim", build_leg entry "prelim");
            ("swimoff", build_leg entry "swimoff");
            ("finals", build_leg entry "finals");
            ("event_number", Ok (get entry "event_number"))] ;;
     Ok (VDict (_drop_none c))).
Proof.
  unfold entry_out. simpl. destruct (swimmer_ids entry); simpl; [|reflexivity].
  destruct (build_leg entry "prelim"); simpl; [|reflexivity].
  destruct (build_leg entry "swimoff"); simpl; [|reflexivity].
  now destruct (build_leg entry "finals").
Qed.

Lemma ssim_entry_out Q h v pv :
  up Q h -> repr_in Q h v pv ->
  ssim (repr_in Q) h (Heap.entry_out v) (entry_out pv).
Proof.
  intros Hu Hr. unfold Heap.entry_out.
  pose proof (ssim_swimmer_ids Q h v pv Hu Hr) as Hids.
  destruct pv as [| | | | | |entry];
    try (eapply (ssim_bind_eq _ _ _ _ _ (Raise AttributeError) (fun _ => Ok VNone));
         [exact Hids|discriminate]).
  rewrite entry_out_fields.
  eapply ssim_bind; [exact Hids|]. clear Hids.
  intros h1 ids_ref ids Hp1 Hids. cbv beta in Hids.
  eapply ssim_step.
  { apply (ssim_later _ h); [assumption|].
    exact (ssim_seed_of Q h v entry Hu Hr). }
  intros h2 seed Hp2 Hseed.
  apply ssim_pruned; [solve_up|].
  value_fields ltac:(first
    [ eapply ssim_flag; [|eassumption]; solve_prefix
    | eapply ssim_build_leg; [solve_up| |eassumption]; solve_prefix
    | apply ssim_py_or; [assumption|apply ssim_ret_none] ]).
Qed.

End Entries.

Section Events.
Local Open Scope nat_scope.
Implicit Types (Q P : nat -> Prop) (h g : Heap.heap) (v : Heap.hvalue) (pv : value).
Implicit Types (d : dict) (k : string).

Lemma run_py_or {A : Type} g v (b : bool) (w : Heap.M Heap.hvalue)
  (k : Heap.hvalue -> Heap.M A) :
  Heap.truthy v g = (Heap.Done b, g) ->
  Heap.bind (Heap.py_or v w) k g
  = if b then k v g else Heap.bind w k g.
Proof.
  intros Ht. unfold Heap.py_or, Heap.bind at 1 2. rewrite Ht.
  destruct b; reflexivity.
Qed.

Lemma run_iter_new g :
  Heap.bind (Heap.alloc (Heap.OList [])) Heap.iter g
  = (Heap.Done [], (g ++ [Heap.OList []])%list).
Proof.
  rewrite (bind_done _ _ _ _ _ (run_alloc g _)).
  unfold Heap.iter. now rewrite (bind_done _ _ _ _ _ (run_deref_last g _)).
Qed.

(** The items of the loop over the entries are read from the event: the
    lists allocated for the defaults are empty. *)
Lemma fsim_entries_of P g v d :
  repr_in P g v (VDict d) ->
  fsim (fun g' xs pxs => Forall2 (repr_in P g') xs pxs) g
       (Heap.entries_of v)
       (py_iter (py_or (get_default d "entries" (VList [])) (VList []))).
Proof.
  intros Hr. apply repr_in_dict in Hr as (a & hd & -> & _ & Hl & Hf).
  set (g1 := (g ++ [Heap.OList []])%list).
  assert (Hgd : Heap.get_default_ (Heap.HRef a) "entries"
                  (Heap.alloc (Heap.OList [])) g
                = (Heap.Done (get_default hd "entries"
                                (Heap.HRef (length g))), g1)).
  { assert (Hm : Heap.mapping (Heap.HRef a) g = (Heap.Done hd, g)).
    { unfold Heap.mapping, Heap.bind, Heap.deref. now rewrite Hl. }
    unfold Heap.get_default_. rewrite (bind_done _ _ _ _ _ Hm).
    now rewrite (bind_done _ _ _ _ _ (run_alloc g _)). }
  assert (Hnew : Heap.bind (Heap.alloc (Heap.OList [])) Heap.iter g1
                 = (Heap.Done [], (g1 ++ [Heap.OList []])%list))
    by apply run_iter_new.
  assert (Hpre : g `prefix_of` (g1 ++ [Heap.OList []])%list).
  { transitivity g1; apply prefix_snoc. }
  pose proof (fields_find P g hd d "entries" Hf) as Hfind.
  assert (Hrun : forall out g',
             Heap.bind (Heap.py_or (get_default hd "entries"
                                      (Heap.HRef (length g)))
                          (Heap.alloc (Heap.OList []))) Heap.iter g1
             = (out, g') ->
             Heap.entries_of (Heap.HRef a) g = (out, g')).
  { intros out g' E. unfold Heap.entries_of.
    now rewrite (bind_done _ _ _ _ _ Hgd). }
  unfold get_default in *.
  destruct (find "entries" hd) as [x|], (find "entries" d) as [px|];
    try contradiction.
  - assert (Hx : repr_in P g1 x px).
    { eapply repr_in_prefix; [apply prefix_snoc|exact Hfind]. }
    pose proof (run_truthy P g1 x px Hx) as Ht.
    unfold py_or. destruct (truthy px).
    + destruct (fsim_elim _ _ _ _
                  (ssim_iter P g1 x px Hx g1 (reflexivity _)))
        as (out & g' & Ei & Hp & Ho).
      eapply fsim_intro.
      * apply Hrun. rewrite (run_py_or _ _ _ _ _ Ht). exact Ei.
      * transitivity g1; [apply prefix_snoc|assumption].
      * exact Ho.
    + eapply fsim_intro.
      * apply Hrun. rewrite (run_py_or _ _ _ _ _ Ht). exact Hnew.
      * exact Hpre.
      * constructor.
  - assert (Ht : Heap.truthy (Heap.HRef (length g)) g1
                 = (Heap.Done false, g1)).
    { unfold Heap.truthy, g1.
      now rewrite (bind_done _ _ _ _ _ (run_deref_last g _)). }
    eapply fsim_intro.
    + apply Hrun. rewrite (run_py_or _ _ _ _ _ Ht). exact Hnew.
    + exact Hpre.
    + constructor.
Qed.

Lemma ssim_numbered_as_dict Q h (event_number : string) v pv :
  up Q h -> repr_in Q h v pv ->
  ssim (fun g x d =>
          repr_in Q g x (VDict (setitem "number" (VStr event_number) d)))
       h (Heap.numbered event_number v) (of_value pv).
Proof.
  intros Hu Hr h1 Hp.
  destruct (ssim_numbered Q h event_number v pv Hu Hr h1 Hp) as [Hp1 Ho].
  split; [assumption|].
  destruct (fst (Heap.numbered event_number v h1)), (of_value pv);
    simpl in *; auto.
Qed.

Lemma ssim_event_out Q h (event_number : string) v pv :
  up Q h -> repr_in Q h v pv ->
  ssim (repr_in Q) h (Heap.event_out event_number v)
       (event_out event_number pv).
Proof.
  intros Hu Hr. unfold Heap.event_out, event_out.
  eapply ssim_bind;
    [exact (ssim_numbered_as_dict Q h event_number v pv Hu Hr)|].
  intros h1 e_map d0 Hp1 He. cbv beta zeta in *.
  set (pe := setitem "number" (VStr event_number) d0) in *.
  apply (ssim_pure_eq _ _ _
           (reshaped <-
              (entries <-
                 py_iter (py_or (get_default pe "entries" (VList []))
                                (VList [])) ;;
               map_result entry_out entries) ;;
            Ok (VDict (_drop_none (event_candidate pe reshaped))))).
  { apply bind_assoc. }
  eapply ssim_bind.
  { apply (ssim_collect Q h1 _ _ _ _ (fun P g x px => repr_in P g x px)).
    - solve_up.
    - intros P P' g g' x px Hag. now apply repr_in_agree.
    - intros h2 g Hp2 Hpg. apply fsim_entries_of.
      now apply (repr_in_restrict Q h1 h2 g).
    - intros P g x px HuP Hx. apply ssim_here. now apply ssim_entry_out. }
  intros h2 reshaped preshaped Hp2 Hre. cbv beta in Hre.
  apply ssim_pruned_values; [solve_up|].
  unfold event_candidate.
  value_fields ltac:(eapply ssim_flag; [|eassumption]; solve_prefix).
Qed.

End Events.

Section PostProcess.
Local Open Scope nat_scope.
Implicit Types (Q P : nat -> Prop) (h g : Heap.heap) (v : Heap.hvalue) (pv : value).
Implicit Types (d : dict) (k : string).

Lemma ssim_bind_assoc {A A' B' C C' : Type}
  (R : Heap.heap -> A -> B' -> Prop) (S : Heap.heap -> C -> C' -> Prop) h
  (m : Heap.M A) (k : A -> Heap.M C) (r : result A') (f : A' -> result B')
  (kp : B' -> result C') :
  ssim R h m (x <- r ;; f x) ->
  (forall h1 a b, h `prefix_of` h1 -> R h1 a b -> ssim S h1 (k a) (kp b)) ->
  ssim S h (Heap.bind m k) (x <- r ;; y <- f x ;; kp y).
Proof.
  intros Hm Hk.
  apply (ssim_pure_eq _ _ _ (y <- (x <- r ;; f x) ;; kp y)).
  { apply bind_assoc. }
  now apply (ssim_bind R).
Qed.

Lemma ssim_ok_dict Q h (m : Heap.M Heap.hvalue) d :
  ssim (repr_in Q) h m (Ok (VDict d)) ->
  ssim (fun g v out => repr_in Q g v (VDict out)) h m (Ok d).
Proof. intros Hs. now apply ssim_as_dict. Qed.

Lemma ssim_get_default_at Q h0 h v d k (dflt : Heap.M Heap.hvalue)
  (pdflt : value) :
  h0 `prefix_of` h -> repr_in Q h0 v (VDict d) ->
  ssim (repr_in Q) h dflt (Ok pdflt) ->
  ssim (repr_in Q) h (Heap.get_default_ v k dflt) (Ok (get_default d k pdflt)).
Proof.
  intros Hp Hr Hd. apply (repr_in_prefix _ _ _ _ _ Hp) in Hr.
  exact (ssim_get_default_ Q h v (VDict d) k dflt pdflt Hr Hd).
Qed.

Lemma ssim__drop_none_at Q h0 h v d :
  up Q h -> h0 `prefix_of` h -> repr_in Q h0 v (VDict d) ->
  ssim (repr_in Q) h (Heap._drop_none v) (Ok (VDict (_drop_none d))).
Proof.
  intros Hu Hp Hr. apply (repr_in_prefix _ _ _ _ _ Hp) in Hr.
  now apply ssim__drop_none.
Qed.

Lemma pair_repr_agree P P' g g' x px :
  (forall a, P a -> a < length g -> P' a /\ g' !! a = g !! a) ->
  pair_repr P g x px -> pair_repr P' g' x px.
Proof. intros Hag [Hk Hr]. split; [assumption|]. revert Hr. now apply repr_in_agree. Qed.

Lemma ssim_items_loop Q h v pv
  (body : string * Heap.hvalue -> Heap.M Heap.hvalue)
  (pbody : string * value -> result value) :
  up Q h -> repr_in Q h v pv ->
  (forall P g x px, up P g -> pair_repr P g x px ->
                    fsim (repr_in P) g (body x) (pbody px)) ->
  ssim (fun g x ys => repr_in Q g x (VList ys)) h
       (Heap.collect (Heap.mapping v) body)
       (pxs <- items pv ;; map_result pbody pxs).
Proof.
  intros Hu Hr Hbody.
  apply (ssim_collect Q h _ _ _ _ pair_repr); [assumption| | |assumption].
  - intros P P' g g' x px. apply pair_repr_agree.
  - intros h1 g Hp1 Hpg.
    apply (ssim_mapping (fun a => Q a /\ a < length h1) g v pv);
      [|reflexivity].
    now apply (repr_in_restrict Q h h1 g).
Qed.

Lemma ssim_sorted_loop Q h v pv
  (body : string * Heap.hvalue -> Heap.M Heap.hvalue)
  (pbody : string * value -> result value) :
  up Q h -> repr_in Q h v pv ->
  (forall P g x px, up P g -> pair_repr P g x px ->
                    fsim (repr_in P) g (body x) (pbody px)) ->
  ssim (fun g x ys => repr_in Q g x (VList ys)) h
       (Heap.collect (Heap._sorted_events v) body)
       (events <- items pv ;; map_result pbody (_sorted_events events)).
Proof.
  intros Hu Hr Hbody.
  apply (ssim_pure_eq _ _ _
           (pxs <- (events <- items pv ;; Ok (_sorted_events events)) ;;
            map_result pbody pxs)).
  { now destruct (items pv). }
  apply (ssim_collect Q h _ _ _ _ pair_repr); [assumption| | |assumption].
  - intros P P' g g' x px. apply pair_repr_agree.
  - intros h1 g Hp1 Hpg. unfold Heap._sorted_events.
    apply ssim_here.
    eapply ssim_bind.
    + apply (ssim_mapping (fun a => Q a /\ a < length h1) g v pv).
      now apply (repr_in_restrict Q h h1 g).
    + intros h2 hd d _ Hf. apply ssim_ret. intros h3 Hp3.
      apply fields_sorted. revert Hf. now apply fields_prefix.
Qed.

Lemma ssim__post_process Q h p (parsed : dict) :
  up Q h -> repr_in Q h p (VDict parsed) ->
  ssim (fun g v out => repr_in Q g v (VDict out)) h
       (Heap._post_process p) (_post_process parsed).
Proof.
  intros Hu Hr. unfold Heap._post_process, _post_process. cbv zeta.
  eapply ssim_step; [exact (ssim_file_section Q h p parsed Hu Hr)|].
  intros h1 fsec Hp1 Hfsec.
  eapply ssim_step.
  { eapply ssim_get_default_at; [|eassumption|]; [solve_prefix|].
    apply ssim_empty_dict. solve_up. }
  intros h2 got Hp2 Hgot.
  eapply ssim_bind.
  { apply ssim_as_dict. apply ssim_dict_of; [solve_up|exact Hgot]. }
  intros h3 meet pmeet Hp3 Hmeet. cbv beta in Hmeet.
  eapply ssim_step.
  { apply (ssim_mapping_of Q h3 meet pmeet "teams"); [solve_up|exact Hmeet]. }
  intros h4 teams Hp4 Hteams. unfold mapping_of at 1.
  eapply ssim_bind_assoc.
  { apply ssim_items_loop; [solve_up|exact Hteams|].
    intros P g x px HuP [Hk Hx]. rewrite Hk. apply ssim_here.
    now apply ssim_team_out. }
  intros h5 teams_list pteams Hp5 Hteams_list. cbv beta in Hteams_list.
  eapply ssim_step.
  { eapply (ssim_mapping_of Q h5 meet pmeet "swimmers"); [solve_up|].
    eapply repr_in_prefix; [|exact Hmeet]. solve_prefix. }
  intros h6 swimmers Hp6 Hswimmers. unfold mapping_of at 1.
  eapply ssim_bind_assoc.
  { apply ssim_items_loop; [solve_up|exact Hswimmers|].
    intros P g x px HuP [Hk Hx]. rewrite Hk. apply ssim_here.
    now apply ssim_swimmer_out. }
  intros h7 swimmers_list pswimmers Hp7 Hswimmers_list.
  cbv beta in Hswimmers_list.
  eapply ssim_step.
  { eapply (ssim_mapping_of Q h7 meet pmeet "events"); [solve_up|].
    eapply repr_in_prefix; [|exact Hmeet]. solve_prefix. }
  intros h8 events Hp8 Hevents. unfold mapping_of at 1.
  eapply ssim_bind_assoc.
  { apply ssim_sorted_loop; [solve_up|exact Hevents|].
    intros P g x px HuP [Hk Hx]. rewrite Hk. apply ssim_here.
    now apply ssim_event_out. }
  intros h9 events_list pevents Hp9 Hevents_list. cbv beta in Hevents_list.
  eapply ssim_step.
  { apply (ssim_display_values Q h9 _
             (meet_candidate pmeet pteams pswimmers pevents)); [solve_up|].
    unfold meet_candidate. value_fields fail. }
  intros h10 candidate Hp10 Hcandidate.
  eapply ssim_step.
  { apply ssim__drop_none; [solve_up|exact Hcandidate]. }
  intros h11 meet_out Hp11 Hmeet_out.
  eapply ssim_step.
  { eapply ssim__drop_none_at; [solve_up| |exact Hfsec]. solve_prefix. }
  intros h12 file_out Hp12 Hfile_out.
  apply ssim_ok_dict.
  apply ssim_display_values; [solve_up|].
  value_fields fail.
Qed.

End PostProcess.

Section Determinism.
Local Open Scope nat_scope.
Implicit Types (Q P : nat -> Prop) (h g : Heap.heap) (v : Heap.hvalue) (pv : value).

Lemma run__post_process_not_mapping Q h p pv :
  repr_in Q h p pv ->
  match pv with VDict _ => False | _ => True end ->
  Heap._post_process p h = (Heap.Exc AttributeError, h).
Proof.
  intros Hr Hpv.
  destruct pv as [| | | | |l|d]; try contradiction;
    try (simpl in Hr; subst p; reflexivity).
  apply repr_in_list in Hr as (a & hl & -> & _ & Hl & _).
  unfold Heap._post_process, Heap.file_section, Heap.display. simpl.
  unfold Heap.get_, Heap.mapping, Heap.bind, Heap.deref. now rewrite Hl.
Qed.

Lemma up_all h : up (fun _ => True) h.
Proof. now intros a _. Qed.

(** The run over the store and the function over trees agree. *)
Lemma _post_process_refines h p (parsed : dict) :
  repr h p (VDict parsed) ->
  h `prefix_of` snd (Heap._post_process p h) /\
  match fst (Heap._post_process p h), _post_process parsed with
  | Heap.Done v, Ok out => repr (snd (Heap._post_process p h)) v (VDict out)
  | Heap.Exc e, Raise e' => e = e'
  | _, _ => False
  end.
Proof.
  intros Hr.
  exact (ssim__post_process (fun _ => True) h p parsed (up_all h) Hr h
           (reflexivity _)).
Qed.

(** C9. The reshape is deterministic: two runs of [_post_process], each on
    a store where its argument stands for the same tree, either both raise
    the same exception or both return, and then the two values returned
    stand for the same tree, whatever the addresses of the objects in the
    two stores. *)
Theorem reshape_is_deterministic h1 h2 p1 p2 pv :
  repr h1 p1 pv -> repr h2 p2 pv ->
  same_outcome (Heap._post_process p1 h1) (Heap._post_process p2 h2).
Proof.
  intros Hr1 Hr2. unfold same_outcome.
  destruct pv as [| | | | | |parsed];
    try (rewrite (run__post_process_not_mapping _ h1 p1 _ Hr1 I),
           (run__post_process_not_mapping _ h2 p2 _ Hr2 I); reflexivity).
  destruct (_post_process_refines h1 p1 parsed Hr1) as [_ H1].
  destruct (_post_process_refines h2 p2 parsed Hr2) as [_ H2].
  destruct (fst (Heap._post_process p1 h1)),
    (fst (Heap._post_process p2 h2)), (_post_process parsed);
    try contradiction; [eauto|congruence].
Qed.

Lemma reshape_is_deterministic_witness :
  repr (snd scenario_alone) (root_of scenario_alone) (VDict scenario) /\
  repr (snd scenario_later) (root_of scenario_later) (VDict scenario) /\
  same_outcome
    (Heap._post_process (root_of scenario_alone) (snd scenario_alone))
    (Heap._post_process (root_of scenario_later) (snd scenario_later)).
Proof.
  assert (H1 : repr (snd scenario_alone) (root_of scenario_alone)
                 (VDict scenario)).
  { vm_compute. repeat (eexists || split). }
  assert (H2 : repr (snd scenario_later) (root_of scenario_later)
                 (VDict scenario)).
  { vm_compute. repeat (eexists || split). }
  split; [exact H1|]. split; [exact H2|].
  exact (reshape_is_deterministic _ _ _ _ _ H1 H2).
Defined.

End Determinism.

(** * Further properties of the code *)

(** ** The path of the output file *)

Section Paths.
Local Open Scope Z_scope.

Lemma append_empty_r (s : string) : s ++ "" = s.
Proof. induction s as [|c s IH]; simpl; [reflexivity|now rewrite IH]. Qed.

Lemma append_inv_head (s t u : string) : s ++ t = s ++ u -> t = u.
Proof.
  induction s as [|c s IH]; simpl; [auto|]. intros [= E]. now apply IH.
Qed.

Lemma substring_all (s : string) : substring 0 (String.length s) s = s.
Proof. induction s as [|c s IH]; simpl; [reflexivity|now rewrite IH]. Qed.

Lemma substring_head (pre rest : string) :
  substring 0 (String.length pre) (pre ++ rest) = pre.
Proof.
  induction pre as [|c pre IH]; simpl; [now destruct rest|now rewrite IH].
Qed.

Lemma substring_tail (pre rest : string) (n : nat) :
  substring (String.length pre) n (pre ++ rest) = substring 0 n rest.
Proof. induction pre as [|c pre IH]; simpl; [reflexivity|exact IH]. Qed.

Lemma length_append (s t : string) :
  String.length (s ++ t) = (String.length s + String.length t)%nat.
Proof. induction s as [|c s IH]; simpl; [reflexivity|now rewrite IH]. Qed.

Lemma rfind_from_spec (c : ascii) (s : string) (i last : Z) :
  (occurs c s = false /\ PyPath.rfind_from c s i last = last)
  \/ (exists pre post,
        s = pre ++ String c post /\ occurs c post = false /\
        PyPath.rfind_from c s i last = i + Z.of_nat (String.length pre)).
Proof.
  revert i last. induction s as [|c' s IH]; intros i last; simpl.
  - now left.
  - destruct (IH (i + 1) (if Ascii.eqb c' c then i else last))
      as [[Hn E]|(pre & post & -> & Hn & E)].
    + rewrite E, Hn. destruct (Ascii.eqb_spec c' c) as [->|Hc].
      * right. exists "", s. simpl. repeat split; [assumption|lia].
      * now left.
    + right. exists (String c' pre), post. simpl.
      repeat split; [assumption|]. rewrite E. lia.
Qed.

Lemma rfind_from_ge (c : ascii) (pre post : string) (i last : Z) :
  occurs c post = true ->
  i + Z.of_nat (String.length pre)
  <= PyPath.rfind_from c (pre ++ post) i last.
Proof.
  intros Ho. revert i last. induction pre as [|a pre IH]; intros i last; simpl.
  - destruct (rfind_from_spec c post i last)
      as [[Hn _]|(pre' & post' & _ & _ & ->)]; [congruence|lia].
  - specialize (IH (i + 1) (if Ascii.eqb a c then i else last)). lia.
Qed.

(** What [splitext] answers: the two parts make up the path, and the
    extension is empty or a dot followed by neither a dot nor a slash. *)
Lemma splitext_parts (p : string) :
  fst (PyPath.splitext p) ++ snd (PyPath.splitext p) = p /\
  (snd (PyPath.splitext p) = ""
   \/ exists e, snd (PyPath.splitext p) = String "." e /\
                occurs "." e = false /\ occurs "/" e = false).
Proof.
  unfold PyPath.splitext. cbv zeta.
  destruct (_ && _) eqn:Hc; simpl; [|split; [apply append_empty_r|now left]].
  apply andb_true_iff in Hc as [Hlt _]. apply Z.ltb_lt in Hlt.
  unfold PyPath.rfind in *.
  assert (Hsep : -1 <= PyPath.rfind_from "/" p 0 (-1)).
  { destruct (rfind_from_spec "/" p 0 (-1))
      as [[_ ->]|(pre & post & _ & _ & ->)]; lia. }
  destruct (rfind_from_spec "." p 0 (-1))
    as [[_ E]|(pre & post & -> & Hn & E)]; [lia|].
  rewrite E in *. unfold PyPath.upto, PyPath.from.
  replace (Z.to_nat (0 + Z.of_nat (String.length pre)))
    with (String.length pre) by lia.
  rewrite substring_head, substring_tail, length_append.
  replace (String.length pre + String.length (String "." post)
           - String.length pre)%nat
    with (String.length (String "." post)) by lia.
  rewrite substring_all. split; [reflexivity|].
  right. exists post. repeat split; [assumption|].
  destruct (occurs "/" post) eqn:Hs; [|reflexivity].
  assert (Ho : occurs "/" (String "." post) = true) by (simpl; now rewrite Hs).
  pose proof (rfind_from_ge "/" pre (String "." post) 0 (-1) Ho). lia.
Qed.

Lemma rfind_from_absent (c : ascii) (s : string) (i last : Z) :
  occurs c s = false -> PyPath.rfind_from c s i last = last.
Proof.
  revert i last. induction s as [|c' s IH]; intros i last; simpl;
    [reflexivity|].
  intros H. apply orb_false_iff in H as [-> Hs]. now apply IH.
Qed.

Lemma rfind_from_append (c : ascii) (pre post : string) (i last : Z) :
  PyPath.rfind_from c (pre ++ post) i last
  = PyPath.rfind_from c post (i + Z.of_nat (String.length pre))
      (PyPath.rfind_from c pre i last).
Proof.
  revert i last. induction pre as [|a pre IH]; intros i last; simpl.
  - f_equal. lia.
  - rewrite IH. f_equal. lia.
Qed.

Lemma rfind_from_bound (c : ascii) (s : string) (i last : Z) :
  last < i -> PyPath.rfind_from c s i last < i + Z.of_nat (String.length s).
Proof.
  destruct (rfind_from_spec c s i last)
    as [[_ ->]|(pre & post & -> & _ & ->)]; [lia|].
  rewrite length_append. simpl. lia.
Qed.

Lemma get_append (pre s : string) (j : nat) :
  String.get (String.length pre + j) (pre ++ s) = String.get j s.
Proof. induction pre as [|a pre IH]; simpl; [reflexivity|exact IH]. Qed.

Lemma all_dots_inv (a : ascii) (dots : string) :
  PyStr.all_chars (Ascii.eqb ".") (String a dots) = true ->
  a = "."%char /\ PyStr.all_chars (Ascii.eqb ".") dots = true.
Proof.
  cbn [PyStr.all_chars]. intros H. apply andb_true_iff in H as [Ha Hd].
  apply Ascii.eqb_eq in Ha. now subst.
Qed.

(** The loop finds no name among leading dots. *)
Lemma names_a_file_dots (pre dots rest : string) (j n : nat) :
  PyStr.all_chars (Ascii.eqb ".") dots = true ->
  (j + n <= String.length dots)%nat ->
  PyPath.names_a_file (pre ++ dots ++ rest) (String.length pre + j) n = false.
Proof.
  intros Hd. revert j. induction n as [|n IH]; intros j Hj; simpl;
    [reflexivity|].
  rewrite get_append.
  assert (Hg : String.get j (dots ++ rest) = Some "."%char).
  { clear IH. revert j Hj. induction dots as [|a dots IHd]; intros j Hj;
      [simpl in Hj; lia|].
    apply all_dots_inv in Hd as [-> Hd]. simpl in Hj.
    destruct j as [|j]; [reflexivity|]. simpl. apply IHd; [assumption|lia]. }
  rewrite Hg. rewrite Ascii.eqb_refl.
  replace (S (String.length pre + j)) with (String.length pre + S j)%nat
    by lia.
  apply IH. lia.
Qed.

Lemma rfind_dots (dots : string) (i last : Z) :
  PyStr.all_chars (Ascii.eqb ".") dots = true ->
  PyPath.rfind_from "." dots i last
  = match dots with
    | EmptyString => last
    | _ => i + Z.of_nat (String.length dots) - 1
    end.
Proof.
  revert i last. induction dots as [|a dots IH]; intros i last Hd;
    [reflexivity|].
  apply all_dots_inv in Hd as [-> Hd].
  simpl. rewrite (IH _ _ Hd). destruct dots; simpl; lia.
Qed.

(** A name of leading dots and a text with no dot has no extension. *)
Lemma splitext_no_extension (dir dots rest : string) :
  dir = "" \/ (exists d, dir = d ++ "/") ->
  PyStr.all_chars (Ascii.eqb ".") dots = true ->
  occurs "." rest = false -> occurs "/" rest = false ->
  PyPath.splitext (dir ++ dots ++ rest) = (dir ++ dots ++ rest, "").
Proof.
  intros Hdir Hd Hr Hs. unfold PyPath.splitext. cbv zeta.
  set (p := dir ++ dots ++ rest).
  assert (Hsd : occurs "/" dots = false).
  { clear -Hd. induction dots as [|a dots IH]; [reflexivity|].
    apply all_dots_inv in Hd as [-> Hd]. simpl. auto. }
  assert (Esep : PyPath.rfind "/" p = Z.of_nat (String.length dir) - 1).
  { unfold PyPath.rfind, p. rewrite !rfind_from_append.
    rewrite (rfind_from_absent "/" rest) by assumption.
    rewrite (rfind_from_absent "/" dots) by assumption.
    destruct Hdir as [->|[d ->]]; [reflexivity|].
    rewrite rfind_from_append. simpl. rewrite length_append. simpl. lia. }
  assert (Edot : PyPath.rfind "." p
                 = match dots with
                   | EmptyString => PyPath.rfind "." dir
                   | _ => Z.of_nat (String.length dir)
                          + Z.of_nat (String.length dots) - 1
                   end).
  { unfold PyPath.rfind, p. rewrite !rfind_from_append.
    rewrite (rfind_from_absent "." rest) by assumption.
    rewrite (rfind_dots dots) by assumption. now destruct dots. }
  destruct ((PyPath.rfind "/" p <? PyPath.rfind "." p)) eqn:Hlt;
    [|reflexivity].
  apply Z.ltb_lt in Hlt. rewrite Esep, Edot in *. clear Esep Edot.
  subst p. destruct dots as [|a dots'].
  - exfalso. unfold PyPath.rfind in Hlt.
    destruct Hdir as [->|[d ->]]; [simpl in Hlt; lia|].
    rewrite rfind_from_append in Hlt.
    rewrite length_append in Hlt. simpl in Hlt.
    pose proof (rfind_from_bound "." d 0 (-1) ltac:(lia)).
    destruct (Ascii.eqb "/" "."); lia.
  - replace (Z.to_nat (Z.of_nat (String.length dir) - 1 + 1))
      with (String.length dir + 0)%nat by lia.
    rewrite names_a_file_dots; [reflexivity|assumption|].
    simpl. lia.
Qed.

Lemma append_assoc (s t u : string) : (s ++ t) ++ u = s ++ t ++ u.
Proof. induction s as [|c s IH]; simpl; [reflexivity|now rewrite IH]. Qed.

Lemma occurs_append (c : ascii) (s t : string) :
  occurs c (s ++ t) = occurs c s || occurs c t.
Proof.
  induction s as [|a s IH]; simpl; [reflexivity|].
  now rewrite IH, orb_assoc.
Qed.

Lemma occurs_dots (c : ascii) (dots : string) :
  PyStr.all_chars (Ascii.eqb ".") dots = true -> c <> "."%char ->
  occurs c dots = false.
Proof.
  intros Hd Hc. induction dots as [|a dots IH]; [reflexivity|].
  apply all_dots_inv in Hd as [-> Hd]. cbn [occurs]. rewrite (IH Hd).
  rewrite (proj2 (Ascii.eqb_neq "." c)); [reflexivity|congruence].
Qed.

Lemma get_dots (dots rest : string) (j : nat) :
  PyStr.all_chars (Ascii.eqb ".") dots = true ->
  (j < String.length dots)%nat ->
  String.get j (dots ++ rest) = Some "."%char.
Proof.
  intros Hd. revert j. induction dots as [|a dots IH]; intros j Hj;
    [simpl in Hj; lia|].
  apply all_dots_inv in Hd as [-> Hd]. simpl in Hj.
  destruct j as [|j]; [reflexivity|]. simpl. apply IH; [assumption|lia].
Qed.

(** The loop finds the name at the first character that is not a dot. *)
Lemma names_a_file_name (pre dots : string) (c : ascii) (rest : string)
  (j n : nat) :
  PyStr.all_chars (Ascii.eqb ".") dots = true -> c <> "."%char ->
  (j <= String.length dots)%nat -> (String.length dots < j + n)%nat ->
  PyPath.names_a_file (pre ++ dots ++ String c rest) (String.length pre + j) n
  = true.
Proof.
  intros Hd Hc. revert j. induction n as [|n IH]; intros j Hj Hn; [lia|].
  simpl. rewrite get_append.
  destruct (Nat.eq_dec j (String.length dots)) as [->|Hne].
  - replace (String.length dots) with (String.length dots + 0)%nat at 1
      by lia.
    rewrite get_append. cbn [String.get].
    now rewrite (proj2 (Ascii.eqb_neq c ".") Hc).
  - rewrite (get_dots dots (String c rest) j Hd) by lia.
    rewrite Ascii.eqb_refl.
    replace (S (String.length pre + j)) with (String.length pre + S j)%nat
      by lia.
    apply IH; lia.
Qed.

(** A name with a character that is not a dot before its last dot has the
    text from that dot on as its extension. *)
Lemma splitext_extension (dir dots : string) (c : ascii) (mid e : string) :
  dir = "" \/ (exists d, dir = d ++ "/") ->
  PyStr.all_chars (Ascii.eqb ".") dots = true ->
  c <> "."%char ->
  occurs "/" (String c mid) = false ->
  occurs "." e = false -> occurs "/" e = false ->
  PyPath.splitext (dir ++ dots ++ String c mid ++ String "." e)
  = (dir ++ dots ++ String c mid, String "." e).
Proof.
  intros Hdir Hd Hc Hm He Hse.
  set (pre := dir ++ dots ++ String c mid).
  assert (Ep : dir ++ dots ++ String c mid ++ String "." e
               = pre ++ String "." e).
  { unfold pre. now rewrite !append_assoc. }
  assert (Hlen : String.length pre
                 = (String.length dir + String.length dots
                    + S (String.length mid))%nat).
  { unfold pre. rewrite !length_append. simpl. lia. }
  assert (Hrest : occurs "/" (dots ++ String c mid ++ String "." e) = false).
  { rewrite !occurs_append.
    rewrite (occurs_dots "/" dots Hd) by discriminate.
    rewrite Hm. simpl. exact Hse. }
  assert (Esep : PyPath.rfind "/" (dir ++ dots ++ String c mid ++ String "." e)
                 = Z.of_nat (String.length dir) - 1).
  { unfold PyPath.rfind. rewrite rfind_from_append.
    rewrite (rfind_from_absent "/" _ _ _ Hrest).
    destruct Hdir as [->|[d ->]]; [reflexivity|].
    rewrite rfind_from_append. simpl. rewrite length_append. simpl. lia. }
  assert (Edot : PyPath.rfind "."
                   (dir ++ dots ++ String c mid ++ String "." e)
                 = Z.of_nat (String.length pre)).
  { rewrite Ep. unfold PyPath.rfind. rewrite rfind_from_append. simpl.
    now rewrite (rfind_from_absent "." e _ _ He). }
  unfold PyPath.splitext. cbv zeta. rewrite Esep, Edot.
  assert (Hlt : (Z.of_nat (String.length dir) - 1
                 <? Z.of_nat (String.length pre)) = true).
  { apply Z.ltb_lt. lia. }
  rewrite Hlt. cbn [andb].
  replace (Z.to_nat (Z.of_nat (String.length dir) - 1 + 1))
    with (String.length dir + 0)%nat by lia.
  assert (Hname : PyPath.names_a_file
                    (dir ++ dots ++ String c mid ++ String "." e)
                    (String.length dir + 0)
                    (Z.to_nat (Z.of_nat (String.length pre)
                               - (Z.of_nat (String.length dir) - 1 + 1)))
                  = true).
  { change (dir ++ dots ++ String c mid ++ String "." e)
      with (dir ++ dots ++ String c (mid ++ String "." e)).
    apply names_a_file_name; [assumption|assumption|lia|lia]. }
  rewrite Hname, Ep.
  unfold PyPath.upto, PyPath.from.
  replace (Z.to_nat (Z.of_nat (String.length pre))) with (String.length pre)
    by lia.
  rewrite substring_head, substring_tail, length_append.
  replace (String.length pre + String.length (String "." e)
           - String.length pre)%nat
    with (String.length (String "." e)) by lia.
  now rewrite substring_all.
Qed.

(** The default path: the extension of the input path is replaced.  When
    the file name has a character that is not a dot before its last dot,
    the text from that dot on gives way to [.json]; what is before it, the
    directory included, stays. *)
Theorem default_output_replaces_extension (abspath : string -> string)
  (input : string) (output : option string) (dir dots : string) (c : ascii)
  (mid e : string) :
  output = None \/ output = Some "" ->
  abspath input = dir ++ dots ++ String c mid ++ String "." e ->
  dir = "" \/ (exists d, dir = d ++ "/") ->
  PyStr.all_chars (Ascii.eqb ".") dots = true ->
  c <> "."%char ->
  occurs "/" (String c mid) = false ->
  occurs "." e = false -> occurs "/" e = false ->
  output_path abspath input output
  = dir ++ dots ++ String c mid ++ ".json".
Proof.
  intros Ho Ep Hdir Hd Hc Hm He Hse.
  assert (E : output_path abspath input output
              = fst (PyPath.splitext (abspath input)) ++ ".json").
  { unfold output_path. now destruct Ho as [->| ->]. }
  rewrite E, Ep, splitext_extension by assumption.
  cbn [fst]. now rewrite !append_assoc.
Qed.

Lemma default_output_replaces_extension_witness :
  (@None string = None \/ @None string = Some "")
  /\ String.append "/data/" "meet.v2.hy3"
     = "/data/" ++ "" ++ String "m" "eet.v2" ++ String "." "hy3"
  /\ ("/data/" = "" \/ (exists d, "/data/" = d ++ "/"))
  /\ PyStr.all_chars (Ascii.eqb ".") "" = true
  /\ "m"%char <> "."%char
  /\ occurs "/" (String "m" "eet.v2") = false
  /\ occurs "." "hy3" = false /\ occurs "/" "hy3" = false
  /\ output_path (String.append "/data/") "meet.v2.hy3" None
     = "/data/" ++ "" ++ String "m" "eet.v2" ++ ".json".
Proof.
  assert (Ho : @None string = None \/ @None string = Some "") by now left.
  assert (Hdir : "/data/" = "" \/ (exists d, "/data/" = d ++ "/")).
  { right. now exists "/data". }
  assert (Hc : "m"%char <> "."%char) by discriminate.
  split; [exact Ho|]. split; [reflexivity|]. split; [exact Hdir|].
  split; [reflexivity|]. split; [exact Hc|]. split; [reflexivity|].
  split; [reflexivity|]. split; [reflexivity|].
  exact (default_output_replaces_extension (String.append "/data/")
           "meet.v2.hy3" None "/data/" "" "m" "eet.v2" "hy3"
           Ho eq_refl Hdir eq_refl Hc eq_refl eq_refl eq_refl).
Defined.

(** The default path is the path of the input exactly when the extension
    of the input is [.json]: the conversion then writes over its input. *)
Theorem output_is_input_iff_json (abspath : string -> string)
  (input : string) (output : option string) :
  output = None \/ output = Some "" ->
  (output_path abspath input output = abspath input
   <-> snd (PyPath.splitext (abspath input)) = ".json").
Proof.
  intros Ho.
  assert (E : output_path abspath input output
              = fst (PyPath.splitext (abspath input)) ++ ".json").
  { unfold output_path. now destruct Ho as [->| ->]. }
  rewrite E. destruct (splitext_parts (abspath input)) as [Ep _].
  split.
  - intros H. rewrite <- Ep in H at 2. apply append_inv_head in H.
    now symmetry.
  - intros H. now rewrite <- H, Ep.
Qed.

Lemma output_is_input_iff_json_witness :
  (Some "" = @None string \/ Some "" = Some "") /\
  (output_path (String.append "/data/") "meet.json" (Some "")
   = String.append "/data/" "meet.json"
   <-> snd (PyPath.splitext (String.append "/data/" "meet.json")) = ".json").
Proof.
  split; [now right|].
  apply (output_is_input_iff_json (String.append "/data/") "meet.json"
           (Some "")).
  now right.
Defined.

(** A file name with no extension, leading dots apart as in [.hy3],
    gets [.json] appended: nothing of the name is replaced. *)
Theorem output_of_name_without_extension (abspath : string -> string)
  (input : string) (output : option string) (dir dots rest : string) :
  output = None \/ output = Some "" ->
  abspath input = dir ++ dots ++ rest ->
  dir = "" \/ (exists d, dir = d ++ "/") ->
  PyStr.all_chars (Ascii.eqb ".") dots = true ->
  occurs "." rest = false -> occurs "/" rest = false ->
  output_path abspath input output = abspath input ++ ".json".
Proof.
  intros Ho Ep Hdir Hd Hr Hs.
  assert (E : output_path abspath input output
              = fst (PyPath.splitext (abspath input)) ++ ".json").
  { unfold output_path. now destruct Ho as [->| ->]. }
  rewrite E, Ep. now rewrite splitext_no_extension.
Qed.

Lemma output_of_name_without_extension_witness :
  (@None string = None \/ @None string = Some "") /\
  String.append "/data/" ".hy3" = "/data/" ++ "." ++ "hy3" /\
  ("/data/" = "" \/ (exists d, "/data/" = d ++ "/")) /\
  PyStr.all_chars (Ascii.eqb ".") "." = true /\
  occurs "." "hy3" = false /\ occurs "/" "hy3" = false /\
  output_path (String.append "/data/") ".hy3" None
  = String.append "/data/" ".hy3" ++ ".json".
Proof.
  assert (Hdir : "/data/" = "" \/ (exists d, "/data/" = d ++ "/")).
  { right. now exists "/data". }
  repeat (split; [first [now left|reflexivity|exact Hdir]|]).
  apply (output_of_name_without_extension (String.append "/data/") ".hy3"
           None "/data/" "." "hy3"); first [now left|reflexivity|exact Hdir].
Defined.

End Paths.

(** ** The serializer *)

(** What the serializer returns is neither a date nor a member of an
    enumeration, whatever the instance and the field; it returns such a
    value as it is, so a second pass changes nothing. *)
Theorem serialized_value_is_plain {date datetime other I F : Type}
  (date_isoformat : date -> string) (datetime_isoformat : datetime -> string)
  (inst inst' : I) (field field' : F)
  (value : attribute date datetime other) :
  is_plain
    (_value_serializer date_isoformat datetime_isoformat inst field value)
  = true
  /\ (is_plain value = true ->
      _value_serializer date_isoformat datetime_isoformat inst field value
      = value)
  /\ _value_serializer date_isoformat datetime_isoformat inst' field'
       (_value_serializer date_isoformat datetime_isoformat inst field value)
     = _value_serializer date_isoformat datetime_isoformat inst field value.
Proof. destruct value; simpl; repeat split; discriminate || reflexivity. Qed.

(** ** Pruning and sorting *)

Lemma kept_fixed (d : dict) :
  kept d = d <-> forall k v, In (k, v) d -> v <> VNone /\ v <> VDict [].
Proof.
  split.
  - intros E k v Hin. rewrite <- E in Hin. unfold kept in Hin.
    apply filter_In in Hin as [_ Hv]. simpl in Hv.
    apply negb_true_iff in Hv. split; intros ->; discriminate.
  - intros H. apply kept_clean. apply List.Forall_forall. intros [k v] Hin.
    simpl. destruct (H k v Hin) as [H1 H2].
    destruct (dropped v) eqn:Hd; [|reflexivity].
    apply dropped_spec in Hd as [?|?]; contradiction.
Qed.

(** Pruning a record of distinct keys removes the fields to prune and
    leaves the other ones as they are, in the order they had; it returns
    the record unchanged exactly when no value is [None] or an empty
    mapping. *)
Theorem pruning_filters_in_order (r : dict) :
  List.NoDup (List.map fst r) ->
  _drop_none r = kept r
  /\ (_drop_none r = r
      <-> forall k v, In (k, v) r -> v <> VNone /\ v <> VDict []).
Proof.
  intros Hnd. rewrite (_drop_none_kept r Hnd). split; [reflexivity|].
  apply kept_fixed.
Qed.

Lemma pruning_filters_in_order_witness :
  List.NoDup (List.map fst [("time", VStr "25.31"); ("dq", VNone);
                            ("lane", VInt 4); ("splits", VDict [])])
  /\ (_drop_none [("time", VStr "25.31"); ("dq", VNone);
                  ("lane", VInt 4); ("splits", VDict [])]
      = kept [("time", VStr "25.31"); ("dq", VNone);
              ("lane", VInt 4); ("splits", VDict [])]
      /\ (_drop_none [("time", VStr "25.31"); ("dq", VNone);
                      ("lane", VInt 4); ("splits", VDict [])]
          = [("time", VStr "25.31"); ("dq", VNone);
             ("lane", VInt 4); ("splits", VDict [])]
          <-> forall k v,
                In (k, v) [("time", VStr "25.31"); ("dq", VNone);
                           ("lane", VInt 4); ("splits", VDict [])] ->
                v <> VNone /\ v <> VDict [])).
Proof.
  assert (Hnd : List.NoDup (List.map fst [("time", VStr "25.31");
                  ("dq", VNone); ("lane", VInt 4); ("splits", VDict [])])).
  { apply distinct_NoDup. reflexivity. }
  split; [exact Hnd|].
  exact (pruning_filters_in_order _ Hnd).
Defined.

Section SortedOnce.
Context {A K : Type} (key : A -> K) (lt : K -> K -> bool).

Lemma insert_sorted_first (x : A) (l : list A) :
  List.Forall (key_le key lt x) l -> insert_sorted key lt x l = x :: l.
Proof.
  destruct l as [|y l]; simpl; [reflexivity|].
  intros H. apply List.Forall_inv in H. unfold key_le in H. now rewrite H.
Qed.

Lemma py_sorted_of_sorted (l : list A) :
  StronglySorted (key_le key lt) l -> py_sorted key lt l = l.
Proof.
  induction 1 as [|x l Hs IH Hx]; simpl; [reflexivity|].
  rewrite IH. now apply insert_sorted_first.
Qed.

Lemma sorted_perm_unique (R : A -> A -> Prop) (l1 l2 : list A) :
  StronglySorted R l1 -> StronglySorted R l2 -> Permutation l1 l2 ->
  (forall x y, In x l1 -> In y l1 -> R x y -> R y x -> x = y) ->
  l1 = l2.
Proof.
  intros H1. revert l2. induction H1 as [|x l1 Hs1 IH Hx]; intros l2 H2 Hp Ha.
  - now apply Permutation_nil in Hp.
  - destruct H2 as [|y l2 Hs2 Hy].
    + apply Permutation_sym, Permutation_nil in Hp. discriminate.
    + assert (E : x = y).
      { assert (Hxin : In x (y :: l2))
          by (apply (Permutation_in _ Hp); now left).
        assert (Hyin : In y (x :: l1))
          by (apply (Permutation_in _ (Permutation_sym Hp)); now left).
        destruct Hxin as [->|Hxin]; [reflexivity|].
        destruct Hyin as [->|Hyin]; [reflexivity|].
        apply Ha; [now left|now right| |].
        - now apply (proj1 (List.Forall_forall _ _) Hx).
        - now apply (proj1 (List.Forall_forall _ _) Hy). }
      subst y. f_equal. apply IH; [assumption| |].
      * now apply Permutation_cons_inv in Hp.
      * intros a b Hain Hbin. apply Ha; now right.
Qed.
End SortedOnce.

Lemma event_key_second {V : Type} (kv : string * V) :
  snd (_event_key kv) = fst kv.
Proof. unfold _event_key. now destruct (PyStr.py_int (fst kv)). Qed.

Lemma event_key_le_antisym (x y : string * value) :
  key_le _event_key tuple_lt x y -> key_le _event_key tuple_lt y x ->
  fst x = fst y.
Proof.
  unfold key_le. rewrite !tuple_lt_false, !event_key_second.
  intros [?|[E1 H1]] [?|[E2 H2]]; try lia.
  now apply string_ltb_total.
Qed.

Lemma NoDup_keys_eq (d : dict) (x y : string * value) :
  List.NoDup (List.map fst d) -> In x d -> In y d -> fst x = fst y -> x = y.
Proof.
  induction d as [|z d IH]; simpl; [contradiction|].
  intros Hnd Hx Hy E. apply List.NoDup_cons_iff in Hnd as [Hz Hnd].
  destruct Hx as [->|Hx], Hy as [->|Hy]; [reflexivity| | |now apply IH].
  - exfalso. apply Hz. rewrite E. now apply in_map.
  - exfalso. apply Hz. rewrite <- E. now apply in_map.
Qed.

(** The order of the sorted events is that of the event numbers alone:
    two mappings with the same items, in whatever order, give the same
    list. *)
Theorem sorted_events_is_canonical (events events' : dict) :
  List.NoDup (List.map fst events) ->
  Permutation events events' ->
  _sorted_events events = _sorted_events events'.
Proof.
  intros Hnd Hp. unfold _sorted_events.
  apply (sorted_perm_unique (key_le _event_key tuple_lt)).
  - apply py_sorted_sorted; [exact tuple_lt_asym|exact tuple_le_trans].
  - apply py_sorted_sorted; [exact tuple_lt_asym|exact tuple_le_trans].
  - rewrite !py_sorted_perm. exact Hp.
  - intros x y Hx Hy Hxy Hyx.
    apply (NoDup_keys_eq events); [assumption| | |].
    + apply (Permutation_in _ (py_sorted_perm _ _ _) Hx).
    + apply (Permutation_in _ (py_sorted_perm _ _ _) Hy).
    + now apply event_key_le_antisym.
Qed.

Lemma sorted_events_is_canonical_witness :
  List.NoDup (List.map fst [("10", VNone); ("2", VInt 1); ("TT", VNone)])
  /\ Permutation [("10", VNone); ("2", VInt 1); ("TT", VNone)]
                 [("TT", VNone); ("10", VNone); ("2", VInt 1)]
  /\ _sorted_events [("10", VNone); ("2", VInt 1); ("TT", VNone)]
     = _sorted_events [("TT", VNone); ("10", VNone); ("2", VInt 1)].
Proof.
  assert (Hnd : List.NoDup (List.map fst [("10", VNone); ("2", VInt 1);
                                         ("TT", VNone)])).
  { apply distinct_NoDup. reflexivity. }
  assert (Hp : Permutation [("10", VNone); ("2", VInt 1); ("TT", VNone)]
                           [("TT", VNone); ("10", VNone); ("2", VInt 1)]).
  { apply Permutation_sym.
    apply (Permutation_cons_app [("10", VNone); ("2", VInt 1)] []).
    rewrite app_nil_r. reflexivity. }
  split; [exact Hnd|]. split; [exact Hp|].
  exact (sorted_events_is_canonical _ _ Hnd Hp).
Defined.

Lemma dict_loop_appends (l acc : dict) :
  List.NoDup (List.map fst (acc ++ l)%list) ->
  fold_left (fun d kv => setitem (fst kv) (snd kv) d) l acc
  = (acc ++ l)%list.
Proof.
  revert acc. induction l as [|[k v] l IH]; intros acc Hnd; simpl.
  - now rewrite List.app_nil_r.
  - assert (Hk : ~ In k (List.map fst acc)).
    { rewrite List.map_app in Hnd.
      apply NoDup_app_parts in Hnd as (_ & _ & H3).
      intros Hin. apply (H3 k Hin). now left. }
    rewrite (setitem_new acc k v Hk).
    rewrite IH; rewrite <- List.app_assoc; [reflexivity|exact Hnd].
Qed.

Lemma dict_of_pairs_distinct (l : dict) :
  List.NoDup (List.map fst l) -> dict_of_pairs l = l.
Proof. intros Hnd. now apply (dict_loop_appends l []). Qed.

(** The list that [_sorted_events] returns is in the order of the sort:
    made a mapping again with [dict], which keeps the order of the pairs,
    and sorted once more, it comes back as it is. *)
Theorem sorted_events_idempotent (events : dict) :
  List.NoDup (List.map fst events) ->
  _sorted_events (dict_of_pairs (_sorted_events events))
  = _sorted_events events.
Proof.
  intros Hnd. rewrite dict_of_pairs_distinct.
  - unfold _sorted_events. apply py_sorted_of_sorted.
    apply py_sorted_sorted; [exact tuple_lt_asym|exact tuple_le_trans].
  - apply (Permutation_NoDup
             (Permutation_sym
                (Permutation_map fst
                   (py_sorted_perm _event_key tuple_lt events)))).
    exact Hnd.
Qed.

Lemma sorted_events_idempotent_witness :
  List.NoDup (List.map fst [("10", VNone); ("2", VInt 1); ("TT", VNone)])
  /\ dict_of_pairs (_sorted_events [("10", VNone); ("2", VInt 1);
                                    ("TT", VNone)])
     = [("2", VInt 1); ("10", VNone); ("TT", VNone)]
  /\ _sorted_events
       (dict_of_pairs (_sorted_events [("10", VNone); ("2", VInt 1);
                                       ("TT", VNone)]))
     = _sorted_events [("10", VNone); ("2", VInt 1); ("TT", VNone)].
Proof.
  assert (Hnd : List.NoDup (List.map fst [("10", VNone); ("2", VInt 1);
                                         ("TT", VNone)])).
  { apply distinct_NoDup. reflexivity. }
  split; [exact Hnd|]. split; [reflexivity|].
  exact (sorted_events_idempotent _ Hnd).
Defined.

(** ** The records of the document *)

Lemma event_out_inv (number : string) (event r : value) :
  event_out number event = Ok r ->
  exists e0 entries reshaped,
    of_value event = Ok e0 /\
    py_iter (py_or (get_default (setitem "number" (VStr number) e0)
                                "entries" (VList [])) (VList []))
    = Ok entries /\
    map_result entry_out entries = Ok reshaped /\
    r = VDict (_drop_none
                 (event_candidate (setitem "number" (VStr number) e0)
                                  reshaped)).
Proof.
  unfold event_out. intros H. ok_inv H. cbv zeta in H. ok_inv H.
  injection H as <-. do 3 eexists. repeat split; eassumption.
Qed.

Lemma get_numbered (number : string) (e0 : dict) (k : string) :
  k <> "number" ->
  find k (setitem "number" (VStr number) e0) = find k e0.
Proof.
  intros Hk. rewrite find_setitem.
  destruct (String.eqb_spec "number" k); [congruence|reflexivity].
Qed.

(** Every entry of an event is reshaped, none is left out and the order is
    kept: the emitted [entries] list has one record for each entry of the
    source list, the reshaped entry, at the same place. *)
Theorem entries_are_reshaped_in_order (number : string) (event out : dict)
  (es : list value) :
  find "entries" event = Some (VList es) ->
  event_out number (VDict event) = Ok (VDict out) ->
  exists outs,
    find "entries" out = Some (VList outs) /\
    Forall2 (fun e o => entry_out e = Ok o) es outs.
Proof.
  intros Hes H.
  apply event_out_inv in H as (e0 & entries & reshaped & E0 & Ei & Em & Er).
  simpl in E0. injection E0 as <-. injection Er as ->.
  unfold get_default in Ei. rewrite get_numbered in Ei by discriminate.
  rewrite Hes in Ei.
  assert (Hor : py_or (VList es) (VList []) = VList es) by now destruct es.
  rewrite Hor in Ei. simpl in Ei. injection Ei as <-.
  exists reshaped. split.
  - now rewrite find_drop_none by apply event_candidate_keys.
  - now apply map_result_Forall2.
Qed.

Lemma entries_are_reshaped_in_order_witness :
  find "entries" [("entries", VList [VDict [("finals_time", VStr "25.31")];
                                     VDict []])]
  = Some (VList [VDict [("finals_time", VStr "25.31")]; VDict []])
  /\ event_out "1" (VDict [("entries",
                            VList [VDict [("finals_time", VStr "25.31")];
                                   VDict []])])
     = Ok (VDict [("number", VStr "1"); ("relay", VBool false);
                  ("entries",
                   VList [VDict [("swimmers", VList []);
                                 ("relay", VBool false);
                                 ("finals",
                                  VDict [("time", VStr "25.31")])];
                          VDict [("swimmers", VList []);
                                 ("relay", VBool false)]])])
  /\ exists outs,
       find "entries" [("number", VStr "1"); ("relay", VBool false);
                       ("entries",
                        VList [VDict [("swimmers", VList []);
                                      ("relay", VBool false);
                                      ("finals",
                                       VDict [("time", VStr "25.31")])];
                               VDict [("swimmers", VList []);
                                      ("relay", VBool false)]])]
       = Some (VList outs) /\
       Forall2 (fun e o => entry_out e = Ok o)
               [VDict [("finals_time", VStr "25.31")]; VDict []] outs.
Proof.
  split; [reflexivity|]. split; [reflexivity|].
  apply (entries_are_reshaped_in_order "1"
           [("entries", VList [VDict [("finals_time", VStr "25.31")];
                               VDict []])]); reflexivity.
Defined.

(** An emitted event always has its [number], [relay] and [entries]
    fields.  The number is the key of the events mapping, whatever
    [number] field the source record has; [relay] is the truth value of
    the source field, [False] when it is absent. *)
Theorem event_fields_always_present (number : string) (event r : value)
  (e : dict) :
  of_value event = Ok e ->
  event_out number event = Ok r ->
  exists out entries,
    r = VDict out /\
    find "number" out = Some (VStr number) /\
    find "relay" out
    = Some (VBool (truthy (get_default e "relay" (VBool false)))) /\
    find "entries" out = Some (VList entries).
Proof.
  intros He H.
  apply event_out_inv in H as (e0 & entries & reshaped & E0 & _ & _ & ->).
  rewrite He in E0. injection E0 as <-.
  eexists. exists reshaped. split; [reflexivity|].
  rewrite !find_drop_none by apply event_candidate_keys.
  simpl. unfold get, get_default. rewrite find_setitem. simpl.
  rewrite get_numbered by discriminate. auto.
Qed.

Lemma event_fields_always_present_witness :
  of_value (VDict [("number", VInt 99); ("relay", VInt 1)])
  = Ok [("number", VInt 99); ("relay", VInt 1)]
  /\ event_out "7" (VDict [("number", VInt 99); ("relay", VInt 1)])
     = Ok (VDict [("number", VStr "7"); ("relay", VBool true);
                  ("entries", VList [])])
  /\ exists out entries,
       VDict [("number", VStr "7"); ("relay", VBool true);
              ("entries", VList [])] = VDict out /\
       find "number" out = Some (VStr "7") /\
       find "relay" out
       = Some (VBool (truthy (get_default [("number", VInt 99);
                                           ("relay", VInt 1)]
                                          "relay" (VBool false)))) /\
       find "entries" out = Some (VList entries).
Proof.
  split; [reflexivity|]. split; [reflexivity|].
  apply (event_fields_always_present "7"
           (VDict [("number", VInt 99); ("relay", VInt 1)])); reflexivity.
Defined.

(** An emitted entry always has its [swimmers] and [relay] fields. *)
Theorem entry_fields_always_present (entry : dict) (r : value) :
  entry_out (VDict entry) = Ok r ->
  exists out ids,
    r = VDict out /\
    find "swimmers" out = Some (VList ids) /\
    find "relay" out
    = Some (VBool (truthy (get_default entry "relay" (VBool false)))).
Proof.
  intros H.
  apply entry_out_inv in H as (ids & p & s & f & _ & _ & _ & _ & ->).
  eexists. exists ids. split; [reflexivity|].
  rewrite !find_drop_none by display_keys. now split.
Qed.

Lemma entry_fields_always_present_witness :
  entry_out (VDict []) = Ok (VDict [("swimmers", VList []);
                                    ("relay", VBool false)])
  /\ exists out ids,
       VDict [("swimmers", VList []); ("relay", VBool false)] = VDict out /\
       find "swimmers" out = Some (VList ids) /\
       find "relay" out
       = Some (VBool (truthy (get_default [] "relay" (VBool false)))).
Proof.
  split; [reflexivity|].
  apply (entry_fields_always_present []); reflexivity.
Defined.

Lemma kept_keys_sublist (d : dict) :
  List.map fst (kept d) `sublist_of` List.map fst d.
Proof.
  induction d as [|[k v] d IH]; simpl; [constructor|].
  destruct (dropped v); simpl; now constructor.
Qed.

Lemma _drop_none_keys_sublist (d : dict) :
  List.NoDup (List.map fst d) ->
  List.map fst (_drop_none d) `sublist_of` List.map fst d.
Proof. intros Hnd. rewrite _drop_none_kept by assumption. apply kept_keys_sublist. Qed.

(** The pruned records of the document have the keys of their displays
    and no other, in the order of the display: the two sections, an event,
    an entry, a leg and a seed.  A field of a source record that the
    display does not name is not carried over. *)
Theorem records_keep_to_their_keys :
  (forall parsed out,
     _post_process parsed = Ok out ->
     exists file meet,
       out = [("file", VDict file); ("meet", VDict meet)] /\
       List.map fst file `sublist_of` file_keys /\
       List.map fst meet `sublist_of` meet_keys)
  /\ (forall number event out,
        event_out number event = Ok (VDict out) ->
        List.map fst out `sublist_of` event_keys)
  /\ (forall entry out,
        entry_out entry = Ok (VDict out) ->
        List.map fst out `sublist_of` entry_keys)
  /\ (forall entry prefix leg,
        build_leg entry prefix = Ok (VDict leg) ->
        List.map fst leg `sublist_of` leg_keys)
  /\ (forall entry, List.map fst (seed_of entry) `sublist_of` seed_keys).
Proof.
  repeat split.
  - intros parsed out H.
    apply _post_process_inv in H
      as (meet & ts & tl & ss & sl & es & el & _ & _ & _ & _ & _ & _ & _ & ->).
    do 2 eexists. split; [reflexivity|]. split.
    + apply (_drop_none_keys_sublist (file_section parsed)). display_keys.
    + apply (_drop_none_keys_sublist (meet_candidate meet tl sl el)).
      display_keys.
  - intros number event out H.
    apply event_out_inv in H as (e0 & entries & reshaped & _ & _ & _ & E).
    injection E as ->.
    apply (_drop_none_keys_sublist (event_candidate _ reshaped)).
    display_keys.
  - intros entry out H.
    destruct entry as [| | | | | |entry]; try discriminate.
    apply entry_out_inv in H as (ids & p & s & f & _ & _ & _ & _ & E).
    injection E as ->.
    apply (_drop_none_keys_sublist
             [("swimmers", VList ids);
              ("relay",
               VBool (truthy (get_default entry "relay" (VBool false))));
              ("seed", py_or (VDict (seed_of entry)) VNone);
              ("prelim", p); ("swimoff", s); ("finals", f);
              ("event_number", get entry "event_number")]).
    display_keys.
  - intros entry prefix leg H. apply build_leg_inv in H as (dq & _ & E).
    rewrite py_or_dict_none in E.
    destruct (_drop_none (leg_candidate entry prefix dq)) eqn:Ed;
      [discriminate|].
    injection E as ->. rewrite <- Ed.
    apply (_drop_none_keys_sublist (leg_candidate entry prefix dq)).
    display_keys.
  - intros entry. unfold seed_of.
    apply (_drop_none_keys_sublist
             [("time", get entry "seed_time");
              ("course", get entry "seed_course");
              ("converted_time", get entry "converted_seed_time");
              ("converted_course", get entry "converted_seed_time_course")]).
    display_keys.
Qed.

(** ** The document as a whole *)

Lemma event_out_number (number : string) (event r : value) :
  event_out number event = Ok r -> number_of r = VStr number.
Proof.
  intros H.
  apply event_out_inv in H as (e0 & entries & reshaped & _ & _ & _ & ->).
  unfold number_of, get.
  rewrite find_drop_none by apply event_candidate_keys.
  simpl. unfold get. now rewrite find_setitem.
Qed.

(** The events of the document are in the order of the sorted event
    numbers: the [number] fields of the emitted records, read from first
    to last, are the keys of the events mapping as [_sorted_events] orders
    them. *)
Theorem emitted_events_follow_the_sort (parsed out meet events : dict) :
  _post_process parsed = Ok out ->
  of_value (get_default parsed "meet" (VDict [])) = Ok meet ->
  mapping_of meet "events" = Ok events ->
  exists meet_out events_list,
    find "meet" out = Some (VDict meet_out) /\
    find "events" meet_out = Some (VList events_list) /\
    List.map number_of events_list = List.map VStr (event_numbers events).
Proof.
  intros H Hm He.
  apply _post_process_inv in H
    as (meet' & ts & tl & ss & sl & es & el
        & Em & _ & _ & _ & _ & Ee & El & ->).
  rewrite Hm in Em. injection Em as <-.
  rewrite He in Ee. injection Ee as <-.
  do 2 eexists. split; [reflexivity|]. split.
  - apply find_meet_lists.
  - unfold event_numbers. apply map_result_Forall2 in El.
    induction El as [|kv e l l' Hkv _ IH]; simpl; [reflexivity|].
    rewrite IH. f_equal. exact (event_out_number _ _ _ Hkv).
Qed.

Lemma emitted_events_follow_the_sort_witness :
  _post_process
    [("meet", VDict [("events", VDict [("10", VDict []); ("TT", VDict []);
                                        ("2", VDict [])])])]
  = Ok [("file", VDict []);
        ("meet", VDict
           [("teams", VList []); ("swimmers", VList []);
            ("events", VList
               [VDict [("number", VStr "2"); ("relay", VBool false);
                       ("entries", VList [])];
                VDict [("number", VStr "10"); ("relay", VBool false);
                       ("entries", VList [])];
                VDict [("number", VStr "TT"); ("relay", VBool false);
                       ("entries", VList [])]])])]
  /\ of_value
       (get_default
          [("meet", VDict [("events", VDict [("10", VDict []);
                                             ("TT", VDict []);
                                             ("2", VDict [])])])]
          "meet" (VDict []))
     = Ok [("events", VDict [("10", VDict []); ("TT", VDict []);
                             ("2", VDict [])])]
  /\ mapping_of [("events", VDict [("10", VDict []); ("TT", VDict []);
                                   ("2", VDict [])])] "events"
     = Ok [("10", VDict []); ("TT", VDict []); ("2", VDict [])]
  /\ exists meet_out events_list,
       find "meet"
         [("file", VDict []);
          ("meet", VDict
             [("teams", VList []); ("swimmers", VList []);
              ("events", VList
                 [VDict [("number", VStr "2"); ("relay", VBool false);
                         ("entries", VList [])];
                  VDict [("number", VStr "10"); ("relay", VBool false);
                         ("entries", VList [])];
                  VDict [("number", VStr "TT"); ("relay", VBool false);
                         ("entries", VList [])]])])]
       = Some (VDict meet_out) /\
       find "events" meet_out = Some (VList events_list) /\
       List.map number_of events_list
       = List.map VStr
           (event_numbers [("10", VDict []); ("TT", VDict []);
                           ("2", VDict [])]).
Proof.
  split; [reflexivity|]. split; [reflexivity|]. split; [reflexivity|].
  eapply (emitted_events_follow_the_sort
           [("meet", VDict [("events", VDict [("10", VDict []);
                                              ("TT", VDict []);
                                              ("2", VDict [])])])]);
    reflexivity.
Defined.

(** A swimmer key of decimal digits becomes the integer it writes, so
    its leading zeros are lost: the keys ["7"] and ["07"] give the same
    [meet_id]. *)
Theorem numeric_meet_id_loses_leading_zeros (meet_id : string)
  (swimmer : dict) :
  meet_id <> EmptyString ->
  PyStr.all_chars is_decimal meet_id = true ->
  (String.length meet_id < 4300)%nat ->
  swimmer_out meet_id (VDict swimmer)
  = Ok (VDict (setitem "meet_id" (VInt (decimal_value meet_id)) swimmer))
  /\ swimmer_out (String "0" meet_id) (VDict swimmer)
     = swimmer_out meet_id (VDict swimmer).
Proof.
  intros Hne Hd Hlen.
  destruct (swimmer_out_meet_id meet_id swimmer) as [H1 _].
  destruct (swimmer_out_meet_id (String "0" meet_id) swimmer) as [H2 _].
  rewrite (H1 Hne Hd ltac:(lia)), H2;
    [now split|discriminate| |simpl; lia].
  cbn [PyStr.all_chars]. now rewrite Hd.
Qed.

Lemma numeric_meet_id_loses_leading_zeros_witness :
  "7" <> EmptyString
  /\ PyStr.all_chars is_decimal "7" = true
  /\ (String.length "7" < 4300)%nat
  /\ swimmer_out "7" (VDict [("first_name", VStr "Jo")])
     = Ok (VDict (setitem "meet_id" (VInt (decimal_value "7"))
                          [("first_name", VStr "Jo")]))
  /\ swimmer_out "07" (VDict [("first_name", VStr "Jo")])
     = swimmer_out "7" (VDict [("first_name", VStr "Jo")]).
Proof.
  split; [discriminate|]. split; [reflexivity|]. split; [simpl; lia|].
  apply (numeric_meet_id_loses_leading_zeros "7");
    [discriminate|reflexivity|simpl; lia].
Defined.

(** The conversion reads the four file fields and the meet of the parsed
    document and nothing else: two documents that agree on these give the
    same result. *)
Theorem only_five_fields_are_read (p q : dict) :
  same_fields_read p q -> _post_process p = _post_process q.
Proof.
  intros H. unfold _post_process, file_section, get, get_default.
  rewrite !(H "file_description"), !(H "software"), !(H "date_created"),
    !(H "licensee"), !(H "meet") by (simpl; tauto).
  reflexivity.
Qed.

Lemma only_five_fields_are_read_witness :
  same_fields_read [("software", VStr "MM"); ("version", VInt 3)]
                   [("notes", VNone); ("software", VStr "MM")]
  /\ _post_process [("software", VStr "MM"); ("version", VInt 3)]
     = _post_process [("notes", VNone); ("software", VStr "MM")].
Proof.
  assert (H : same_fields_read [("software", VStr "MM"); ("version", VInt 3)]
                               [("notes", VNone); ("software", VStr "MM")]).
  { intros k Hk. simpl in Hk.
    destruct Hk as [<-|[<-|[<-|[<-|[<-|[]]]]]]; reflexivity. }
  split; [exact H|].
  exact (only_five_fields_are_read _ _ H).
Defined.

(** ** When the conversion returns *)

Lemma map_result_ok {A B : Type} (f : A -> result B) (l : list A) :
  List.Forall (fun a => exists b, f a = Ok b) l ->
  exists l', map_result f l = Ok l'.
Proof.
  induction 1 as [|a l [b Hb] _ [l' IH]]; simpl; [eauto|].
  rewrite Hb, IH. simpl. eauto.
Qed.

Lemma mapping_field_ok (check : string -> value -> bool) (meet : dict)
  (name : string) :
  mapping_field check meet name = true ->
  exists m,
    mapping_of meet name = Ok m /\
    List.Forall (fun kv => check (fst kv) (snd kv) = true) m.
Proof.
  unfold mapping_field, mapping_of, get_default.
  destruct (find name meet) as [[| | | | | |m]|]; try discriminate.
  - intros _. exists []. now split.
  - intros H. exists m. split; [now destruct m|].
    apply List.Forall_forall. intros x Hx.
    exact (proj1 (List.forallb_forall _ _) H x Hx).
  - intros _. exists []. now split.
Qed.

Lemma list_field_ok (check : value -> bool) (d : dict) (name : string) :
  list_field check d name = true ->
  exists l,
    py_iter (py_or (get_default d name (VList [])) (VList [])) = Ok l /\
    List.Forall (fun x => check x = true) l.
Proof.
  unfold list_field, get_default.
  destruct (find name d) as [[| | | | |l|]|]; try discriminate.
  - intros _. exists []. now split.
  - intros H. exists l. split; [now destruct l|].
    apply List.Forall_forall. intros x Hx.
    exact (proj1 (List.forallb_forall _ _) H x Hx).
  - intros _. exists []. now split.
Qed.

Lemma dq_field_ok (entry : dict) (prefix : string) :
  dq_field entry prefix = true ->
  exists r, build_leg entry prefix = Ok r.
Proof.
  unfold dq_field, build_leg, dq_of, get.
  destruct (find (String.append prefix "_dq_info") entry)
    as [[| | | | | |[|kv d]]|]; try discriminate; intros _; simpl; eauto.
Qed.

Lemma swimmer_ids_ok (entry : dict) :
  list_field is_mapping entry "swimmers" = true ->
  exists ids, swimmer_ids entry = Ok ids.
Proof.
  intros H. apply list_field_ok in H as (l & El & Hl).
  unfold swimmer_ids. rewrite El. simpl. apply map_result_ok.
  revert Hl. apply List.Forall_impl. intros [| | | | | |s]; try discriminate.
  simpl. eauto.
Qed.

Lemma entry_shaped_ok (e : value) :
  entry_shaped e = true -> exists r, entry_out e = Ok r.
Proof.
  destruct e as [| | | | | |entry]; try discriminate. simpl.
  rewrite !andb_true_iff. intros [[[Hs Hp] Hw] Hf].
  apply swimmer_ids_ok in Hs as [ids Hs].
  apply dq_field_ok in Hp as [p Hp].
  apply dq_field_ok in Hw as [w Hw].
  apply dq_field_ok in Hf as [f Hf].
  unfold entry_out. simpl. rewrite Hs. simpl. cbv zeta.
  rewrite Hp. simpl. rewrite Hw. simpl. rewrite Hf. simpl. eauto.
Qed.

Lemma event_shaped_ok (number : string) (event : value) :
  event_shaped number event = true ->
  exists r, event_out number event = Ok r.
Proof.
  destruct event as [| | | | | |e]; try discriminate. simpl. intros H.
  assert (H' : list_field entry_shaped (setitem "number" (VStr number) e)
                 "entries" = true).
  { unfold list_field in *. now rewrite get_numbered by discriminate. }
  apply list_field_ok in H' as (l & El & Hl).
  unfold event_out. simpl. cbv zeta. rewrite El. simpl.
  destruct (map_result_ok entry_out l) as [l' E'].
  { revert Hl. apply List.Forall_impl. apply entry_shaped_ok. }
  rewrite E'. simpl. eauto.
Qed.

Lemma plain_digit_is_decimal (k : string) :
  PyStr.all_chars (fun c => (N_of_ascii c <? 128)%N) k = true ->
  PyStr.all_chars PyStr.char_isdigit k = true ->
  PyStr.all_chars is_decimal k = true.
Proof.
  induction k as [|c k IH]; [reflexivity|]. cbn [PyStr.all_chars].
  rewrite !andb_true_iff. intros [Hc Hk] [Hd Hk']. split; [|auto].
  unfold PyStr.char_isdigit in Hd. unfold is_decimal. cbv zeta in *.
  apply N.ltb_lt in Hc.
  destruct ((48 <=? N_of_ascii c)%N && (N_of_ascii c <=? 57)%N);
    [reflexivity|].
  simpl in Hd. rewrite !orb_true_iff, !N.eqb_eq in Hd. lia.
Qed.

Lemma coerce_plain_key (k : string) :
  plain_key k = true -> exists id, coerce_meet_id k = Ok id.
Proof.
  unfold plain_key, coerce_meet_id. rewrite andb_true_iff. intros [Hp Hlen].
  apply Nat.leb_le in Hlen.
  destruct (PyStr.isdigit k) eqn:Hd; [|eauto].
  assert (Hne : k <> EmptyString) by (intros ->; discriminate).
  assert (Hdec : PyStr.all_chars is_decimal k = true).
  { apply plain_digit_is_decimal; [assumption|].
    unfold PyStr.isdigit in Hd. destruct k; [congruence|assumption]. }
  rewrite (py_int_decimal k Hne Hdec Hlen). eauto.
Qed.

Lemma swimmer_shaped_ok (meet_id : string) (swimmer : value) :
  swimmer_shaped meet_id swimmer = true ->
  exists r, swimmer_out meet_id swimmer = Ok r.
Proof.
  unfold swimmer_shaped. rewrite andb_true_iff. intros [Hm Hk].
  destruct swimmer as [| | | | | |s]; try discriminate.
  apply coerce_plain_key in Hk as [id Hk].
  unfold swimmer_out. simpl. rewrite Hk. simpl. eauto.
Qed.

Lemma team_shaped_ok (code : string) (team : value) :
  team_shaped code team = true -> exists r, team_out code team = Ok r.
Proof.
  destruct team as [| | | | | |t]; try discriminate. intros _.
  unfold team_out. simpl. eauto.
Qed.

(** On a tree of the shape that the parser delivers the conversion
    returns a document: the meet is a mapping or is absent; teams,
    swimmers and events are mappings of records, [None] or absent; the
    swimmer keys are ASCII strings of at most 4300 characters; the entries
    of an event and the swimmers of an entry are lists of records, [None]
    or absent; the disqualification details are mappings, [None] or
    absent. *)
Theorem well_shaped_documents_convert (parsed : dict) :
  well_shaped parsed = true -> exists out, _post_process parsed = Ok out.
Proof.
  unfold well_shaped. intros H.
  assert (Hm : exists meet,
             of_value (get_default parsed "meet" (VDict [])) = Ok meet /\
             mapping_field team_shaped meet "teams" = true /\
             mapping_field swimmer_shaped meet "swimmers" = true /\
             mapping_field event_shaped meet "events" = true).
  { unfold get_default.
    destruct (find "meet" parsed) as [[| | | | | |meet]|]; try discriminate.
    - exists meet. rewrite !andb_true_iff in H. simpl. tauto.
    - exists []. simpl. auto. }
  clear H. destruct Hm as (meet & Em & Ht & Hs & He).
  apply mapping_field_ok in Ht as (ts & Ets & Hts).
  apply mapping_field_ok in Hs as (ss & Ess & Hss).
  apply mapping_field_ok in He as (es & Ees & Hes).
  destruct (map_result_ok (fun kv => team_out (fst kv) (snd kv)) ts)
    as [tl Etl].
  { revert Hts. apply List.Forall_impl. intros kv. apply team_shaped_ok. }
  destruct (map_result_ok (fun kv => swimmer_out (fst kv) (snd kv)) ss)
    as [sl Esl].
  { revert Hss. apply List.Forall_impl. intros kv. apply swimmer_shaped_ok. }
  destruct (map_result_ok (fun kv => event_out (fst kv) (snd kv))
              (_sorted_events es)) as [el Eel].
  { apply (Permutation_Forall
             (Permutation_sym (py_sorted_perm _event_key tuple_lt es))).
    revert Hes. apply List.Forall_impl. intros kv. apply event_shaped_ok. }
  unfold _post_process. cbv zeta.
  rewrite Em. simpl. rewrite Ets. simpl. rewrite Etl. simpl.
  rewrite Ess. simpl. rewrite Esl. simpl. rewrite Ees. simpl.
  rewrite Eel. simpl. eauto.
Qed.

Lemma well_shaped_documents_convert_witness :
  well_shaped scenario = true /\ exists out, _post_process scenario = Ok out.
Proof.
  split; [reflexivity|].
  apply (well_shaped_documents_convert scenario). reflexivity.
Defined.

Lemma Forall2_In_l {A B : Type} (R : A -> B -> Prop) (l : list A)
  (l' : list B) (a : A) :
  Forall2 R l l' -> In a l -> exists b, R a b.
Proof.
  induction 1 as [|x y l l' Hxy _ IH]; simpl; [contradiction|].
  intros [<-|Hin]; eauto.
Qed.

Lemma not_a_record_raises (v : value) :
  not_a_record v = true -> forall d, of_value v <> Ok d.
Proof. destruct v as [| | | |[|c s]| |]; simpl; discriminate. Qed.

(** One record that is no mapping stops the whole conversion: when a
    value of the teams, swimmers or events mapping is [None], a Boolean,
    a number or a non-empty string, the conversion raises and no document
    is made, whatever the other records are. *)
Theorem a_value_that_is_no_record_aborts (parsed meet m : dict)
  (name k : string) (v : value) :
  of_value (get_default parsed "meet" (VDict [])) = Ok meet ->
  In name ["teams"; "swimmers"; "events"] ->
  mapping_of meet name = Ok m ->
  In (k, v) m ->
  not_a_record v = true ->
  exists e, _post_process parsed = Raise e.
Proof.
  intros Em Hname Emap Hin Hv.
  destruct (_post_process parsed) as [out|e] eqn:H; [exfalso|eauto].
  apply _post_process_inv in H
    as (meet' & ts & tl & ss & sl & es & el
        & Em' & Ets & Etl & Ess & Esl & Ees & Eel & _).
  rewrite Em in Em'. injection Em' as <-.
  apply map_result_Forall2 in Etl, Esl, Eel.
  destruct Hname as [<-|[<-|[<-|[]]]].
  - rewrite Emap in Ets. injection Ets as <-.
    destruct (Forall2_In_l _ _ _ _ Etl Hin) as [r Hr]. simpl in Hr.
    apply team_out_inv in Hr as (d & Hd & _).
    exact (not_a_record_raises v Hv d Hd).
  - rewrite Emap in Ess. injection Ess as <-.
    destruct (Forall2_In_l _ _ _ _ Esl Hin) as [r Hr]. simpl in Hr.
    apply swimmer_out_inv in Hr as (d & id & Hd & _).
    exact (not_a_record_raises v Hv d Hd).
  - rewrite Emap in Ees. injection Ees as <-.
    assert (Hin' : In (k, v) (_sorted_events m)).
    { apply (Permutation_in _
               (Permutation_sym (py_sorted_perm _event_key tuple_lt m))).
      exact Hin. }
    destruct (Forall2_In_l _ _ _ _ Eel Hin') as [r Hr]. simpl in Hr.
    apply event_out_inv in Hr as (d & ? & ? & Hd & _).
    exact (not_a_record_raises v Hv d Hd).
Qed.

Lemma a_value_that_is_no_record_aborts_witness :
  of_value
    (get_default
       [("meet", VDict [("teams", VDict [("ABC", VDict []);
                                         ("XYZ", VNone)])])]
       "meet" (VDict []))
  = Ok [("teams", VDict [("ABC", VDict []); ("XYZ", VNone)])]
  /\ In "teams" ["teams"; "swimmers"; "events"]
  /\ mapping_of [("teams", VDict [("ABC", VDict []); ("XYZ", VNone)])]
                "teams"
     = Ok [("ABC", VDict []); ("XYZ", VNone)]
  /\ In ("XYZ", VNone) [("ABC", VDict []); ("XYZ", VNone)]
  /\ not_a_record VNone = true
  /\ exists e,
       _post_process
         [("meet", VDict [("teams", VDict [("ABC", VDict []);
                                           ("XYZ", VNone)])])]
       = Raise e.
Proof.
  assert (H1 : In "teams" ["teams"; "swimmers"; "events"]) by (simpl; auto).
  assert (H2 : In ("XYZ", VNone) [("ABC", VDict []); ("XYZ", VNone)])
    by (simpl; auto).
  split; [reflexivity|]. split; [exact H1|]. split; [reflexivity|].
  split; [exact H2|]. split; [reflexivity|].
  eapply (a_value_that_is_no_record_aborts
            [("meet", VDict [("teams", VDict [("ABC", VDict []);
                                              ("XYZ", VNone)])])]);
    [reflexivity|exact H1|reflexivity|exact H2|reflexivity].
Defined.

(** ** The run over the store and the function over trees *)

(** Run on a store in which its argument stands for a document, the
    conversion does what the function over trees says: it raises the same
    exception, or it returns a reference to an object that stands, in the
    store it leaves, for the document that the function returns.  No run
    reads an address that holds no object. *)
Theorem run_computes_the_tree_function (h : Heap.heap) (p : Heap.hvalue)
  (parsed : dict) :
  repr h p (VDict parsed) ->
  match _post_process parsed with
  | Ok out =>
      exists a,
        fst (Heap._post_process p h) = Heap.Done (Heap.HRef a) /\
        repr (snd (Heap._post_process p h)) (Heap.HRef a) (VDict out)
  | Raise e => fst (Heap._post_process p h) = Heap.Exc e
  end.
Proof.
  intros Hr. destruct (_post_process_refines h p parsed Hr) as [_ H].
  destruct (fst (Heap._post_process p h)) as [v|e'|],
    (_post_process parsed) as [out|e]; try contradiction.
  - pose proof H as H'. apply repr_in_dict in H' as (a & hd & -> & _).
    eauto.
  - now subst.
Qed.

Lemma run_computes_the_tree_function_witness :
  repr (snd scenario_alone) (root_of scenario_alone) (VDict scenario)
  /\ match _post_process scenario with
     | Ok out =>
         exists a,
           fst (Heap._post_process (root_of scenario_alone)
                  (snd scenario_alone))
           = Heap.Done (Heap.HRef a) /\
           repr (snd (Heap._post_process (root_of scenario_alone)
                        (snd scenario_alone)))
                (Heap.HRef a) (VDict out)
     | Raise e =>
         fst (Heap._post_process (root_of scenario_alone)
                (snd scenario_alone))
         = Heap.Exc e
     end.
Proof.
  assert (H : repr (snd scenario_alone) (root_of scenario_alone)
                (VDict scenario)).
  { vm_compute. repeat (eexists || split). }
  split; [exact H|].
  exact (run_computes_the_tree_function _ _ _ H).
Defined.

(** ** The conversion applied to its own output *)

Lemma mapping_of_list (meet : dict) (name : string) (x : value)
  (l : list value) :
  find name meet = Some (VList (x :: l)) ->
  mapping_of meet name = Raise AttributeError.
Proof. unfold mapping_of, get_default. now intros ->. Qed.

Lemma mapping_of_empty_list (meet : dict) (name : string) :
  find name meet = Some (VList []) -> mapping_of meet name = Ok [].
Proof. unfold mapping_of, get_default. now intros ->. Qed.

(** The conversion does not apply to a document it has made.  In the
    document the teams, the swimmers and the events are lists, and the
    conversion asks each for its items as of a mapping: when one of the
    three lists has a record, converting the document again raises
    [AttributeError]. *)
Theorem conversion_rejects_its_own_output (parsed out : dict) :
  _post_process parsed = Ok out ->
  exists meet_out teams_list swimmers_list events_list,
    find "meet" out = Some (VDict meet_out) /\
    find "teams" meet_out = Some (VList teams_list) /\
    find "swimmers" meet_out = Some (VList swimmers_list) /\
    find "events" meet_out = Some (VList events_list) /\
    (teams_list <> [] \/ swimmers_list <> [] \/ events_list <> [] ->
     _post_process out = Raise AttributeError).
Proof.
  intros H.
  apply _post_process_inv in H
    as (meet & ts & tl & ss & sl & es & el & _ & _ & _ & _ & _ & _ & _ & ->).
  destruct (find_meet_lists meet tl sl el) as (Ft & Fs & Fe).
  eexists. exists tl, sl, el.
  split; [reflexivity|]. split; [exact Ft|]. split; [exact Fs|].
  split; [exact Fe|].
  intros Hne. unfold _post_process. cbv zeta.
  change (get_default
            [("file", VDict (_drop_none (file_section parsed)));
             ("meet", VDict (_drop_none (meet_candidate meet tl sl el)))]
            "meet" (VDict []))
    with (VDict (_drop_none (meet_candidate meet tl sl el))).
  cbn [of_value bind].
  destruct tl as [|t tl].
  - rewrite (mapping_of_empty_list _ _ Ft). cbn [bind map_result].
    destruct sl as [|s sl].
    + rewrite (mapping_of_empty_list _ _ Fs). cbn [bind map_result].
      destruct el as [|e el]; [exfalso; tauto|].
      now rewrite (mapping_of_list _ _ _ _ Fe).
    + now rewrite (mapping_of_list _ _ _ _ Fs).
  - now rewrite (mapping_of_list _ _ _ _ Ft).
Qed.

Lemma conversion_rejects_its_own_output_witness :
  _post_process scenario = Ok scenario_document
  /\ exists meet_out teams_list swimmers_list events_list,
       find "meet" scenario_document = Some (VDict meet_out) /\
       find "teams" meet_out = Some (VList teams_list) /\
       find "swimmers" meet_out = Some (VList swimmers_list) /\
       find "events" meet_out = Some (VList events_list) /\
       (teams_list <> [] \/ swimmers_list <> [] \/ events_list <> [] ->
        _post_process scenario_document = Raise AttributeError).
Proof.
  split; [reflexivity|].
  apply (conversion_rejects_its_own_output scenario). reflexivity.
Defined.

(** The records of the scenario keep to the keys of their displays. *)
Lemma records_keep_to_their_keys_witness :
  _post_process scenario = Ok scenario_document
  /\ exists file meet,
       scenario_document = [("file", VDict file); ("meet", VDict meet)] /\
       List.map fst file `sublist_of` file_keys /\
       List.map fst meet `sublist_of` meet_keys.
Proof.
  split; [reflexivity|].
  apply (proj1 records_keep_to_their_keys scenario). reflexivity.
Defined.
